(** * CarbonRepo: the reconciliation and verification engine

    A shallow embedding of the parts of [configmanager.py] and
    [generate2.py] that decide drift, hash release assets and summarise
    changes, together with the properties stated for them.

    Conventions.
    - Python text is modelled as [string] restricted to ASCII: [lower]
      maps [A-Z] to [a-z] and whitespace is the ASCII part of
      [str.isspace].
    - A Python exception is a value of [exn]; code that may raise returns
      a [result].
    - The network, the JSON decoder and the terminal are outside the
      repository: a run is a function of what the network answers. *)

From Stdlib Require Import ZArith List String Ascii Bool Lia Arith.
From Stdlib Require Import Init.Byte.
From stdpp Require Import base option list strings pretty gmap fin_maps.

Import ListNotations.
Local Open Scope string_scope.
Local Open Scope list_scope.
Local Open Scope nat_scope.

(* ===================================================================== *)
(** * Python runtime fragments *)
(* ===================================================================== *)

Module Py.

(** Exceptions that the modelled code can meet.  All of them are
    subclasses of [Exception], so [except Exception] catches each one. *)
Inductive exn : Type :=
| IndexError
| AttributeError
| TypeError
| RuntimeError (msg : string)
| ClientError (msg : string)
| Exception (msg : string).

Inductive result (A : Type) : Type :=
| Ok (a : A)
| Raise (e : exn).
Arguments Ok {A} a.
Arguments Raise {A} e.

Definition bind {A B} (m : result A) (k : A -> result B) : result B :=
  match m with
  | Ok a => k a
  | Raise e => Raise e
  end.

Definition is_ok {A} (m : result A) : bool :=
  match m with Ok _ => true | Raise _ => false end.

(** [str(e)] *)
Definition str (e : exn) : string :=
  match e with
  | IndexError => "list index out of range"
  | AttributeError => "attribute error"
  | TypeError => "type error"
  | RuntimeError msg | ClientError msg | Exception msg => msg
  end.

(** [l[i]] for a non-negative index. *)
Definition index {A} (l : list A) (i : nat) : result A :=
  match nth_error l i with
  | Some x => Ok x
  | None => Raise IndexError
  end.

(** ** Characters *)

(** [str.isspace] on ASCII: TAB..CR, FS..US and the blank. *)
Definition isspace (c : ascii) : bool :=
  let n := nat_of_ascii c in
  ((9 <=? n) && (n <=? 13)) || ((28 <=? n) && (n <=? 32)).

Definition lower_char (c : ascii) : ascii :=
  let n := nat_of_ascii c in
  if (65 <=? n) && (n <=? 90) then ascii_of_nat (n + 32) else c.

(** ** Strings *)

Fixpoint lower (s : string) : string :=
  match s with
  | EmptyString => EmptyString
  | String c s' => String (lower_char c) (lower s')
  end.

(** [s.startswith(p)] *)
Fixpoint startswith (s p : string) {struct p} : bool :=
  match p, s with
  | EmptyString, _ => true
  | String _ _, EmptyString => false
  | String a p', String b s' => if Ascii.eqb a b then startswith s' p' else false
  end.

Fixpoint skip (n : nat) (s : string) : string :=
  match n, s with
  | O, _ => s
  | S _, EmptyString => EmptyString
  | S n', String _ s' => skip n' s'
  end.

(** [s[:n]] *)
Fixpoint slice_to (n : nat) (s : string) : string :=
  match n, s with
  | O, _ => EmptyString
  | S _, EmptyString => EmptyString
  | S n', String c s' => String c (slice_to n' s')
  end.

(** [sub in s] *)
Fixpoint contains (sub s : string) : bool :=
  startswith s sub ||
  match s with
  | EmptyString => false
  | String _ s' => contains sub s'
  end.

(** The text before and after the first occurrence of [sep]
    ([str.partition] without the separator), [None] when there is none. *)
Fixpoint cut (sep s : string) : option (string * string) :=
  if startswith s sep then Some (EmptyString, skip (String.length sep) s)
  else
    match s with
    | EmptyString => None
    | String c s' =>
        match cut sep s' with
        | Some (a, b) => Some (String c a, b)
        | None => None
        end
    end.

(** [s.split(sep, maxsplit)] for a non-empty [sep]; [maxsplit = None] is
    Python's [-1].  The fuel bounds the number of pieces, which never
    exceeds [len(s) + 1]. *)
Fixpoint split_fuel (fuel : nat) (sep : string) (maxsplit : option nat)
  (s : string) : list string :=
  match fuel with
  | O => [s]
  | S fuel' =>
      match maxsplit with
      | Some O => [s]
      | _ =>
          match cut sep s with
          | None => [s]
          | Some (a, b) =>
              a :: split_fuel fuel' sep (Nat.pred <$> maxsplit) b
          end
      end
  end.

Definition split (sep : string) (maxsplit : option nat) (s : string)
  : list string :=
  split_fuel (S (String.length s)) sep maxsplit s.

Fixpoint lstrip (s : string) : string :=
  match s with
  | EmptyString => EmptyString
  | String c s' => if isspace c then lstrip s' else s
  end.

Fixpoint rstrip (s : string) : string :=
  match s with
  | EmptyString => EmptyString
  | String c s' =>
      match rstrip s' with
      | EmptyString => if isspace c then EmptyString else String c EmptyString
      | r => String c r
      end
  end.

(** [s.strip()] *)
Definition strip (s : string) : string := rstrip (lstrip s).

(** [s.split()]: the maximal runs of non-blank characters.  [cur] is the
    run being read, reversed. *)
Fixpoint split_ws_go (cur : list ascii) (s : string) : list string :=
  let flush :=
    match cur with
    | [] => []
    | _ => [string_of_list_ascii (rev cur)]
    end in
  match s with
  | EmptyString => flush
  | String c s' =>
      if isspace c then flush ++ split_ws_go [] s'
      else split_ws_go (c :: cur) s'
  end.

Definition split_ws (s : string) : list string := split_ws_go [] s.

(** [sep.join(l)] *)
Fixpoint join (sep : string) (l : list string) : string :=
  match l with
  | [] => EmptyString
  | [x] => x
  | x :: l' => x +:+ sep +:+ join sep l'
  end.

(** Every character of [s] satisfies [p]. *)
Fixpoint all_chars (p : ascii -> bool) (s : string) : bool :=
  match s with
  | EmptyString => true
  | String c s' => p c && all_chars p s'
  end.

(** The line feed, and the first line of a text: [s.split('\n')[0]]. *)
Definition LF : string := String (ascii_of_nat 10) EmptyString.

Definition first_line (s : string) : result string :=
  index (split LF None s) 0.

(** Truthiness of a [str]. *)
Definition nonempty (s : string) : bool :=
  match s with EmptyString => false | _ => true end.

(** Truthiness of an optional [str] ([None] and [''] are falsy). *)
Definition truthy (o : option string) : bool :=
  match o with
  | Some s => nonempty s
  | None => false
  end.

(** ** More of [str] and [re] *)

Definition upper_char (c : ascii) : ascii :=
  let n := nat_of_ascii c in
  if (97 <=? n) && (n <=? 122) then ascii_of_nat (n - 32) else c.

Definition is_upper (c : ascii) : bool :=
  let n := nat_of_ascii c in (65 <=? n) && (n <=? 90).

Definition is_alpha (c : ascii) : bool :=
  let n := nat_of_ascii c in
  ((65 <=? n) && (n <=? 90)) || ((97 <=? n) && (n <=? 122)).

(** [\w] on ASCII: letters, digits and the underscore. *)
Definition is_word (c : ascii) : bool :=
  let n := nat_of_ascii c in
  is_alpha c || ((48 <=? n) && (n <=? 57)) || (n =? 95).

(** The longest prefix of characters satisfying [p], and the rest. *)
Fixpoint span (p : ascii -> bool) (s : string) : string * string :=
  match s with
  | EmptyString => (EmptyString, EmptyString)
  | String c s' =>
      if p c then let '(a, b) := span p s' in (String c a, b)
      else (EmptyString, s)
  end.

(** [s.replace(old, new)] for a one-character [old]. *)
Fixpoint replace_char (old : ascii) (new : string) (s : string) : string :=
  match s with
  | EmptyString => EmptyString
  | String c s' =>
      if Ascii.eqb c old then new +:+ replace_char old new s'
      else String c (replace_char old new s')
  end.

(** The ASCII line boundaries of [str.splitlines]: LF, VT, FF, CR and
    the separators FS, GS, RS. *)
Definition is_linebreak (c : ascii) : bool :=
  let n := nat_of_ascii c in
  ((10 <=? n) && (n <=? 13)) || ((28 <=? n) && (n <=? 30)).

(** [s.splitlines()]: a CR LF pair is one boundary, and a boundary at the
    end of the text opens no further line.  [cur] is the line being read,
    reversed. *)
Fixpoint splitlines_go (cur : list ascii) (s : string) : list string :=
  match s with
  | EmptyString =>
      match cur with
      | [] => []
      | _ => [string_of_list_ascii (rev cur)]
      end
  | String c s' =>
      if is_linebreak c then
        string_of_list_ascii (rev cur) ::
        match s' with
        | String d s'' =>
            if Ascii.eqb c (ascii_of_nat 13) && Ascii.eqb d (ascii_of_nat 10)
            then splitlines_go [] s''
            else splitlines_go [] s'
        | EmptyString => splitlines_go [] s'
        end
      else splitlines_go (c :: cur) s'
  end.

Definition splitlines (s : string) : list string := splitlines_go [] s.

(** [s.ljust(width)] *)
Definition ljust (width : nat) (s : string) : string :=
  s +:+ string_of_list_ascii (repeat " "%char (width - String.length s)).

(** [s.title()] on ASCII: a letter is capitalised when the character
    before it is not a letter, and put in lower case otherwise. *)
Fixpoint title_go (previous_is_cased : bool) (s : string) : string :=
  match s with
  | EmptyString => EmptyString
  | String c s' =>
      String (if previous_is_cased then lower_char c else upper_char c)
             (title_go (is_alpha c) s')
  end.

Definition title (s : string) : string := title_go false s.

(** [re.sub(r"\s+", " ", s)] *)
Fixpoint collapse_spaces_go (in_space : bool) (s : string) : string :=
  match s with
  | EmptyString => EmptyString
  | String c s' =>
      if isspace c then
        if in_space then collapse_spaces_go true s'
        else String " " (collapse_spaces_go true s')
      else String c (collapse_spaces_go false s')
  end.

Definition collapse_spaces (s : string) : string := collapse_spaces_go false s.

(** [re.sub(r"^" + prefix, "", s)] for a literal [prefix]. *)
Definition remove_prefix (prefix s : string) : string :=
  if startswith s prefix then skip (String.length prefix) s else s.

(** [re.sub(r"(?<!^)(?=[A-Z])", " ", s)]: a blank goes in front of every
    capital letter that is not the first character. *)
Fixpoint space_capitals_go (at_start : bool) (s : string) : string :=
  match s with
  | EmptyString => EmptyString
  | String c s' =>
      if negb at_start && is_upper c
      then String " " (String c (space_capitals_go false s'))
      else String c (space_capitals_go false s')
  end.

Definition space_capitals (s : string) : string := space_capitals_go true s.

(** [re.sub(r"\b" + word + r"\b", new, s)] for a literal [word] that
    begins and ends with a word character: the occurrences are replaced
    from left to right, each one bounded on both sides by a character that
    is not a word character, or by an end of the text.  [previous_is_word]
    tells what stands before the position, [pending] how many characters
    of a replaced occurrence are still to be passed over. *)
Fixpoint sub_word_go (word new : string) (previous_is_word : bool)
  (pending : nat) (s : string) : string :=
  match s with
  | EmptyString => EmptyString
  | String c s' =>
      match pending with
      | S pending' => sub_word_go word new (is_word c) pending' s'
      | O =>
          let after := skip (String.length word) s in
          let bounded_right :=
            match after with
            | EmptyString => true
            | String d _ => negb (is_word d)
            end in
          if negb previous_is_word && startswith s word && bounded_right
          then new +:+ sub_word_go word new (is_word c)
                         (String.length word - 1) s'
          else String c (sub_word_go word new (is_word c) 0 s')
      end
  end.

Definition sub_word (word new s : string) : string :=
  sub_word_go word new false 0 s.


(** Every blank of [s] is a space, and no space follows a blank; with
    [previous_is_blank] the text does not begin with a space either. *)
Fixpoint blanks_single (previous_is_blank : bool) (s : string) : bool :=
  match s with
  | EmptyString => true
  | String c s' =>
      if isspace c
      then Ascii.eqb c " " && negb previous_is_blank && blanks_single true s'
      else blanks_single false s'
  end.
End Py.

(* ===================================================================== *)
(** * hashlib.sha256: the incremental SHA-256 object *)
(* ===================================================================== *)

(** [hashlib] is outside the repository; its [sha256] object is modelled
    after FIPS 180-4 as an accumulator: the chaining value, the bytes of
    the unfinished block and the number of bytes taken so far.  Words are
    32-bit unsigned integers in [Z], reduced after every addition. *)
Module Sha256.
Local Open Scope Z_scope.

Definition word (x : Z) : Z := x mod 2 ^ 32.
Definition add (x y : Z) : Z := word (x + y).
Definition rotr (n x : Z) : Z :=
  Z.lor (Z.shiftr x n) (word (Z.shiftl x (32 - n))).
Definition shr (n x : Z) : Z := Z.shiftr x n.
Definition not32 (x : Z) : Z := Z.lxor x 4294967295.

Definition Ch (x y z : Z) : Z := Z.lxor (Z.land x y) (Z.land (not32 x) z).
Definition Maj (x y z : Z) : Z :=
  Z.lxor (Z.lxor (Z.land x y) (Z.land x z)) (Z.land y z).
Definition Sigma0 (x : Z) : Z := Z.lxor (Z.lxor (rotr 2 x) (rotr 13 x)) (rotr 22 x).
Definition Sigma1 (x : Z) : Z := Z.lxor (Z.lxor (rotr 6 x) (rotr 11 x)) (rotr 25 x).
Definition sigma0 (x : Z) : Z := Z.lxor (Z.lxor (rotr 7 x) (rotr 18 x)) (shr 3 x).
Definition sigma1 (x : Z) : Z := Z.lxor (Z.lxor (rotr 17 x) (rotr 19 x)) (shr 10 x).

(** The constants of the standard are fractional parts of roots of the
    first primes: 32 bits of the cube root for the round constants, of
    the square root for the initial chaining value. *)
Definition is_prime (n : nat) : bool :=
  forallb (λ d, negb (n mod d =? 0)%nat) (seq 2 (n - 2)).

Definition primes : list Z :=
  Z.of_nat <$> filter (λ n, is_prime n = true) (seq 2 310).

(** Largest [r] below [2 ^ 36] with [r ^ 3 <= n], found bit by bit. *)
Definition cube_root (n : Z) : Z :=
  fold_left
    (λ r b, let r' := r + 2 ^ Z.of_nat b in
            if r' * r' * r' <=? n then r' else r)
    (rev (seq 0 36)) 0.

Definition K : list Z :=
  Eval vm_compute in (λ p, word (cube_root (p * 2 ^ 96))) <$> primes.

Definition H0 : list Z :=
  Eval vm_compute in (λ p, word (Z.sqrt (p * 2 ^ 64))) <$> take 8 primes.

Definition byte_to_Z (b : byte) : Z := Z.of_N (Byte.to_N b).

Definition byte_of_Z (z : Z) : byte :=
  match Byte.of_N (Z.to_N (z mod 256)) with
  | Some b => b
  | None => Byte.x00
  end.

(** Big-endian words of a block. *)
Fixpoint words_of_bytes (l : list byte) : list Z :=
  match l with
  | a :: b :: c :: d :: rest =>
      (((byte_to_Z a * 256 + byte_to_Z b) * 256 + byte_to_Z c) * 256
       + byte_to_Z d) :: words_of_bytes rest
  | _ => []
  end.

(** The sixteen most recent words of the message schedule, moved on by
    one position. *)
Definition next_window (w : list Z) : list Z :=
  let at_ i := nth i w 0 in
  tl w ++ [add (add (sigma1 (at_ 14%nat)) (at_ 9%nat))
               (add (sigma0 (at_ 1%nat)) (at_ 0%nat))].

(** One round on the working variables [a..h]. *)
Definition round (k w : Z) (v : list Z) : list Z :=
  match v with
  | [a; b; c; d; e; f; g; h] =>
      let T1 := add (add (add (add h (Sigma1 e)) (Ch e f g)) k) w in
      let T2 := add (Sigma0 a) (Maj a b c) in
      [add T1 T2; a; b; c; add d T1; e; f; g]
  | _ => v
  end.

Fixpoint rounds (ks : list Z) (w : list Z) (v : list Z) : list Z :=
  match ks with
  | [] => v
  | k :: ks' => rounds ks' (next_window w) (round k (nth 0 w 0) v)
  end.

Fixpoint add_words (x y : list Z) : list Z :=
  match x, y with
  | a :: x', b :: y' => add a b :: add_words x' y'
  | _, _ => []
  end.

(** The compression function on one 64-byte block. *)
Definition compress (h : list Z) (block : list byte) : list Z :=
  add_words h (rounds K (words_of_bytes block) h).

(** Taking bytes one at a time: a block is compressed as soon as it is
    full, and nothing but the unfinished block is kept. *)
Fixpoint absorb (h : list Z) (buf : list byte) (data : list byte)
  : list Z * list byte :=
  match data with
  | [] => (h, buf)
  | b :: rest =>
      let buf' := buf ++ [b] in
      if (length buf' =? 64)%nat then absorb (compress h buf') [] rest
      else absorb h buf' rest
  end.

Record t : Type := {
  chain : list Z;
  pending : list byte;
  count : Z
}.

(** [hashlib.sha256()] *)
Definition new : t := {| chain := H0; pending := []; count := 0 |}.

(** [m.update(data)] *)
Definition update (m : t) (data : list byte) : t :=
  let '(h, buf) := absorb (chain m) (pending m) data in
  {| chain := h; pending := buf; count := count m + Z.of_nat (length data) |}.

(** The padding that closes a message of [n] bytes: [0x80], zeros up to
    56 modulo 64, and the length in bits on eight bytes. *)
Definition padding (n : Z) : list byte :=
  let bits := (8 * n) mod 2 ^ 64 in
  Byte.x80 :: repeat Byte.x00 (Z.to_nat ((55 - n) mod 64))
  ++ map (λ i, byte_of_Z (Z.shiftr bits (8 * i))) [7; 6; 5; 4; 3; 2; 1; 0].

Definition hex_digit (z : Z) : ascii :=
  nth (Z.to_nat z)
    (list_ascii_of_string "0123456789abcdef") "0"%char.

Definition hex_of_word (w : Z) : string :=
  string_of_list_ascii
    (map (λ i, hex_digit (Z.land (Z.shiftr w (4 * i)) 15)) [7; 6; 5; 4; 3; 2; 1; 0]).

(** [m.hexdigest()] *)
Definition hexdigest (m : t) : string :=
  let '(h, _) := absorb (chain m) (pending m) (padding (count m)) in
  String.concat "" (map hex_of_word h).

(** [hashlib.sha256(data).hexdigest()] *)
Definition sha256_hex (data : list byte) : string :=
  hexdigest (update new data).

End Sha256.

(* ===================================================================== *)
(** * aiohttp: responses and streamed content *)
(* ===================================================================== *)

Module Aiohttp.
Import Py.

Record response (A : Type) : Type := {
  status : nat;
  text : string;
  body : A
}.
Arguments status {A} _.
Arguments text {A} _.
Arguments body {A} _.

(** The content of a download: the bytes that arrive and, when the
    transfer breaks, the exception that ends it. *)
Record stream : Type := {
  delivered : list byte;
  broken : option exn
}.

(** [resp.content.iter_chunked(n)] on the bytes that arrive. *)
Fixpoint iter_chunked_fuel (fuel n : nat) (data : list byte)
  : list (list byte) :=
  match fuel with
  | O => []
  | S fuel' =>
      match data with
      | [] => []
      | _ => take n data :: iter_chunked_fuel fuel' n (drop n data)
      end
  end.

Definition iter_chunked (n : nat) (data : list byte) : list (list byte) :=
  iter_chunked_fuel (length data) n data.

(** [for chunk in chunks: sha256.update(chunk)] then [hexdigest()] *)
Definition hash_stream (chunks : list (list byte)) : string :=
  Sha256.hexdigest (fold_left Sha256.update chunks Sha256.new).

End Aiohttp.
(* ===================================================================== *)
(** * configmanager.py: the fingerprint store and the drift reconciler *)
(* ===================================================================== *)

Module ConfigManager.
Import Py Aiohttp.

(** ** Data model *)

(** The value stored under a coordinate: [{"_comment": ..., "assets": {...}}].
    [_comment = None] is a missing key; an asset maps to [None] when its
    digest is JSON [null]. *)
Record TrackedItem : Type := {
  _comment : option string;
  assets : gmap string (option string)
}.

(** One element of the store is a single-key mapping [{coordinate: item}],
    modelled as the pair of its key and value. *)
Definition entry : Type := string * TrackedItem.

(** [list(entry.keys())[0]] *)
Definition coordinate (e : entry) : string := e.1.

(** [{sha, date, message}] as returned by [_fetch_latest_commit_info];
    [sha = None] stands for a JSON [null]. *)
Record commit_info : Type := {
  sha : option string;
  date : string;
  message : string
}.

(** The value of [self.outdated_repos[repo]]. *)
Record DriftRecord : Type := {
  old_sha : string;
  new_sha : string;
  commit_date : string;
  commit_message : string;
  index : nat
}.

(** ** Adding an item (on_button_pressed, "submit_add") *)

(** The annotation written by [fetch_latest_release_assets]. *)
Definition format_comment (default_branch sha date : string) : string :=
  "Last commit on " +:+ default_branch +:+ ": " +:+ sha +:+ " @ " +:+ date.

(** [[e for e in config if repo_name not in e] + [{repo_name: {...}}]] *)
Definition add_repo (config : list entry) (repo_name comment : string)
  (hashes : gmap string (option string)) : list entry :=
  filter (λ e, coordinate e ≠ repo_name) config
  ++ [(repo_name, {| _comment := Some comment; assets := hashes |})].

(** The handler: [parsed] is the result of [parse_repo_input] on the text
    typed by the user, [fetched] what [fetch_latest_release_assets] answers.
    A failed fetch leaves the store as it was. *)
Definition submit_add (config : list entry) (parsed : option string)
  (fetched : string -> result (gmap string (option string) * string))
  : result (list entry) :=
  if truthy parsed then
    let repo_name := default "" parsed in
    bind (fetched repo_name) (λ '(hashes, comment),
      Ok (add_repo config repo_name comment hashes))
  else Ok config.

(** ** Hashing a release asset *)

(** [fetch_asset_hash(session, url)] on what the network answers to the
    request; [Raise] in [answer] is a request that fails before any status
    arrives. *)
Definition fetch_asset_hash (answer : result (response stream)) (url : string)
  : result string :=
  bind answer (λ resp,
    if status resp =? 200 then
      let digest := hash_stream (iter_chunked 1024 (delivered (body resp))) in
      match broken (body resp) with
      | Some e => Raise e
      | None => Ok digest
      end
    else Raise (RuntimeError ("Failed to download " +:+ url +:+ " status="
                              +:+ pretty (status resp)))).

(** ** Extracting the stored commit identifier *)

(** _check_updates_worker, the expression tried first:
    [old_comment.split(":", 1)[1].strip().split(" @")[0].strip()
       if ":" in old_comment else None]. *)
Definition primary_parse (old_comment : string) : result (option string) :=
  if contains ":" old_comment then
    bind (Py.index (split ":" (Some 1) old_comment) 1) (λ after,
    bind (Py.index (split " @" None (strip after)) 0) (λ before,
    Ok (Some (strip before))))
  else Ok None.

(** _check_updates_worker, the [except Exception] branch:
    [parts = old_comment.split(); parts[3] if len(parts) > 3 else None]. *)
Definition fallback_parse (old_comment : string) : result (option string) :=
  let parts := split_ws old_comment in
  if 3 <? length parts then bind (Py.index parts 3) (λ p, Ok (Some p))
  else Ok None.

(** The whole [try ... except Exception ...] of _check_updates_worker. *)
Definition extract_sha (old_comment : string) : result (option string) :=
  match primary_parse old_comment with
  | Ok v => Ok v
  | Raise _ => fallback_parse old_comment
  end.

(** _update_repo_worker:
    [old_comment.split()[3] if old_comment else None], outside any [try]. *)
Definition update_repo_old_sha (old_comment : string) : result (option string) :=
  if nonempty old_comment then
    bind (Py.index (split_ws old_comment) 3) (λ p, Ok (Some p))
  else Ok None.

(** What _update_repo_worker leaves behind: the store and, when it found
    the two tokens different, the pair handed to [_show_repo_diff]. *)
Record update_result : Type := {
  new_config : list entry;
  diff_requested : option (string * string)
}.

(** _update_repo_worker for the entry at [idx].  The old identifier is
    read before the [try]; everything after it is inside, and a failure
    there leaves the store as it was. *)
Definition _update_repo_worker (config : list entry) (idx : nat)
  (fetched : string -> result (gmap string (option string) * string))
  : result update_result :=
  bind (Py.index config idx) (λ e,
  let repo := coordinate e in
  let old_comment := default "" (_comment e.2) in
  bind (update_repo_old_sha old_comment) (λ old,
  match
    bind (fetched repo) (λ '(hashes, comment),
    bind (Py.index (split_ws comment) 3) (λ new,
      Ok {| new_config :=
              <[idx := (repo, {| _comment := Some comment;
                                 assets := hashes |})]> config;
            diff_requested :=
              if truthy old && negb (bool_decide (Some new = old))
              then Some (default "" old, new) else None |}))
  with
  | Ok r => Ok r
  | Raise _ => Ok {| new_config := config; diff_requested := None |}
  end)).

(** ** The drift check *)

(** The test of line 711, negated: the two identifiers name one commit. *)
Definition is_same_commit (old new : string) : bool :=
  String.eqb (lower old) (lower new)
  || startswith new old
  || startswith old new.

Inductive outcome : Type := UpToDate | Outdated | CheckError.

(** The [if]/[else] ladder applied to the extracted and the fetched
    identifier. *)
Definition classify (old new : option string) : outcome :=
  if truthy old && truthy new && negb (bool_decide (old = new)) then
    let o := default "" old in
    let n := default "" new in
    if negb (String.eqb (lower o) (lower n))
       && negb (startswith n o) && negb (startswith o n)
    then Outdated
    else UpToDate
  else UpToDate.

(** State of one pass: [self.outdated_repos] and the three counters. *)
Record pass_state : Type := {
  outdated_repos : gmap string DriftRecord;
  outdated_count : nat;
  update_count : nat;
  error_count : nat
}.

Definition pass_start : pass_state :=
  {| outdated_repos := ∅; outdated_count := 0;
     update_count := 0; error_count := 0 |}.

Section Pass.

(** What the network answers to [_fetch_latest_commit_info repo]. *)
Variable fetch_latest_commit_info : string -> result commit_info.

(** The body of the [try] for the entry at position [i]: the record to
    store when the item is outdated, [None] when it is up to date. *)
Definition check_body (i : nat) (e : entry) : result (option DriftRecord) :=
  let repo := coordinate e in
  let old_comment := default "" (_comment e.2) in
  bind (extract_sha old_comment) (λ old,
  bind (fetch_latest_commit_info repo) (λ new_commit_info,
    let new := sha new_commit_info in
    match classify old new with
    | Outdated =>
        Ok (Some {| old_sha := default "" old;
                    new_sha := default "" new;
                    commit_date := date new_commit_info;
                    commit_message := message new_commit_info;
                    index := i |})
    | _ => Ok None
    end)).

(** One iteration of the loop, with its [except Exception]. *)
Definition check_entry (st : pass_state) (i : nat) (e : entry) : pass_state :=
  match check_body i e with
  | Ok (Some r) =>
      {| outdated_repos := <[coordinate e := r]> (outdated_repos st);
         outdated_count := S (outdated_count st);
         update_count := update_count st;
         error_count := error_count st |}
  | Ok None =>
      {| outdated_repos := outdated_repos st;
         outdated_count := outdated_count st;
         update_count := S (update_count st);
         error_count := error_count st |}
  | Raise _ =>
      {| outdated_repos := outdated_repos st;
         outdated_count := outdated_count st;
         update_count := update_count st;
         error_count := S (error_count st) |}
  end.

(** [for i, entry in enumerate(self.config)], from position [i] on. *)
Fixpoint check_from (st : pass_state) (i : nat) (config : list entry)
  : pass_state :=
  match config with
  | [] => st
  | e :: rest => check_from (check_entry st i e) (S i) rest
  end.

(** The pass: the previous drift set is dropped, the counters start at 0. *)
Definition _check_updates_worker (config : list entry) : pass_state :=
  check_from pass_start 0 config.

(** Terminal state of the item at position [i] for the pass. *)
Definition item_outcome (i : nat) (e : entry) : outcome :=
  match check_body i e with
  | Ok (Some _) => Outdated
  | Ok None => UpToDate
  | Raise _ => CheckError
  end.

End Pass.

(** ** The change summarizer *)

(** What the summarizer does to the terminal and to the network. *)
Inductive effect : Type :=
| UpdateStatus (msg : string)
| Notify (msg severity : string)
| PushScreen (full_diff title : string)
| Get (url : string).

(** The state a summarization works on: the lines of [diff_text]
    assembled so far and the effects so far, oldest first. *)
Record summarizer_state : Type := {
  diff_text : list string;
  effects : list effect
}.

(** A step of the summarizer: it returns or raises, and leaves a state
    behind in both cases. *)
Definition Summ (A : Type) : Type :=
  summarizer_state -> result A * summarizer_state.

#[global] Instance Summ_ret : MRet Summ := λ A a st, (Ok a, st).

#[global] Instance Summ_bind : MBind Summ := λ A B k m st,
  match m st with
  | (Ok a, st') => k a st'
  | (Raise e, st') => (Raise e, st')
  end.

Definition lift {A} (r : result A) : Summ A := λ st, (r, st).

Definition perform (ev : effect) : Summ unit := λ st,
  (Ok tt, {| diff_text := diff_text st; effects := effects st ++ [ev] |}).

(** [diff_text = []] *)
Definition clear_text : Summ unit := λ st,
  (Ok tt, {| diff_text := []; effects := effects st |}).

(** [diff_text.append(line)] *)
Definition append_line (line : string) : Summ unit := λ st,
  (Ok tt, {| diff_text := diff_text st ++ [line]; effects := effects st |}).

Definition read_text : Summ (list string) := λ st, (Ok (diff_text st), st).

(** [try: m  except Exception as e: h e] *)
Definition try_except {A} (m : Summ A) (h : exn -> Summ A) : Summ A := λ st,
  match m st with
  | (Ok a, st') => (Ok a, st')
  | (Raise e, st') => h e st'
  end.

(** A commit resource, reduced to what is read from it:
    [sha], [commit.author.date], [commit.author.name], [commit.message]. *)
Record commit_doc : Type := {
  cd_sha : option string;
  cd_date : option string;
  cd_author : option string;
  cd_message : option string
}.

Record file_doc : Type := {
  fd_status : option string;
  fd_filename : option string;
  fd_additions : option nat;
  fd_deletions : option nat;
  fd_patch : option string
}.

(** A commit-range comparison, reduced to what is read from it. *)
Record compare_doc : Type := {
  cmp_status : option string;
  cmp_total_commits : option nat;
  cmp_files : option (list file_doc);
  cmp_commits : option (list commit_doc)
}.

Section Summarizer.

(** What the network answers for a comparison and for a single commit;
    [Raise] is a request that fails before any status arrives, the inner
    [result] the decoding of the body. *)
Variable http_compare : string -> result (response (result compare_doc)).
Variable http_commit : string -> result (response (result commit_doc)).

(** One [async with self.session.get(url) as resp: ...] of the fallback:
    [None] when the status made the function return. *)
Definition fetch_commit (which url : string) : Summ (option commit_doc) :=
  perform (Get url);;
  resp ← lift (http_commit url);
  if negb (status resp =? 200) then
    perform (Notify ("Failed to fetch " +:+ which +:+ " commit: "
                     +:+ pretty (status resp)) "error");;
    mret None
  else
    doc ← lift (body resp);
    mret (Some doc).

(** The lines the fallback adds for one commit. *)
Definition describe_commit (label sha_ : string) (doc : commit_doc) : Summ unit :=
  let commit_date := default "unknown date" (cd_date doc) in
  msg ← lift (first_line (default "" (cd_message doc)));
  append_line (label +:+ " COMMIT: " +:+ slice_to 8 sha_ +:+ " ("
          +:+ commit_date +:+ ")");;
  append_line ("Message: " +:+ msg);;
  append_line "".

Definition _show_repo_diff_alternative (repo old_sha new_sha : string) : Summ unit :=
  try_except
    (perform (UpdateStatus
       "Using alternative method to get changes between commits...");;
     clear_text;;
     append_line ("Changes between " +:+ slice_to 8 old_sha +:+ " and "
             +:+ slice_to 8 new_sha);;
     append_line ("Note: Direct comparison not available. "
             +:+ "Showing summary information." +:+ LF);;
     let old_commit_url :=
       "https://api.github.com/repos/" +:+ repo +:+ "/commits/" +:+ old_sha in
     let new_commit_url :=
       "https://api.github.com/repos/" +:+ repo +:+ "/commits/" +:+ new_sha in
     old_commit ← fetch_commit "old" old_commit_url;
     match old_commit with
     | None => mret tt
     | Some old_doc =>
         describe_commit "OLD" old_sha old_doc;;
         new_commit ← fetch_commit "new" new_commit_url;
         match new_commit with
         | None => mret tt
         | Some new_doc =>
             describe_commit "NEW" new_sha new_doc;;
             append_line "To see detailed changes, visit:";;
             append_line ("https://github.com/" +:+ repo +:+ "/compare/"
                     +:+ old_sha +:+ "..." +:+ new_sha);;
             append_line "";;
             append_line "Or clone the mods and use:";;
             append_line ("git diff " +:+ old_sha +:+ " " +:+ new_sha);;
             lines ← read_text;
             perform (PushScreen (join LF lines)
                        ("Diff " +:+ repo +:+ ": " +:+ slice_to 8 old_sha
                         +:+ " → " +:+ slice_to 8 new_sha));;
             perform (UpdateStatus
                        ("Displayed commit information for " +:+ repo))
         end
     end)
    (λ e,
       perform (Notify ("Error fetching commit information: " +:+ str e)
                  "error");;
       perform (UpdateStatus ("Error showing changes for " +:+ repo))).

(** The lines of the full report for one commit and one file. *)
Definition commit_line (c : commit_doc) : result string :=
  bind (first_line (default "" (cd_message c))) (λ commit_message,
  Ok (slice_to 8 (default "" (cd_sha c)) +:+ " " +:+ default "" (cd_date c)
      +:+ " " +:+ default "" (cd_author c) +:+ ": " +:+ commit_message)).

Definition file_line (f : file_doc) : string :=
  default "" (fd_status f) +:+ ": " +:+ default "" (fd_filename f)
  +:+ " (+" +:+ pretty (default 0 (fd_additions f))
  +:+ " -" +:+ pretty (default 0 (fd_deletions f)) +:+ ")".

Definition patch_lines (f : file_doc) : list string :=
  if truthy (fd_patch f) then
    [ LF +:+ "--- " +:+ default "" (fd_filename f);
      "+++ " +:+ default "" (fd_filename f);
      default "" (fd_patch f) ]
  else [].

Fixpoint append_commits (l : list commit_doc) : Summ unit :=
  match l with
  | [] => mret tt
  | c :: rest => line ← lift (commit_line c); append_line line;; append_commits rest
  end.

Fixpoint append_all (lines : list string) : Summ unit :=
  match lines with
  | [] => mret tt
  | line :: rest => append_line line;; append_all rest
  end.

Definition _show_repo_diff (repo old_sha new_sha : string) : Summ unit :=
  try_except
    (perform (UpdateStatus ("Fetching diff for " +:+ repo
                            +:+ " from GitHub API..."));;
     if negb (nonempty old_sha) || (String.length old_sha <? 7)
        || negb (nonempty new_sha) || (String.length new_sha <? 7)
     then perform (Notify "Invalid commit SHAs for comparison" "error")
     else
       let compare_url :=
         "https://api.github.com/repos/" +:+ repo +:+ "/compare/"
         +:+ old_sha +:+ "..." +:+ new_sha in
       perform (Get compare_url);;
       resp ← lift (http_compare compare_url);
       if status resp =? 404 then
         perform (UpdateStatus
           "Cannot directly compare these commits. Trying alternative approach...");;
         _show_repo_diff_alternative repo old_sha new_sha
       else if negb (status resp =? 200) then
         perform (Notify ("Failed to fetch diff: " +:+ pretty (status resp)
                          +:+ " - " +:+ text resp) "error")
       else
         compare_data ← lift (body resp);
         clear_text;;
         append_line ("Comparing " +:+ slice_to 8 old_sha +:+ " to "
                 +:+ slice_to 8 new_sha +:+ " - "
                 +:+ default "" (cmp_status compare_data));;
         append_line ("Total changes: "
                 +:+ pretty (default 0 (cmp_total_commits compare_data))
                 +:+ " commit(s)");;
         append_line ("Files changed: "
                 +:+ pretty (length (default [] (cmp_files compare_data))));;
         append_line "";;
         match cmp_commits compare_data with
         | Some commits =>
             append_line "COMMITS:";; append_commits commits;; append_line ""
         | None => mret tt
         end;;
         match cmp_files compare_data with
         | Some files =>
             append_line "CHANGED FILES:";;
             append_all (file_line <$> files);;
             append_line (LF +:+ "DIFF DETAILS:");;
             append_all (concat (patch_lines <$> files))
         | None => mret tt
         end;;
         lines ← read_text;
         perform (PushScreen (join LF lines)
                    ("Diff " +:+ repo +:+ ": " +:+ slice_to 8 old_sha
                     +:+ " → " +:+ slice_to 8 new_sha));;
         perform (UpdateStatus ("Displayed diff for " +:+ repo)))
    (λ e,
       perform (Notify ("Error fetching diff: " +:+ str e) "error");;
       perform (UpdateStatus ("Error fetching diff for " +:+ repo))).

End Summarizer.

(** ** Vocabulary of the properties *)

(** Number of entries of the store keyed by [repo_name]. *)
Definition occurrences (repo_name : string) (config : list entry) : nat :=
  length (filter (λ e, coordinate e = repo_name) config).

(** [p] is a prefix of [s]. *)
Definition is_prefix (p s : string) : Prop := exists t, s = p +:+ t.

(** An item is genuinely drifted when both identifiers are present and do
    not name the same commit. *)
Definition drifted (fetch : string -> result commit_info) (e : entry) : bool :=
  match extract_sha (default "" (_comment e.2)), fetch (coordinate e) with
  | Ok old, Ok info =>
      truthy old && truthy (sha info)
      && negb (is_same_commit (default "" old) (default "" (sha info)))
  | _, _ => false
  end.

(** The effects contain a screen, respectively an error notification. *)
Definition displayed (evs : list effect) : bool :=
  existsb (λ ev, match ev with PushScreen _ _ => true | _ => false end) evs.

Definition reported_error (evs : list effect) : bool :=
  existsb (λ ev, match ev with
                 | Notify _ severity => String.eqb severity "error"
                 | _ => false
                 end) evs.

(** The address of the comparison of two commits. *)
Definition compare_url (repo old_sha new_sha : string) : string :=
  "https://api.github.com/repos/" +:+ repo +:+ "/compare/"
  +:+ old_sha +:+ "..." +:+ new_sha.

(** The address of one commit. *)
Definition commit_url (repo sha_ : string) : string :=
  "https://api.github.com/repos/" +:+ repo +:+ "/commits/" +:+ sha_.

(** A commit is served: the request is answered 200 with a body that
    decodes to [doc]. *)
Definition served_commit
  (http_commit : string -> result (response (result commit_doc)))
  (url : string) (doc : commit_doc) : Prop :=
  exists resp, http_commit url = Ok resp /\ status resp = 200
               /\ body resp = Ok doc.

(** The lines of the reduced report for two commits that were served,
    with the first lines [old_msg] and [new_msg] of their messages. *)
Definition reduced_report (repo old_sha new_sha : string)
  (old_doc new_doc : commit_doc) (old_msg new_msg : string) : list string :=
  [ "Changes between " +:+ slice_to 8 old_sha +:+ " and " +:+ slice_to 8 new_sha;
    "Note: Direct comparison not available. Showing summary information."
    +:+ LF;
    "OLD COMMIT: " +:+ slice_to 8 old_sha +:+ " ("
    +:+ default "unknown date" (cd_date old_doc) +:+ ")";
    "Message: " +:+ old_msg;
    "";
    "NEW COMMIT: " +:+ slice_to 8 new_sha +:+ " ("
    +:+ default "unknown date" (cd_date new_doc) +:+ ")";
    "Message: " +:+ new_msg;
    "";
    "To see detailed changes, visit:";
    "https://github.com/" +:+ repo +:+ "/compare/" +:+ old_sha +:+ "..."
    +:+ new_sha;
    "";
    "Or clone the mods and use:";
    "git diff " +:+ old_sha +:+ " " +:+ new_sha ].

(** Number of genuinely drifted items of a store. *)
Definition count_drifted (fetch : string -> result commit_info)
  (config : list entry) : nat :=
  length (filter (λ e, drifted fetch e = true) config).

(** Number of items whose commit info could not be fetched. *)
Definition count_failed (fetch : string -> result commit_info)
  (config : list entry) : nat :=
  length (filter (λ e, is_ok (fetch (coordinate e)) = false) config).

(** An item has a missing identifier when the fetch returned and the
    stored or the fetched identifier is absent or empty. *)
Definition sha_missing (fetch : string -> result commit_info) (e : entry) : bool :=
  match extract_sha (default "" (_comment e.2)), fetch (coordinate e) with
  | Ok old, Ok info => negb (truthy old && truthy (sha info))
  | _, _ => false
  end.

(** ** Reading a coordinate typed by the user *)

(** What follows [https://github.com/] or [http://github.com/] at the
    start of [text]: the prefix [https?://github\.com/] of the pattern. *)
Definition after_github (text : string) : option string :=
  if startswith text "https://github.com/" then Some (skip 19 text)
  else if startswith text "http://github.com/" then Some (skip 18 text)
  else None.

Definition not_slash (c : ascii) : bool := negb (Ascii.eqb c "/").

(** The group [([^/]+/[^/]+)] matched at the start of [rest]. *)
Definition owner_and_repo (rest : string) : option string :=
  let '(owner, rest1) := span not_slash rest in
  match rest1 with
  | String _ rest2 =>
      let '(repo, _) := span not_slash rest2 in
      if nonempty owner && nonempty repo
      then Some (owner +:+ "/" +:+ repo) else None
  | EmptyString => None
  end.

(** The class [[\w.-]]. *)
Definition is_coordinate_char (c : ascii) : bool :=
  is_word c || Ascii.eqb c "." || Ascii.eqb c "-".

(** [re.match(r"^[\w.-]+/[\w.-]+$", text)]; [$] also matches in front of
    a line feed that ends the text. *)
Definition is_coordinate (text : string) : bool :=
  let '(owner, rest1) := span is_coordinate_char text in
  match rest1 with
  | String c rest2 =>
      let '(repo, rest3) := span is_coordinate_char rest2 in
      Ascii.eqb c "/" && nonempty owner && nonempty repo
      && (String.eqb rest3 "" || String.eqb rest3 LF)
  | EmptyString => false
  end.

Definition parse_repo_input (text : string) : option string :=
  if startswith text "http" then after_github text ≫= owner_and_repo
  else if is_coordinate text then Some text
  else None.

(** ** Fetching the state of a repository *)

(** [KeyError(key)], raised by a subscript on a missing key. *)
Definition KeyError (key : string) : exn := Exception ("'" +:+ key +:+ "'").

(** The documents of the API, reduced to what is read from them; [None]
    is a missing key. *)
Record repo_doc : Type := { default_branch : option string }.

Record author_doc : Type := { au_date : option string }.

Record commit_inner : Type := {
  ci_author : option author_doc;
  ci_message : option string
}.

Record commit_node : Type := {
  cn_sha : option string;
  cn_commit : option commit_inner
}.

Record branch_doc : Type := { bd_commit : option commit_node }.

Record asset_doc : Type := { ad_name : string; ad_url : string }.

Record release_doc : Type := { rd_assets : option (list asset_doc) }.

(** What the network answers.  The repository and the branch are read
    without a look at the status: [Raise] is a request or a decoding that
    fails.  The release has its status tested before it is decoded. *)
Record upstream : Type := {
  up_repo : string -> result repo_doc;
  up_branch : string -> result branch_doc;
  up_release : string -> result (response (result release_doc));
  up_asset : string -> result (response stream)
}.

(** [d[key]] on a document field. *)
Definition subscript {A} (key : string) (field : option A) : result A :=
  match field with
  | Some v => Ok v
  | None => Raise (KeyError key)
  end.

(** The loop over the assets of a release: a download that fails leaves
    [None] under the name of the asset. *)
Fixpoint hash_assets (up : upstream) (l : list asset_doc)
  (hashes : gmap string (option string)) : gmap string (option string) :=
  match l with
  | [] => hashes
  | asset :: rest =>
      let h :=
        match fetch_asset_hash (up_asset up (ad_url asset)) (ad_url asset) with
        | Ok digest => Some digest
        | Raise _ => None
        end in
      hash_assets up rest (<[ad_name asset := h]> hashes)
  end.

Definition fetch_latest_release_assets (up : upstream) (repo_name : string)
  : result (gmap string (option string) * string) :=
  let repo_url := "https://api.github.com/repos/" +:+ repo_name in
  bind (up_repo up repo_url) (λ data,
  let default_branch := default "main" (default_branch data) in
  let branch_url := repo_url +:+ "/branches/" +:+ default_branch in
  bind (up_branch up branch_url) (λ br,
  bind (subscript "commit" (bd_commit br)) (λ node,
  bind (subscript "sha" (cn_sha node)) (λ sha,
  bind (subscript "commit" (cn_commit node)) (λ inner,
  bind (subscript "author" (ci_author inner)) (λ author,
  bind (subscript "date" (au_date author)) (λ date,
  let comment := format_comment default_branch sha date in
  let rel_url := "https://api.github.com/repos/" +:+ repo_name
                 +:+ "/releases/latest" in
  bind (up_release up rel_url) (λ resp3,
  if negb (status resp3 =? 200) then Ok (∅, comment)
  else
    bind (body resp3) (λ rel,
    Ok (hash_assets up (default [] (rd_assets rel)) ∅, comment)))))))))).

(** [_fetch_latest_commit_info]: every key is read with a default, so
    that a document without a commit gives empty strings. *)
Definition _fetch_latest_commit_info (up : upstream) (repo_name : string)
  : result commit_info :=
  let repo_url := "https://api.github.com/repos/" +:+ repo_name in
  bind (up_repo up repo_url) (λ data,
  let default_branch := default "main" (default_branch data) in
  let branch_url := repo_url +:+ "/branches/" +:+ default_branch in
  bind (up_branch up branch_url) (λ br,
  let inner : option commit_inner := bd_commit br ≫= cn_commit in
  let author : option author_doc := inner ≫= ci_author in
  Ok {| sha := Some (default "" (bd_commit br ≫= cn_sha));
        date := default "" (author ≫= au_date);
        message := default "" (inner ≫= ci_message) |})).

(** The handler of "submit_add" on the text typed by the user. *)
Definition on_submit_add (up : upstream) (config : list entry) (text : string)
  : result (list entry) :=
  submit_add config (parse_repo_input text) (fetch_latest_release_assets up).

(** ** Removing and updating *)

(** [action_remove_repo]: [index] is [self.list_view.index], [None] when
    nothing is highlighted. *)
Definition action_remove_repo (config : list entry) (index : option nat)
  : list entry :=
  let idx := default 0 index in
  if idx <? length config then delete idx config else config.

(** The second loop of [_update_all_worker]: the store, [update_count]
    and [error_count] after it. *)
Fixpoint _update_all_worker
  (fetched : string -> result (gmap string (option string) * string))
  (config : list entry) : list entry * nat * nat :=
  match config with
  | [] => ([], 0, 0)
  | entry :: rest =>
      let repo := coordinate entry in
      let '(rest', update_count, error_count) := _update_all_worker fetched rest in
      match fetched repo with
      | Ok (hashes, comment) =>
          ((repo, {| _comment := Some comment; assets := hashes |}) :: rest',
           S update_count, error_count)
      | Raise _ => (entry :: rest', update_count, S error_count)
      end
  end.

(** ** Looking at the changes of one item *)

Inductive view_outcome : Type :=
| ShowDiff (old new : string)
| AlreadyUpToDate
| NoValidSha
| ViewError (e : exn).

(** [action_view_diff] for an item that the last pass did not record:
    the identifier is read with the first expression only, and any
    difference of the two identifiers counts as a change. *)
Definition view_diff_unchecked (old_comment : string)
  (fetched : result commit_info) : view_outcome :=
  let old :=
    if contains ":" old_comment then
      match primary_parse old_comment with
      | Ok v => v
      | Raise _ => None
      end
    else None in
  if truthy old then
    match fetched with
    | Ok new_commit_info =>
        let new := sha new_commit_info in
        if truthy new && negb (bool_decide (new = old))
        then ShowDiff (default "" old) (default "" new)
        else AlreadyUpToDate
    | Raise e => ViewError e
    end
  else NoValidSha.

(** [action_view_diff]: the identifiers of the last pass when it recorded
    the item, a fresh look otherwise, which records the item when it finds
    a change.  The result is [self.outdated_repos] afterwards and what
    was done, [None] when no entry is selected. *)
Definition action_view_diff (config : list entry)
  (outdated : gmap string DriftRecord) (index : option nat)
  (fetch : string -> result commit_info)
  : gmap string DriftRecord * option view_outcome :=
  let idx := default 0 index in
  match config !! idx with
  | Some entry =>
      let repo := coordinate entry in
      match outdated !! repo with
      | Some r => (outdated, Some (ShowDiff (old_sha r) (new_sha r)))
      | None =>
          let fetched := fetch repo in
          match view_diff_unchecked (default "" (_comment entry.2)) fetched,
                fetched with
          | ShowDiff old new, Ok new_commit_info =>
              (<[repo := {| old_sha := old; new_sha := new;
                            commit_date := date new_commit_info;
                            commit_message := message new_commit_info;
                            index := idx |}]> outdated,
               Some (ShowDiff old new))
          | outcome, _ => (outdated, Some outcome)
          end
      end
  | None => (outdated, None)
  end.

(** ** Rendering *)

Inductive colour : Type := Green | Red | Cyan | Yellow.

Definition colour_name (c : colour) : string :=
  match c with
  | Green => "green" | Red => "red" | Cyan => "cyan" | Yellow => "yellow"
  end.

(** [DiffScreen._process_diff_text]: the escaping of the brackets of a
    line, the colour chosen for the escaped line and the whole text. *)
Definition escape_markup (line : string) : string :=
  replace_char "]" "\]" (replace_char "[" "\[" line).

Definition line_colour (line : string) : option colour :=
  if startswith line "+" then Some Green
  else if startswith line "-" then Some Red
  else if startswith line "@@" then Some Cyan
  else if startswith line "diff --git" || startswith line "index "
          || startswith line "--- " || startswith line "+++ "
  then Some Yellow
  else None.

Definition process_line (line : string) : string :=
  let line := escape_markup line in
  match line_colour line with
  | Some c => "[" +:+ colour_name c +:+ "]" +:+ line
              +:+ "[/" +:+ colour_name c +:+ "]"
  | None => line
  end.

Definition _process_diff_text (text : string) : string :=
  join LF (process_line <$> splitlines text).

(** [RepoItem] and what its [compose] yields. *)
Record RepoItem : Type := {
  repo_name : string;
  is_updated : bool;
  is_outdated : bool;
  is_loading : bool
}.

Inductive widget : Type :=
| Static (content : string)
| LoadingIndicator.

Definition RepoItem_compose (item : RepoItem) : list widget :=
  if is_loading item then [Static (repo_name item); LoadingIndicator]
  else if is_outdated item then
    [Static (ljust 30 (repo_name item) +:+ " " +:+ "[yellow](!)[/yellow]")]
  else if is_updated item then
    [Static (ljust 30 (repo_name item) +:+ " " +:+ "[green](✓)[/green]")]
  else [Static (ljust 30 (repo_name item))].

(** [refresh_list]: one item per entry, marked when its coordinate is in
    [self.outdated_repos]. *)
Definition refresh_list (config : list entry)
  (outdated : gmap string DriftRecord) : list RepoItem :=
  (λ e, {| repo_name := coordinate e;
           is_updated := false;
           is_outdated := bool_decide (is_Some (outdated !! coordinate e));
           is_loading := false |})
  <$> config.

(** The summary at the end of [_check_updates_worker], after the list has
    been refreshed: the status line and the notification (the lines
    printed to the console are left out). *)
Definition pass_summary (st : pass_state) : list effect :=
  if 0 <? outdated_count st then
    [ UpdateStatus ("Found " +:+ pretty (outdated_count st) +:+ " outdated mods");
      Notify ("Found " +:+ pretty (outdated_count st)
              +:+ " mods with updates available") "information" ]
  else
    [ UpdateStatus ("All " +:+ pretty (update_count st)
                    +:+ " mods are up-to-date");
      Notify "All mods are up-to-date" "information" ].

(** ** Vocabulary of the further properties *)

(** The digest kept for an asset: [None] when its download fails. *)
Definition asset_digest (up : upstream) (asset : asset_doc) : option string :=
  match fetch_asset_hash (up_asset up (ad_url asset)) (ad_url asset) with
  | Ok digest => Some digest
  | Raise _ => None
  end.

Definition not_colon (c : ascii) : bool := negb (Ascii.eqb c ":").
Definition not_space (c : ascii) : bool := negb (isspace c).

(** The addresses asked by the fetches of the state of a repository. *)
Definition repo_url (repo_name : string) : string :=
  "https://api.github.com/repos/" +:+ repo_name.

Definition branch_url (repo_name default_branch : string) : string :=
  repo_url repo_name +:+ "/branches/" +:+ default_branch.

Definition release_url (repo_name : string) : string :=
  "https://api.github.com/repos/" +:+ repo_name +:+ "/releases/latest".

End ConfigManager.

(* ===================================================================== *)
(** * generate2.py: batch verification of release assets *)
(* ===================================================================== *)

Module Generate2.
Import Py Aiohttp.
Import ConfigManager(TrackedItem, _comment, assets, entry, coordinate).

(** ** Runs and their events *)

(** What a run does to the outside, in order.  The tasks that
    [asyncio.gather] interleaves appear one after the other. *)
Inductive event : Type :=
| Acquire
| Release
| Request (url : string)
| Print (line : string).

#[global] Instance event_eq_dec : EqDecision event.
Proof. solve_decision. Defined.

(** A computation: its result, or the exception it raised, and the
    events it emitted until then. *)
Definition M (A : Type) : Type := result A * list event.

#[global] Instance M_ret : MRet M := λ A a, (Ok a, []).

#[global] Instance M_bind : MBind M := λ A B k m,
  match m with
  | (Ok a, t) => let '(r, t') := k a in (r, t ++ t')
  | (Raise e, t) => (Raise e, t)
  end.

Definition raise {A} (e : exn) : M A := (Raise e, []).
Definition lift {A} (r : result A) : M A := (r, []).
Definition emit (ev : event) : M unit := (Ok tt, [ev]).

(** [try: m  except Exception as e: h e] *)
Definition try_except {A} (m : M A) (h : exn -> M A) : M A :=
  match m with
  | (Ok a, t) => (Ok a, t)
  | (Raise e, t) => let '(r, t') := h e in (r, t ++ t')
  end.

(** [try: m  finally: f]: [f] runs on every way out of [m]. *)
Definition try_finally {A} (m : M A) (f : M unit) : M A :=
  let '(r, t) := m in
  let '(rf, tf) := f in
  (match rf with Ok _ => r | Raise e => Raise e end, t ++ tf).

(** [await asyncio.gather(...)]: every task runs; the first exception,
    if any, is the one that comes out. *)
Fixpoint gather {A} (tasks : list (M A)) : M (list A) :=
  match tasks with
  | [] => (Ok [], [])
  | (r, t) :: rest =>
      let '(rs, ts) := gather rest in
      (match r, rs with
       | Ok a, Ok l => Ok (a :: l)
       | Raise e, _ => Raise e
       | Ok _, Raise e => Raise e
       end, t ++ ts)
  end.

Definition gather2 {A B} (m1 : M A) (m2 : M B) : M (A * B) :=
  let '(r1, t1) := m1 in
  let '(r2, t2) := m2 in
  (match r1, r2 with
   | Ok a, Ok b => Ok (a, b)
   | Raise e, _ => Raise e
   | Ok _, Raise e => Raise e
   end, t1 ++ t2).

(** Value of the semaphore after a run that started with [v] units. *)
Fixpoint sema_after (v : Z) (t : list event) : Z :=
  match t with
  | [] => v
  | Acquire :: t' => sema_after (v - 1)%Z t'
  | Release :: t' => sema_after (v + 1)%Z t'
  | _ :: t' => sema_after v t'
  end.

(** ** The upstream *)

Record repo_json : Type := {
  rj_name : option string;
  rj_full_name : option string;
  rj_html_url : option string;
  rj_description : option string;
  stargazers_count : option nat
}.

Record asset : Type := {
  name : string;
  browser_download_url : string;
  download_count : option nat
}.

Record release : Type := { rel_assets : option (list asset) }.

Record user : Type := { login : string; type_ : option string }.

(** What the network answers to a request for each kind of resource;
    [Raise] is a request that fails before any status arrives, and the
    [result] inside, the decoding of the JSON body. *)
Record network : Type := {
  http_repo : string -> result (response (result repo_json));
  http_release : string -> result (response (result release));
  http_releases : string -> result (response (result (list release)));
  http_contributors : string -> result (response (result (list user)));
  http_page : string -> result (response string);
  http_asset : string -> result (response stream)
}.

Definition GITHUB_API : string := "https://api.github.com".

(** ** Utilities *)

(** The status test and the decoding of [fetch_json]. *)
Definition json_of {A} (url : string)
  (answer : result (response (result A))) : result A :=
  bind answer (λ resp,
    if status resp =? 200 then body resp
    else Raise (Exception ("HTTP " +:+ pretty (status resp) +:+ " for "
                           +:+ url +:+ ": " +:+ text resp))).

Definition fetch_json {A} (http : string -> result (response (result A)))
  (url : string) : M A :=
  emit (Request url);; lift (json_of url (http url)).

(** The status test and the hashing loop of [fetch_stream_hash]. *)
Definition stream_hash_of (url : string)
  (answer : result (response stream)) : result string :=
  bind answer (λ resp,
    if status resp =? 200 then
      let digest := hash_stream (iter_chunked 1024 (delivered (body resp))) in
      match broken (body resp) with
      | Some e => Raise e
      | None => Ok digest
      end
    else Raise (Exception ("Download failed " +:+ pretty (status resp) +:+ " "
                           +:+ url +:+ ": " +:+ text resp))).

Definition fetch_stream_hash (net : network) (url : string) : M string :=
  emit (Request url);; lift (stream_hash_of url (http_asset net url)).

Definition html_of (answer : result (response string)) : result (option string) :=
  bind answer (λ resp,
    if status resp =? 200 then Ok (Some (body resp)) else Ok None).

Definition fetch_html (net : network) (url : string) : M (option string) :=
  emit (Request url);; lift (html_of (http_page net url)).

(** ** Processing one repository *)

(** One element of ["downloads"]. *)
Record AssetVerification : Type := {
  av_name : string;
  av_url : string;
  currentHash : option string;
  validHash : option string;
  hashMatch : option bool;
  error : option string
}.

(** The mapping returned for a processed repository. *)
Record repo_result : Type := {
  res_name : string;
  full_name : string;
  url : option string;
  description : string;
  downloads : list AssetVerification;
  total_downloads : nat;
  stars : nat;
  contributors : list string;
  icon : option string;
  mismatched_hashes : list string
}.

(** [repo_data_spec.get("assets", {}).get(name)]: the digest on record,
    [None] when there is none or it is [null]. *)
Definition expected_hash_of (repo_data_spec : TrackedItem) (asset_name : string)
  : option string :=
  assets repo_data_spec !! asset_name ≫= id.

Section Repo.

Variable net : network.

(** [format_repo_name] rewrites the display name with regular
    expressions; [get_social_preview_url] queries the page with an HTML
    parser.  Both are total on text and decide nothing below. *)
Variable format_repo_name : string -> string.
Variable get_social_preview_url : string -> option string.

Definition get_repo_data (repo_full_name : string) : M repo_json :=
  fetch_json (http_repo net) (GITHUB_API +:+ "/repos/" +:+ repo_full_name).

Definition get_releases (repo_full_name : string) : M (list release) :=
  let latest_url :=
    GITHUB_API +:+ "/repos/" +:+ repo_full_name +:+ "/releases/latest" in
  try_except
    (latest_release ← fetch_json (http_release net) latest_url;
     mret [latest_release])
    (λ e,
       emit (Print ("[WARNING] No 'latest' release found for "
                    +:+ repo_full_name
                    +:+ ", falling back to all releases: " +:+ str e));;
       fetch_json (http_releases net)
         (GITHUB_API +:+ "/repos/" +:+ repo_full_name +:+ "/releases")).

Definition get_contributors (repo_full_name : string) : M (list string) :=
  users ← fetch_json (http_contributors net)
             (GITHUB_API +:+ "/repos/" +:+ repo_full_name
              +:+ "/contributors?per_page=30");
  mret (login <$> filter (λ u, type_ u = Some "User") users).

Definition get_social_preview (repo_full_name : string) : M (option string) :=
  html ← fetch_html net ("https://github.com/" +:+ repo_full_name);
  mret (if truthy html then get_social_preview_url (default "" html) else None).

Definition download_asset_and_hash (a : asset) (expected_hash : option string)
  : M AssetVerification :=
  try_except
    (h ← fetch_stream_hash net (browser_download_url a);
     mret {| av_name := name a;
             av_url := browser_download_url a;
             currentHash := Some h;
             validHash := expected_hash;
             hashMatch :=
               if truthy expected_hash
               then Some (bool_decide (expected_hash = Some h))
               else None;
             error := None |})
    (λ e,
       mret {| av_name := name a;
               av_url := browser_download_url a;
               currentHash := None;
               validHash := expected_hash;
               hashMatch := Some false;
               error := Some (str e) |}).

(** The downloads of the latest release, one result per asset, in the
    order of the assets. *)
Definition download_assets (repo_data_spec : TrackedItem) (l : list asset)
  : M (list AssetVerification) :=
  gather ((λ a, download_asset_and_hash a
                  (expected_hash_of repo_data_spec (name a))) <$> l).

Definition sum_download_count (l : list asset) : nat :=
  foldr (λ a n, default 0 (download_count a) + n) 0 l.

(** The loop "Validate asset hashes": the results with their recorded
    digest, the names that mismatch and the error flag. *)
Fixpoint validate (repo_name : string) (repo_data_spec : TrackedItem)
  (l : list AssetVerification)
  : M (list AssetVerification * list string * bool) :=
  match l with
  | [] => mret ([], [], false)
  | download :: rest =>
      let expected_hash := expected_hash_of repo_data_spec (av_name download) in
      if truthy expected_hash then
        let download' :=
          {| av_name := av_name download; av_url := av_url download;
             currentHash := currentHash download;
             validHash := expected_hash;
             hashMatch := hashMatch download; error := error download |} in
        if bool_decide (currentHash download = expected_hash) then
          '(ds, names, err) ← validate repo_name repo_data_spec rest;
          mret (download' :: ds, names, err)
        else
          emit (Print (LF +:+ "[❌ HASH MISMATCH] " +:+ repo_name +:+ "/"
                       +:+ av_name download));;
          emit (Print ("    Expected: " +:+ default "" expected_hash));;
          emit (Print ("    Actual:   "
                       +:+ default "None" (currentHash download)));;
          '(ds, names, err) ← validate repo_name repo_data_spec rest;
          mret (download' :: ds, av_name download :: names, true)
      else
        '(ds, names, err) ← validate repo_name repo_data_spec rest;
        mret (download :: ds, names, err)
  end.

(** The block [if releases: ...]: the downloads of the latest release
    and the download counters of all of them. *)
Definition download_latest (repo_data_spec : TrackedItem)
  (releases : list release) : M (list AssetVerification * nat) :=
  match releases with
  | [] => mret ([], 0)
  | latest :: others =>
      let assets := default [] (rel_assets latest) in
      asset_hashes ← download_assets repo_data_spec assets;
      mret (asset_hashes,
            sum_download_count assets
            + foldr (λ rel n,
                       sum_download_count (default [] (rel_assets rel)) + n)
                0 others)
  end.

(** [repo_name.split("/")[-1]] *)
Definition last_segment (repo_name : string) : string :=
  default "" (last (split "/" None repo_name)).

(** The body of the [try] of [process_repo]. *)
Definition process_repo_body (repo_name : string) (repo_data_spec : TrackedItem)
  (sema : bool) : M (option repo_result * bool) :=
  (if sema then emit Acquire else mret tt);;
  repo_json ← get_repo_data repo_name;
  releases ← get_releases repo_name;
  '(downloads, total_downloads) ← download_latest repo_data_spec releases;
  '(contributors, icon) ←
    gather2 (get_contributors repo_name) (get_social_preview repo_name);
  '(downloads, mismatched_hashes, error) ←
    validate repo_name repo_data_spec downloads;
  let raw_name := default (last_segment repo_name) (rj_name repo_json) in
  mret (Some {| res_name := format_repo_name raw_name;
                full_name := default repo_name (rj_full_name repo_json);
                url := rj_html_url repo_json;
                description :=
                  if truthy (rj_description repo_json)
                  then default "" (rj_description repo_json)
                  else "No description available.";
                downloads := downloads;
                total_downloads := total_downloads;
                stars := default 0 (stargazers_count repo_json);
                contributors := contributors;
                icon := icon;
                mismatched_hashes := mismatched_hashes |},
        error).

(** [process_repo(session, mod, sema)]: the pair [(result, error)]. *)
Definition process_repo (mod_ : entry) (sema : bool)
  : M (option repo_result * bool) :=
  let repo_name := coordinate mod_ in
  let repo_data_spec := mod_.2 in
  try_finally
    (try_except
       (process_repo_body repo_name repo_data_spec sema)
       (λ e,
          emit (Print (LF +:+ "[⚠️  ERROR] Failed to process " +:+ repo_name +:+ ": "
                       +:+ str e));;
          mret (None, true)))
    (if sema then emit Release else mret tt).

(** ** The entry point *)

(** What the loop of [main] accumulates. *)
Record summary : Type := {
  jsons : list repo_result;
  error_found : bool;
  processed_count : nat;
  mismatch_count : nat
}.

Definition summary_start : summary :=
  {| jsons := []; error_found := false;
     processed_count := 0; mismatch_count := 0 |}.

(** One turn of the loop over the completed tasks. *)
Definition collect (acc : summary) (done : option repo_result * bool) : summary :=
  let '(repo_json, error) := done in
  let acc' :=
    match repo_json with
    | Some r =>
        {| jsons := jsons acc ++ [r];
           error_found := error_found acc;
           processed_count := S (processed_count acc);
           mismatch_count :=
             mismatch_count acc + length (mismatched_hashes r) |}
    | None => acc
    end in
  {| jsons := jsons acc'; error_found := error_found acc' || error;
     processed_count := processed_count acc';
     mismatch_count := mismatch_count acc' |}.

(** The loop of [main] over the tasks, here in the order of [config]. *)
Fixpoint run_tasks (acc : summary) (config : list entry) : M summary :=
  match config with
  | [] => mret acc
  | mod_ :: rest =>
      done ← process_repo mod_ true;
      run_tasks (collect acc done) rest
  end.

(** [main]: the summary and the exit status of the process. *)
Definition main (config : list entry) : M (summary * nat) :=
  acc ← run_tasks summary_start config;
  if error_found acc then
    emit (Print ("❗ One or more issues were encountered. "
                 +:+ "Exiting with code 1." +:+ LF));;
    mret (acc, 1)
  else
    emit (Print ("✅ All mods processed successfully!" +:+ LF));;
    mret (acc, 0).

End Repo.

(** ** Vocabulary of the properties *)

(** No event of the trace touches the semaphore. *)
Definition quiet (t : list event) : Prop :=
  Forall (λ ev, ev ≠ Acquire /\ ev ≠ Release) t.

(** What each fetch of [process_repo] comes to, without the events. *)
Definition repo_data_of (net : network) (repo_name : string) : result repo_json :=
  let url := GITHUB_API +:+ "/repos/" +:+ repo_name in
  json_of url (http_repo net url).

Definition releases_of (net : network) (repo_name : string)
  : result (list release) :=
  let latest_url := GITHUB_API +:+ "/repos/" +:+ repo_name +:+ "/releases/latest" in
  let all_url := GITHUB_API +:+ "/repos/" +:+ repo_name +:+ "/releases" in
  match json_of latest_url (http_release net latest_url) with
  | Ok latest_release => Ok [latest_release]
  | Raise _ => json_of all_url (http_releases net all_url)
  end.

Definition contributors_of (net : network) (repo_name : string)
  : result (list user) :=
  let url := GITHUB_API +:+ "/repos/" +:+ repo_name
             +:+ "/contributors?per_page=30" in
  json_of url (http_contributors net url).

Definition page_of (net : network) (repo_name : string)
  : result (option string) :=
  html_of (http_page net ("https://github.com/" +:+ repo_name)).

(** An item fails to process when one of its four fetches raises. *)
Definition item_failed (net : network) (repo_name : string) : bool :=
  negb (is_ok (repo_data_of net repo_name)
        && is_ok (releases_of net repo_name)
        && is_ok (contributors_of net repo_name)
        && is_ok (page_of net repo_name)).

(** The digest observed for an asset: that of its stream, [None] when
    the download fails. *)
Definition observed_digest (net : network) (a : asset) : option string :=
  match stream_hash_of (browser_download_url a)
          (http_asset net (browser_download_url a)) with
  | Ok h => Some h
  | Raise _ => None
  end.

(** The result of verifying one asset against the digest on record. *)
Definition verification (net : network) (a : asset)
  (expected_hash : option string) : AssetVerification :=
  match stream_hash_of (browser_download_url a)
          (http_asset net (browser_download_url a)) with
  | Ok h =>
      {| av_name := name a; av_url := browser_download_url a;
         currentHash := Some h; validHash := expected_hash;
         hashMatch := if truthy expected_hash
                      then Some (bool_decide (expected_hash = Some h))
                      else None;
         error := None |}
  | Raise e =>
      {| av_name := name a; av_url := browser_download_url a;
         currentHash := None; validHash := expected_hash;
         hashMatch := Some false; error := Some (str e) |}
  end.

(** An asset mismatches when a digest is on record for it and the
    observed one is another, or none. *)
Definition asset_mismatch (net : network) (repo_data_spec : TrackedItem)
  (a : asset) : bool :=
  let expected_hash := expected_hash_of repo_data_spec (name a) in
  truthy expected_hash
  && negb (bool_decide (observed_digest net a = expected_hash)).

(** A verification mismatches the digest on record for its name. *)
Definition mismatches (repo_data_spec : TrackedItem) (d : AssetVerification)
  : bool :=
  let expected_hash := expected_hash_of repo_data_spec (av_name d) in
  truthy expected_hash
  && negb (bool_decide (currentHash d = expected_hash)).

(** The assets of the release that is verified. *)
Definition latest_assets (net : network) (repo_name : string) : list asset :=
  match releases_of net repo_name with
  | Ok (latest :: _) => default [] (rel_assets latest)
  | _ => []
  end.

Definition digest_mismatch (net : network) (mod_ : entry) : bool :=
  existsb (asset_mismatch net mod_.2) (latest_assets net (coordinate mod_)).

(** The exit status of a run of [main], when it ends. *)
Definition exit_code (run : M (summary * nat)) : option nat :=
  match run.1 with
  | Ok (_, code) => Some code
  | Raise _ => None
  end.

(** The items that make a run fail. *)
Definition item_error (net : network) (mod_ : entry) : bool :=
  item_failed net (coordinate mod_) || digest_mismatch net mod_.

(** ** The display name of a repository *)

(** [format_repo_name], one substitution after the other. *)
Definition format_repo_name (name : string) : string :=
  let name := remove_prefix "SM-" name in
  let name := remove_prefix "SM" name in
  let name := replace_char "_" " " (replace_char "-" " " name) in
  let name := space_capitals name in
  let name := title name in
  let name := sub_word "A P I" "API" name in
  strip (collapse_spaces name).

End Generate2.

(* ===================================================================== *)
(** * Sample stores and upstreams for the examples *)
(* ===================================================================== *)

Module Samples.
Import Py Aiohttp ConfigManager.

(** Sample upstream: [foo/bar] has moved to [bbbb222], [baz/qux] answers
    without a commit (what an error document decodes to), [same/repo] is
    where the store left it, and any other request fails. *)
Definition sample_upstream (repo : string) : result commit_info :=
  if String.eqb repo "foo/bar" then
    Ok {| sha := Some "bbbb222"; date := "2024-02-02"; message := "fix" |}
  else if String.eqb repo "baz/qux" then
    Ok {| sha := Some ""; date := ""; message := "" |}
  else if String.eqb repo "same/repo" then
    Ok {| sha := Some "cccc3334444"; date := "2024-03-03"; message := "doc" |}
  else Raise (ClientError "connection reset").

Definition tracked (repo annotation : string) : entry :=
  (repo, {| _comment := Some annotation; assets := ∅ |}).

Definition sample_store : list entry :=
  [ tracked "foo/bar" "Last commit on main: aaaa111 @ 2024-01-01";
    tracked "same/repo" "Last commit on main: cccc333 @ 2024-03-03";
    tracked "gone/repo" "Last commit on main: dddd444 @ 2024-01-01";
    tracked "baz/qux" "Last commit on main: eeee555 @ 2024-01-01" ].

(** Sample upstream for the summarizer: the comparison is not found, the
    old commit is gone (404 as well), the new one would be served. *)
Definition no_comparison (url : string)
  : result (response (result compare_doc)) :=
  Ok {| status := 404; text := "Not Found";
        body := Raise (Exception "not a comparison") |}.

(** A comparison refused for another reason than a missing commit. *)
Definition rate_limited (url : string)
  : result (response (result compare_doc)) :=
  Ok {| status := 403; text := "API rate limit exceeded";
        body := Raise (Exception "not a comparison") |}.

Definition only_new_commit (url : string)
  : result (response (result commit_doc)) :=
  if String.eqb url "https://api.github.com/repos/foo/bar/commits/bbbb222"
  then Ok {| status := 200; text := "";
             body := Ok {| cd_sha := Some "bbbb222";
                           cd_date := Some "2024-02-02";
                           cd_author := Some "dev";
                           cd_message := Some "fix" |} |}
  else Ok {| status := 404; text := "Not Found";
             body := Raise (Exception "no commit") |}.

(** The old commit is served, the request for any other commit is
    answered 500. *)
Definition only_old_commit (url : string)
  : result (response (result commit_doc)) :=
  if String.eqb url "https://api.github.com/repos/foo/bar/commits/aaaa111"
  then Ok {| status := 200; text := "";
             body := Ok {| cd_sha := Some "aaaa111";
                           cd_date := Some "2024-01-01";
                           cd_author := Some "dev";
                           cd_message := Some "init" |} |}
  else Ok {| status := 500; text := "Server Error";
             body := Raise (Exception "no commit") |}.

(** Both commits are served. *)
Definition both_commits (url : string)
  : result (response (result commit_doc)) :=
  if String.eqb url "https://api.github.com/repos/foo/bar/commits/aaaa111"
  then only_old_commit url else only_new_commit url.

Import Generate2.

(** Sample release: [mod.dll] holds the bytes of "abc", [readme.txt] is
    empty; on [flaky_network] the transfer of [mod.dll] breaks. *)
Definition sample_assets : list asset :=
  [ {| name := "mod.dll"; browser_download_url := "https://dl/mod.dll";
       download_count := Some 3 |};
    {| name := "readme.txt"; browser_download_url := "https://dl/readme.txt";
       download_count := None |} ].

Definition served (data : string) (failure : option exn)
  : result (response stream) :=
  Ok {| status := 200; text := "";
        body := {| delivered := list_byte_of_string data;
                   broken := failure |} |}.

Definition sample_network (mod_dll : result (response stream)) : network :=
  {| http_repo := λ _, Raise (ClientError "offline");
     http_release := λ _, Raise (ClientError "offline");
     http_releases := λ _, Raise (ClientError "offline");
     http_contributors := λ _, Raise (ClientError "offline");
     http_page := λ _, Raise (ClientError "offline");
     http_asset := λ u,
       if String.eqb u "https://dl/mod.dll" then mod_dll else served "" None |}.

Definition sample_spec : TrackedItem :=
  {| _comment := None;
     assets :=
       {[ "mod.dll" :=
            Some "ba7816bf8f01cfea414140de5dae2223b00361a396177a9cb410ff61f20015ad" ]} |}.

(** An upstream on which every resource of [foo/bar] is served; its
    latest release holds [sample_assets]. *)
Definition answered {A} (doc : A) : result (response (result A)) :=
  Ok {| status := 200; text := ""; body := Ok doc |}.

Definition online_network (mod_dll : result (response stream)) : network :=
  {| http_repo := λ _,
       answered {| rj_name := Some "SM-CustomGame"; rj_full_name := Some "foo/bar";
                   rj_html_url := None; rj_description := None;
                   stargazers_count := Some 5 |};
     http_release := λ _, answered {| rel_assets := Some sample_assets |};
     http_releases := λ _, answered [];
     http_contributors := λ _,
       answered [ {| login := "dev"; type_ := Some "User" |};
                  {| login := "ci"; type_ := Some "Bot" |} ];
     http_page := λ _, Ok {| status := 404; text := ""; body := "" |};
     http_asset := λ u,
       if String.eqb u "https://dl/mod.dll" then mod_dll else served "" None |}.

Definition sample_config : list entry := [("foo/bar", sample_spec)].

(** An upstream for the manager: [foo/bar] is at [bbbb222] on [main]; its
    release, when there is one, holds [mod.dll] (the bytes of "abc") and
    [notes.txt], whose transfer breaks. *)
Definition sample_release_assets : list asset_doc :=
  [ {| ad_name := "mod.dll"; ad_url := "https://dl/mod.dll" |};
    {| ad_name := "notes.txt"; ad_url := "https://dl/notes.txt" |} ].

Definition sample_branch (commit : option commit_node) : branch_doc :=
  {| bd_commit := commit |}.

Definition commit_bbbb222 : commit_node :=
  {| cn_sha := Some "bbbb222";
     cn_commit := Some {| ci_author := Some {| au_date := Some "2024-02-02" |};
                          ci_message := Some "fix" |} |}.

Definition sample_up (commit : option commit_node) (release_status : nat)
  : upstream :=
  {| up_repo := λ _, Ok {| default_branch := Some "main" |};
     up_branch := λ _, Ok (sample_branch commit);
     up_release := λ _,
       Ok {| status := release_status; text := "";
             body := Ok {| rd_assets := Some sample_release_assets |} |};
     up_asset := λ u,
       if String.eqb u "https://dl/mod.dll" then served "abc" None
       else served "no" (Some (ClientError "connection lost")) |}.

(** The network of the batch verification in front of the upstream of
    the manager: the latest release holds the assets of
    [sample_release_assets], and their transfers are those of [up]. *)
Definition mirrored_assets : list asset :=
  [ {| name := "mod.dll"; browser_download_url := "https://dl/mod.dll";
       download_count := Some 3 |};
    {| name := "notes.txt"; browser_download_url := "https://dl/notes.txt";
       download_count := None |} ].

Definition mirror_network (up : upstream) : network :=
  {| http_repo := http_repo (online_network (served "" None));
     http_release := λ _, answered {| rel_assets := Some mirrored_assets |};
     http_releases := λ _, answered [];
     http_contributors := http_contributors (online_network (served "" None));
     http_page := http_page (online_network (served "" None));
     http_asset := up_asset up |}.

End Samples.

(* ===================================================================== *)
(** * Facts about the runtime fragments *)
(* ===================================================================== *)

Section PyFacts.
Import Py.

Example split_colon_once :
  split ":" (Some 1) "Last commit on main: aaaa111 @ 2024-01-01T10:00:00Z"
  = ["Last commit on main"; " aaaa111 @ 2024-01-01T10:00:00Z"].
Proof. reflexivity. Qed.

Example split_ws_canonical :
  split_ws "Last commit on main: aaaa111 @ 2024-01-01"
  = ["Last"; "commit"; "on"; "main:"; "aaaa111"; "@"; "2024-01-01"].
Proof. reflexivity. Qed.

Example strip_both : strip "  ab c   " = "ab c".
Proof. reflexivity. Qed.

(** stdpp keeps [+:+] folded; these two equations unfold it on demand. *)
Lemma append_cons (x : ascii) (a b : string) :
  String x a +:+ b = String x (a +:+ b).
Proof. reflexivity. Qed.

Lemma append_nil (b : string) : "" +:+ b = b.
Proof. reflexivity. Qed.

Lemma append_assoc (a b c : string) : (a +:+ b) +:+ c = a +:+ (b +:+ c).
Proof.
  induction a as [|x a IH]; [reflexivity|].
  rewrite !append_cons. now rewrite IH.
Qed.

Lemma append_empty_r (a : string) : a +:+ "" = a.
Proof.
  induction a as [|x a IH]; [reflexivity|].
  rewrite append_cons. now rewrite IH.
Qed.

(** [startswith] decides the prefix relation. *)
Lemma startswith_spec (s p : string) :
  startswith s p = true <-> exists t, s = p +:+ t.
Proof.
  revert s. induction p as [|a p IH]; intros s; simpl.
  - split; [intros _; now exists s | reflexivity].
  - destruct s as [|b s].
    + split; [discriminate | intros [t Ht]; discriminate].
    + destruct (Ascii.eqb_spec a b) as [->|Hne].
      * rewrite IH. split; intros [t Ht]; exists t.
        -- rewrite append_cons. now rewrite Ht.
        -- rewrite append_cons in Ht. now inversion Ht.
      * split; [discriminate |].
        intros [t Ht]. rewrite append_cons in Ht. inversion Ht. congruence.
Qed.

Lemma startswith_refl (s : string) : startswith s s = true.
Proof. apply startswith_spec. exists "". now rewrite append_empty_r. Qed.

Lemma startswith_empty (s : string) : startswith s "" = true.
Proof. now destruct s. Qed.

Lemma skip_length_app (a b : string) : skip (String.length a) (a +:+ b) = b.
Proof. induction a as [|x a IH]; [now destruct b | exact IH]. Qed.

(** A separator whose first character does not occur in [a] is first
    found right after [a]. *)
Lemma cut_first (c : ascii) (sep a b : string) :
  all_chars (λ x, negb (Ascii.eqb x c)) a = true ->
  cut (String c sep) (a +:+ String c sep +:+ b) = Some (a, b).
Proof.
  intros Ha. induction a as [|x a IH].
  - rewrite append_nil.
    assert (Hs : startswith (String c sep +:+ b) (String c sep) = true).
    { apply startswith_spec. now exists b. }
    assert (Hc : forall s, cut (String c sep) s =
      if startswith s (String c sep)
      then Some ("", skip (String.length (String c sep)) s)
      else match s with
           | "" => None
           | String y s' =>
               match cut (String c sep) s' with
               | Some (u, v) => Some (String y u, v)
               | None => None
               end
           end).
    { intros s. now destruct s. }
    rewrite Hc, Hs. now rewrite skip_length_app.
  - cbn [all_chars] in Ha. apply andb_prop in Ha as [Hx Ha].
    rewrite append_cons. cbn [cut startswith].
    replace (Ascii.eqb c x) with false.
    2:{ symmetry. apply negb_true_iff in Hx. now rewrite Ascii.eqb_sym. }
    now rewrite (IH Ha).
Qed.

Lemma contains_char (c : ascii) (a b : string) :
  contains (String c "") (a +:+ String c b) = true.
Proof.
  induction a as [|x a IH].
  - rewrite append_nil. cbn [contains startswith].
    now rewrite Ascii.eqb_refl.
  - rewrite append_cons. cbn [contains]. rewrite IH. apply orb_true_r.
Qed.

Lemma lstrip_nonspace (c : ascii) (s : string) :
  isspace c = false -> lstrip (String c s) = String c s.
Proof. intros H. cbn [lstrip]. now rewrite H. Qed.

Lemma rstrip_nonspace (c : ascii) (s : string) :
  isspace c = false -> rstrip (String c s) = String c (rstrip s).
Proof. intros H. cbn [rstrip]. destruct (rstrip s); [now rewrite H | reflexivity]. Qed.

Lemma rstrip_app_nonspace (a s : string) :
  all_chars (λ x, negb (isspace x)) a = true ->
  rstrip (a +:+ s) = a +:+ rstrip s.
Proof.
  induction a as [|x a IH]; intros Ha; [reflexivity|].
  cbn [all_chars] in Ha. apply andb_prop in Ha as [Hx Ha].
  apply negb_true_iff in Hx. rewrite !append_cons.
  rewrite rstrip_nonspace by exact Hx. now rewrite IH.
Qed.

Lemma strip_nonspace (a : string) :
  all_chars (λ x, negb (isspace x)) a = true -> strip a = a.
Proof.
  intros Ha. unfold strip.
  assert (Hl : lstrip a = a).
  { destruct a as [|x a]; [reflexivity|]. cbn [all_chars] in Ha.
    apply andb_prop in Ha as [Hx _]. apply negb_true_iff in Hx.
    now apply lstrip_nonspace. }
  rewrite Hl. rewrite <- (append_empty_r a) at 1.
  rewrite rstrip_app_nonspace by exact Ha. cbn. apply append_empty_r.
Qed.

Lemma all_chars_weaken (p q : ascii -> bool) (s : string) :
  (forall c, p c = true -> q c = true) ->
  all_chars p s = true -> all_chars q s = true.
Proof.
  intros Hpq. induction s as [|c s IH]; [reflexivity|].
  cbn [all_chars]. intros H. apply andb_prop in H as [Hc Hs].
  now rewrite (Hpq _ Hc), (IH Hs).
Qed.

End PyFacts.

(* ===================================================================== *)
(** * The fingerprint store *)
(* ===================================================================== *)

Section StoreFacts.
Import Py ConfigManager.

Lemma filter_key_app (P : entry -> Prop) `{!∀ e, Decision (P e)}
  (l1 l2 : list entry) :
  filter P (l1 ++ l2) = filter P l1 ++ filter P l2.
Proof. apply filter_app. Qed.

Lemma filter_other_none (repo_name : string) (config : list entry) :
  filter (λ e, coordinate e = repo_name)
    (filter (λ e, coordinate e ≠ repo_name) config) = [].
Proof.
  induction config as [|e config IH]; [reflexivity|].
  rewrite (filter_cons (λ e, coordinate e ≠ repo_name)).
  destruct (decide (coordinate e ≠ repo_name)) as [Hne|Heq]; [|exact IH].
  rewrite (filter_cons (λ e, coordinate e = repo_name)).
  destruct (decide (coordinate e = repo_name)); [contradiction | exact IH].
Qed.

Lemma filter_other_idem (repo_name : string) (config : list entry) :
  filter (λ e, coordinate e ≠ repo_name)
    (filter (λ e, coordinate e ≠ repo_name) config)
  = filter (λ e, coordinate e ≠ repo_name) config.
Proof.
  induction config as [|e config IH]; [reflexivity|].
  rewrite (filter_cons (λ e, coordinate e ≠ repo_name) e config).
  destruct (decide (coordinate e ≠ repo_name)) as [Hne|Heq]; [|exact IH].
  rewrite filter_cons. destruct (decide (coordinate e ≠ repo_name)); [|contradiction].
  now rewrite IH.
Qed.

(** C10. For every store and every coordinate, adding drops every entry
    keyed by the coordinate and appends the new entry: afterwards the
    coordinate occurs exactly once, the new entry is the last one (an
    already tracked item moves to the end), and the entries under other
    coordinates are the old ones in their old order. *)
Theorem add_repo_unique_and_last (config : list entry)
  (repo_name comment : string) (hashes : gmap string (option string)) :
  let item := {| _comment := Some comment; assets := hashes |} in
  let config' := add_repo config repo_name comment hashes in
  occurrences repo_name config' = 1
  /\ last config' = Some (repo_name, item)
  /\ filter (λ e, coordinate e ≠ repo_name) config'
     = filter (λ e, coordinate e ≠ repo_name) config
  /\ length config' = S (length config - occurrences repo_name config).
Proof.
  cbv zeta. unfold add_repo, occurrences. repeat split.
  - rewrite filter_app, filter_other_none. rewrite app_nil_l.
    rewrite filter_cons. cbn [coordinate fst].
    destruct (decide (repo_name = repo_name)); [reflexivity | contradiction].
  - apply last_snoc.
  - rewrite filter_app, filter_other_idem.
    rewrite filter_cons. cbn [coordinate fst].
    destruct (decide (repo_name ≠ repo_name)); [contradiction|].
    rewrite filter_nil. apply app_nil_r.
  - rewrite length_app. cbn [length].
    assert (H : length (filter (λ e, coordinate e ≠ repo_name) config)
                + length (filter (λ e, coordinate e = repo_name) config)
                = length config).
    { clear. induction config as [|e config IH]; [reflexivity|].
      rewrite !filter_cons.
      destruct (decide (coordinate e = repo_name)) as [Heq|Hne];
        destruct (decide (coordinate e ≠ repo_name)) as [Hne'|Heq'];
        cbn [length]; try contradiction; lia. }
    lia.
Qed.

Example add_moves_to_end :
  coordinate <$> add_repo
    [("a/x", {| _comment := None; assets := ∅ |});
     ("b/y", {| _comment := None; assets := ∅ |});
     ("a/x", {| _comment := None; assets := ∅ |})]
    "a/x" "Last commit on main: aaaa111 @ 2024-01-01" ∅
  = ["b/y"; "a/x"].
Proof. reflexivity. Qed.

(** A failed fetch raises before the store is touched. *)
Lemma submit_add_fetch_fails (config : list entry) (repo_name : string)
  (fetched : string -> result (gmap string (option string) * string)) (e : exn) :
  nonempty repo_name = true ->
  fetched repo_name = Raise e ->
  submit_add config (Some repo_name) fetched = Raise e.
Proof.
  intros Hn Hf. unfold submit_add, truthy. rewrite Hn.
  cbn. now rewrite Hf.
Qed.

End StoreFacts.

(* ===================================================================== *)
(** * Reading the commit identifier back from the annotation *)
(* ===================================================================== *)

Section ExtractFacts.
Import Py ConfigManager.

Lemma cut_unfold (sep s : string) :
  cut sep s =
  if startswith s sep then Some ("", skip (String.length sep) s)
  else match s with
       | "" => None
       | String c s' =>
           match cut sep s' with
           | Some (a, b) => Some (String c a, b)
           | None => None
           end
       end.
Proof. now destruct s. Qed.

Lemma rstrip_cons (c : ascii) (s : string) :
  rstrip (String c s) =
  match rstrip s with
  | "" => if isspace c then "" else String c ""
  | r => String c r
  end.
Proof. reflexivity. Qed.

Lemma contains_unfold (sub s : string) :
  contains sub s =
  startswith s sub || match s with "" => false | String _ s' => contains sub s' end.
Proof. now destruct s. Qed.

Lemma cut_contains (sep s : string) :
  contains sep s = true -> exists a b, cut sep s = Some (a, b).
Proof.
  induction s as [|c s IH]; rewrite contains_unfold, cut_unfold.
  - destruct (startswith "" sep); [eauto | discriminate].
  - destruct (startswith (String c s) sep); [eauto|].
    cbn [orb]. intros H. destruct (IH H) as (a & b & ->). eauto.
Qed.

Lemma split_once (sep s a b : string) :
  cut sep s = Some (a, b) -> split sep (Some 1) s = [a; b].
Proof.
  intros H. unfold split. cbn [split_fuel]. rewrite H. cbn [fmap option_fmap option_map Nat.pred].
  now destruct (String.length s).
Qed.

Lemma split_head_cut (sep s a b : string) :
  cut sep s = Some (a, b) -> Py.index (split sep None s) 0 = Ok a.
Proof. intros H. unfold split. cbn [split_fuel]. now rewrite H. Qed.

Lemma split_head_total (sep : string) (m : option nat) (s : string) :
  exists v, Py.index (split sep m s) 0 = Ok v.
Proof.
  unfold split. cbn [split_fuel].
  destruct m as [[|k]|]; [now eexists | |];
    (destruct (cut sep s) as [[a b]|]; now eexists).
Qed.

(** On text the first expression never raises, so the [except] branch of
    _check_updates_worker is never taken. *)
Lemma primary_parse_total (old_comment : string) :
  exists v, primary_parse old_comment = Ok v.
Proof.
  unfold primary_parse.
  destruct (contains ":" old_comment) eqn:Hc; [|now eexists].
  destruct (cut_contains _ _ Hc) as (a & b & Hcut).
  rewrite (split_once _ _ _ _ Hcut). cbn [Py.index nth_error bind].
  destruct (split_head_total " @" None (strip b)) as [v ->].
  cbn [bind]. now eexists.
Qed.

Lemma extract_sha_primary (old_comment : string) :
  extract_sha old_comment = primary_parse old_comment.
Proof.
  unfold extract_sha.
  now destruct (primary_parse_total old_comment) as [v ->].
Qed.

Lemma extract_sha_total (old_comment : string) :
  exists v, extract_sha old_comment = Ok v.
Proof. rewrite extract_sha_primary. apply primary_parse_total. Qed.

(** The [except] branch itself cannot raise either: the index is guarded
    by the length test. *)
Lemma fallback_parse_total (old_comment : string) :
  exists v, fallback_parse old_comment = Ok v.
Proof.
  unfold fallback_parse.
  destruct (3 <? length (split_ws old_comment)) eqn:Hlen; [|now eexists].
  apply Nat.ltb_lt in Hlen. unfold Py.index.
  destruct (nth_error (split_ws old_comment) 3) eqn:Hn; [now eexists|].
  apply nth_error_None in Hn. lia.
Qed.

(** An annotation without a colon carries no identifier. *)
Lemma extract_sha_no_colon (old_comment : string) :
  contains ":" old_comment = false -> extract_sha old_comment = Ok None.
Proof.
  intros H. rewrite extract_sha_primary. unfold primary_parse. now rewrite H.
Qed.

(** For an annotation in the canonical format, written for a branch name
    without colon and a non-empty identifier without blanks, the pass
    reads the identifier back exactly. *)
Lemma extract_sha_canonical (default_branch sha date : string) :
  all_chars (λ c, negb (Ascii.eqb c ":")) default_branch = true ->
  nonempty sha = true ->
  all_chars (λ c, negb (isspace c)) sha = true ->
  extract_sha (format_comment default_branch sha date) = Ok (Some sha).
Proof.
  intros Hb Hne Hs. rewrite extract_sha_primary.
  unfold primary_parse, format_comment.
  set (a := "Last commit on " +:+ default_branch).
  set (b := " " +:+ sha +:+ " @ " +:+ date).
  assert (Hcomment :
    "Last commit on " +:+ default_branch +:+ ": " +:+ sha +:+ " @ " +:+ date
    = a +:+ String ":" "" +:+ b).
  { subst a b. now rewrite !append_assoc. }
  rewrite Hcomment.
  assert (Hcont : contains ":" (a +:+ ":" +:+ b) = true).
  { apply (contains_char ":" a b). }
  rewrite Hcont.
  assert (Hcut : cut ":" (a +:+ ":" +:+ b) = Some (a, b)).
  { apply cut_first. subst a. rewrite !append_cons, append_nil.
    cbn [all_chars]. exact Hb. }
  rewrite (split_once _ _ _ _ Hcut). cbn [Py.index nth_error bind].
  assert (Hstrip : strip b = sha +:+ String " " "@" +:+ rstrip (" " +:+ date)).
  { subst b. unfold strip. rewrite append_cons, append_nil.
    destruct sha as [|c sha]; [discriminate|].
    cbn [all_chars] in Hs. apply andb_prop in Hs as [Hc Hs'].
    apply negb_true_iff in Hc.
    cbn [lstrip]. change (isspace " ") with true. cbv iota.
    rewrite append_cons, lstrip_nonspace by exact Hc.
    rewrite <- append_cons.
    rewrite rstrip_app_nonspace.
    2:{ cbn [all_chars]. now rewrite Hc, Hs'. }
    f_equal. rewrite !append_cons, !append_nil.
    rewrite (rstrip_cons " "), (rstrip_nonspace "@") by reflexivity.
    reflexivity. }
  rewrite Hstrip.
  rewrite (split_head_cut " @" _ sha (rstrip (" " +:+ date))).
  2:{ apply cut_first. eapply all_chars_weaken; [|exact Hs].
      intros c Hc. apply negb_true_iff in Hc. apply negb_true_iff.
      destruct (Ascii.eqb_spec c " ") as [->|]; [discriminate | reflexivity]. }
  cbn [bind]. now rewrite strip_nonspace.
Qed.

End ExtractFacts.

(* ===================================================================== *)
(** * The drift reconciler *)
(* ===================================================================== *)

Section DriftFacts.
Import Py ConfigManager.

Lemma is_same_commit_spec (old new : string) :
  is_same_commit old new = true
  <-> lower old = lower new \/ is_prefix old new \/ is_prefix new old.
Proof.
  unfold is_same_commit, is_prefix.
  rewrite !orb_true_iff, String.eqb_eq, !startswith_spec. tauto.
Qed.

Lemma is_same_commit_refl (s : string) : is_same_commit s s = true.
Proof. apply is_same_commit_spec. now left. Qed.

Lemma is_same_commit_empty_l (s : string) : is_same_commit "" s = true.
Proof. unfold is_same_commit. cbn [startswith]. now rewrite orb_true_r. Qed.

Lemma classify_not_error (old new : option string) :
  classify old new <> CheckError.
Proof.
  unfold classify.
  repeat match goal with |- context [if ?b then _ else _] => destruct b end;
    discriminate.
Qed.

(** The ladder says [Outdated] exactly for two present identifiers that
    do not name the same commit. *)
Lemma classify_outdated (old new : option string) :
  classify old new = Outdated
  <-> truthy old && truthy new
      && negb (is_same_commit (default "" old) (default "" new)) = true.
Proof.
  unfold classify, is_same_commit.
  destruct (truthy old) eqn:Ho; [|cbn; split; discriminate].
  destruct (truthy new) eqn:Hn; [|cbn; split; discriminate].
  cbn [andb]. rewrite !negb_orb.
  destruct (bool_decide (old = new)) eqn:Heq.
  - apply bool_decide_eq_true in Heq. subst new. cbn [negb].
    rewrite String.eqb_refl. cbn. split; discriminate.
  - cbn [negb].
    destruct (negb (lower (default "" old) =? lower (default "" new))%string
              && negb (startswith (default "" new) (default "" old))
              && negb (startswith (default "" old) (default "" new)));
      split; (reflexivity || discriminate).
Qed.

(** C2. Two commit identifiers are taken for the same commit exactly when
    they are equal up to letter case or one is a prefix of the other, and
    the ladder of the pass answers [Outdated] exactly when they are not;
    the three sample pairs evaluate as stated. *)
Theorem is_same_commit_decides_drift :
  (forall old new : string,
     is_same_commit old new = true
     <-> lower old = lower new \/ is_prefix old new \/ is_prefix new old)
  /\ (forall old new : string,
        classify (Some old) (Some new) = Outdated
        <-> is_same_commit old new = false)
  /\ is_same_commit "abc1234" "ABC1234" = true
  /\ is_same_commit "abc1234" "abc1234567" = true
  /\ is_same_commit "abc1234" "def5678" = false.
Proof.
  split; [exact is_same_commit_spec|].
  split; [|repeat split].
  intros old new. rewrite classify_outdated. cbn [default from_option id].
  destruct old as [|a old].
  - cbn. rewrite is_same_commit_empty_l. split; discriminate.
  - destruct new as [|b new].
    + assert (H : is_same_commit (String a old) "" = true).
      { unfold is_same_commit. cbn [startswith]. apply orb_true_r. }
      rewrite H. cbn. split; discriminate.
    + cbn [truthy nonempty andb]. apply negb_true_iff.
Qed.

End DriftFacts.

Section PassFacts.
Import Py ConfigManager.

Variable fetch : string -> result commit_info.

Lemma check_body_raises (i : nat) (e : entry) (ex : exn) :
  fetch (coordinate e) = Raise ex -> check_body fetch i e = Raise ex.
Proof.
  intros Hf. unfold check_body.
  destruct (extract_sha_total (default "" (_comment e.2))) as [old ->].
  cbn [bind]. now rewrite Hf.
Qed.

Lemma check_body_returns (i : nat) (e : entry) (info : commit_info) :
  fetch (coordinate e) = Ok info ->
  exists old,
    extract_sha (default "" (_comment e.2)) = Ok old
    /\ check_body fetch i e =
       match classify old (sha info) with
       | Outdated =>
           Ok (Some {| old_sha := default "" old;
                       new_sha := default "" (sha info);
                       commit_date := date info;
                       commit_message := message info;
                       index := i |})
       | _ => Ok None
       end.
Proof.
  intros Hf. unfold check_body.
  destruct (extract_sha_total (default "" (_comment e.2))) as [old Hold].
  exists old. split; [exact Hold|]. rewrite Hold. cbn [bind]. now rewrite Hf.
Qed.

(** An item ends the pass in [CheckError] exactly when fetching its
    commit info raised. *)
Lemma item_outcome_error (i : nat) (e : entry) :
  item_outcome fetch i e = CheckError <-> is_ok (fetch (coordinate e)) = false.
Proof.
  unfold item_outcome. destruct (fetch (coordinate e)) as [info|ex] eqn:Hf.
  - destruct (check_body_returns i e info Hf) as (old & _ & ->).
    cbn [is_ok]. destruct (classify old (sha info)); split; discriminate.
  - rewrite (check_body_raises i e ex Hf). now cbn.
Qed.

Lemma item_outcome_outdated (i : nat) (e : entry) :
  item_outcome fetch i e = Outdated <-> drifted fetch e = true.
Proof.
  unfold item_outcome, drifted.
  destruct (fetch (coordinate e)) as [info|ex] eqn:Hf.
  - destruct (check_body_returns i e info Hf) as (old & Hold & ->).
    rewrite Hold, <- classify_outdated.
    destruct (classify old (sha info)); split; congruence.
  - rewrite (check_body_raises i e ex Hf).
    destruct (extract_sha _); split; discriminate.
Qed.

Lemma item_outcome_up_to_date_missing (i : nat) (e : entry) :
  sha_missing fetch e = true -> item_outcome fetch i e = UpToDate.
Proof.
  unfold sha_missing, item_outcome.
  destruct (fetch (coordinate e)) as [info|ex] eqn:Hf.
  2:{ destruct (extract_sha _); discriminate. }
  destruct (check_body_returns i e info Hf) as (old & Hold & ->).
  rewrite Hold. intros Hm. apply negb_true_iff in Hm.
  unfold classify. now rewrite Hm.
Qed.

(** The counters and the drift set after one iteration, by outcome. *)
Lemma check_entry_outcome (st : pass_state) (i : nat) (e : entry) :
  match item_outcome fetch i e with
  | Outdated =>
      exists r, check_body fetch i e = Ok (Some r)
        /\ outdated_repos (check_entry fetch st i e)
           = <[coordinate e := r]> (outdated_repos st)
        /\ outdated_count (check_entry fetch st i e) = S (outdated_count st)
        /\ update_count (check_entry fetch st i e) = update_count st
        /\ error_count (check_entry fetch st i e) = error_count st
  | UpToDate =>
      outdated_repos (check_entry fetch st i e) = outdated_repos st
      /\ outdated_count (check_entry fetch st i e) = outdated_count st
      /\ update_count (check_entry fetch st i e) = S (update_count st)
      /\ error_count (check_entry fetch st i e) = error_count st
  | CheckError =>
      outdated_repos (check_entry fetch st i e) = outdated_repos st
      /\ outdated_count (check_entry fetch st i e) = outdated_count st
      /\ update_count (check_entry fetch st i e) = update_count st
      /\ error_count (check_entry fetch st i e) = S (error_count st)
  end.
Proof.
  unfold item_outcome, check_entry.
  destruct (check_body fetch i e) as [[r|]|ex]; cbn; eauto 10.
Qed.

Lemma count_drifted_cons (e : entry) (config : list entry) :
  count_drifted fetch (e :: config)
  = (if drifted fetch e then 1 else 0) + count_drifted fetch config.
Proof.
  unfold count_drifted. rewrite filter_cons.
  destruct (decide (drifted fetch e = true)) as [->|Hn]; [reflexivity|].
  now destruct (drifted fetch e).
Qed.

(** Each iteration moves exactly one counter, whatever happened. *)
Lemma check_from_counts (config : list entry) (st : pass_state) (i : nat) :
  let r := check_from fetch st i config in
  outdated_count r = outdated_count st + count_drifted fetch config
  /\ update_count r + outdated_count r + error_count r
     = update_count st + outdated_count st + error_count st + length config.
Proof.
  revert st i. induction config as [|e config IH]; intros st i; cbn zeta.
  - cbn [check_from length]. unfold count_drifted. cbn. lia.
  - cbn [check_from length]. rewrite count_drifted_cons.
    destruct (IH (check_entry fetch st i e) (S i)) as [IHo IHs].
    cbn zeta in IHo, IHs.
    assert (Hstep1 :
      outdated_count (check_entry fetch st i e)
      = outdated_count st + (if drifted fetch e then 1 else 0)
      /\ update_count (check_entry fetch st i e)
         + outdated_count (check_entry fetch st i e)
         + error_count (check_entry fetch st i e)
         = update_count st + outdated_count st + error_count st + 1).
    { pose proof (check_entry_outcome st i e) as Hstep.
      pose proof (item_outcome_outdated i e) as Hout.
      destruct (item_outcome fetch i e).
      - destruct Hstep as (_ & -> & -> & ->).
        destruct (drifted fetch e); [|lia].
        destruct Hout as [_ Hout]. now specialize (Hout eq_refl).
      - destruct Hstep as (r & _ & _ & -> & -> & ->).
        destruct Hout as [Hout _]. rewrite (Hout eq_refl). lia.
      - destruct Hstep as (_ & -> & -> & ->).
        destruct (drifted fetch e); [|lia].
        destruct Hout as [_ Hout]. now specialize (Hout eq_refl). }
    destruct Hstep1 as [H1 H2]. split; lia.
Qed.

(** The keys of the drift set after the pass: those it started with and
    the coordinates of the drifted items. *)
Lemma check_from_records (config : list entry) (st : pass_state) (i : nat)
  (k : string) :
  is_Some (outdated_repos (check_from fetch st i config) !! k)
  <-> is_Some (outdated_repos st !! k)
      \/ exists e, e ∈ config /\ coordinate e = k /\ drifted fetch e = true.
Proof.
  revert st i. induction config as [|e config IH]; intros st i.
  - cbn [check_from]. split; [tauto|]. intros [H|(e & He & _)]; [exact H|].
    now apply elem_of_nil in He.
  - cbn [check_from]. rewrite IH.
    pose proof (check_entry_outcome st i e) as Hstep.
    pose proof (item_outcome_outdated i e) as Hout.
    assert (Hsplit : forall P : entry -> Prop,
      (exists x, x ∈ e :: config /\ P x) <-> P e \/ exists x, x ∈ config /\ P x).
    { intros P. split.
      - intros (x & Hx & HP). apply elem_of_cons in Hx as [->|Hx]; eauto.
      - intros [HP|(x & Hx & HP)]; [exists e | exists x];
          (split; [rewrite elem_of_cons; auto | exact HP]). }
    rewrite (Hsplit (λ x, coordinate x = k /\ drifted fetch x = true)).
    destruct (item_outcome fetch i e).
    + destruct Hstep as (-> & _).
      assert (drifted fetch e <> true) by (rewrite <- Hout; discriminate).
      tauto.
    + destruct Hstep as (r & _ & -> & _).
      assert (Hd : drifted fetch e = true) by now apply Hout.
      rewrite lookup_insert_is_Some. split.
      * intros [[Hk|[_ H]]|H]; auto.
      * intros [H|[[Hk _]|H]]; auto.
        destruct (decide (coordinate e = k)); auto.
    + destruct Hstep as (-> & _).
      assert (drifted fetch e <> true) by (rewrite <- Hout; discriminate).
      tauto.
Qed.


(** The error counter counts the items whose fetch raised. *)
Lemma check_from_errors (config : list entry) (st : pass_state) (i : nat) :
  error_count (check_from fetch st i config)
  = error_count st + count_failed fetch config.
Proof.
  revert st i. induction config as [|e config IH]; intros st i.
  - cbn [check_from]. unfold count_failed. cbn. lia.
  - cbn [check_from]. rewrite IH. unfold count_failed. rewrite filter_cons.
    pose proof (check_entry_outcome st i e) as Hstep.
    pose proof (item_outcome_error i e) as Herr.
    destruct (decide (is_ok (fetch (coordinate e)) = false)) as [Hf|Hf];
      destruct (item_outcome fetch i e).
    + destruct Herr as [_ Herr]. now specialize (Herr Hf).
    + destruct Herr as [_ Herr]. now specialize (Herr Hf).
    + destruct Hstep as (_ & _ & _ & ->). cbn [length]. lia.
    + destruct Hstep as (_ & _ & _ & ->). lia.
    + destruct Hstep as (r & _ & _ & _ & _ & ->). lia.
    + destruct Herr as [Herr _]. now specialize (Herr eq_refl).
Qed.

Lemma check_from_app (l1 l2 : list entry) (st : pass_state) (i : nat) :
  check_from fetch st i (l1 ++ l2)
  = check_from fetch (check_from fetch st i l1) (i + length l1) l2.
Proof.
  revert st i. induction l1 as [|e l1 IH]; intros st i.
  - cbn [app check_from length]. now rewrite Nat.add_0_r.
  - cbn [app check_from length]. rewrite IH. f_equal. lia.
Qed.

End PassFacts.

Section ReconcilerClaims.
Import Py ConfigManager Samples.

(** C1 (as stated, refuted). An item whose fetched identifier is empty,
    and one whose annotation holds no identifier, are not classified
    [CheckError]: the pass over the two counts no error and two items up
    to date. *)
Lemma missing_sha_is_not_counted_as_error :
  let config := [ tracked "baz/qux" "Last commit on main: eeee555 @ 2024-01-01";
                  tracked "foo/bar" "unknown" ] in
  Forall (λ e, sha_missing sample_upstream e = true) config
  /\ item_outcome sample_upstream 0 (tracked "baz/qux"
       "Last commit on main: eeee555 @ 2024-01-01") <> CheckError
  /\ item_outcome sample_upstream 1 (tracked "foo/bar" "unknown") <> CheckError
  /\ error_count (_check_updates_worker sample_upstream config) = 0
  /\ update_count (_check_updates_worker sample_upstream config) = 2.
Proof.
  cbv zeta. split; [repeat constructor|].
  split; [vm_compute; discriminate|].
  split; [vm_compute; discriminate|].
  split; reflexivity.
Qed.

(** C1 (amended). An item for which the fetch returned but the stored or
    the fetched identifier is missing is counted as up to date: it is
    neither an error nor outdated, it leaves the drift set alone, and the
    pass goes on with the remaining items.  Errors are the items whose
    fetch raised, and only those. *)
Theorem missing_sha_counts_as_up_to_date
  (fetch : string -> result commit_info) (before after : list entry) (e : entry) :
  sha_missing fetch e = true ->
  let i := length before in
  let st := check_from fetch pass_start 0 before in
  let st' := check_entry fetch st i e in
  let r := _check_updates_worker fetch (before ++ e :: after) in
  item_outcome fetch i e = UpToDate
  /\ update_count st' = S (update_count st)
  /\ error_count st' = error_count st
  /\ outdated_count st' = outdated_count st
  /\ outdated_repos st' = outdated_repos st
  /\ r = check_from fetch st' (S i) after
  /\ error_count r = count_failed fetch (before ++ e :: after)
  /\ update_count r + outdated_count r + error_count r
     = length (before ++ e :: after).
Proof.
  intros Hm. cbv zeta.
  pose proof (item_outcome_up_to_date_missing fetch (length before) e Hm) as Ho.
  pose proof (check_entry_outcome fetch
                (check_from fetch pass_start 0 before) (length before) e) as Hs.
  rewrite Ho in Hs. destruct Hs as (Hrec & Hout & Hup & Herr).
  repeat split; try assumption.
  - unfold _check_updates_worker. now rewrite check_from_app.
  - unfold _check_updates_worker. now rewrite check_from_errors.
  - unfold _check_updates_worker.
    destruct (check_from_counts fetch (before ++ e :: after) pass_start 0)
      as [_ H]. exact H.
Qed.

Lemma missing_sha_counts_as_up_to_date_witness :
  update_count
    (check_entry sample_upstream
       (check_from sample_upstream pass_start 0
          [tracked "foo/bar" "Last commit on main: aaaa111 @ 2024-01-01"])
       1 (tracked "baz/qux" "Last commit on main: eeee555 @ 2024-01-01"))
  = 1.
Proof.
  pose proof (missing_sha_counts_as_up_to_date sample_upstream
    [tracked "foo/bar" "Last commit on main: aaaa111 @ 2024-01-01"]
    [tracked "gone/repo" "Last commit on main: dddd444 @ 2024-01-01"]
    (tracked "baz/qux" "Last commit on main: eeee555 @ 2024-01-01")
    eq_refl) as H.
  cbv zeta in H. destruct H as (_ & H & _). exact H.
Defined.



Example sample_pass_counts :
  count_drifted sample_upstream sample_store = 1
  /\ outdated_count (_check_updates_worker sample_upstream sample_store) = 1
  /\ update_count (_check_updates_worker sample_upstream sample_store) = 2
  /\ error_count (_check_updates_worker sample_upstream sample_store) = 1.
Proof. vm_compute. repeat split. Qed.

(** The scenario of the specification: [foo/bar] stored at [aaaa111],
    upstream at [bbbb222]. *)
Example foo_bar_is_outdated :
  outdated_repos (_check_updates_worker sample_upstream
     [tracked "foo/bar" "Last commit on main: aaaa111 @ 2024-01-01"])
  !! "foo/bar"
  = Some {| old_sha := "aaaa111"; new_sha := "bbbb222";
            commit_date := "2024-02-02"; commit_message := "fix";
            index := 0 |}.
Proof. vm_compute. reflexivity. Qed.

(** Two entries under one coordinate share one record: the invariant of
    the store is needed for the count of records. *)
Example duplicate_coordinates_share_a_record :
  let config := [ tracked "foo/bar" "Last commit on main: aaaa111 @ 2024-01-01";
                  tracked "foo/bar" "Last commit on main: aaaa000 @ 2023-01-01" ] in
  count_drifted sample_upstream config = 2
  /\ outdated_count (_check_updates_worker sample_upstream config) = 2
  /\ size (outdated_repos (_check_updates_worker sample_upstream config)) = 1.
Proof. vm_compute. repeat split. Qed.

(** C5 (the code departs from it). _update_repo_worker takes the fourth
    blank-separated token without looking at the number of tokens: on a
    canonical annotation it reads the branch token ["main:"] where the
    pass reads the identifier, and on an annotation of fewer than four
    tokens it raises [IndexError], before its [try], where the fallback
    of the pass answers [None].  Comparing branch tokens, it asks for no
    diff when the commit under the same branch has changed. *)
Theorem update_worker_reads_fourth_token :
  update_repo_old_sha "Last commit on main: aaaa111 @ 2024-01-01"
    = Ok (Some "main:")
  /\ extract_sha "Last commit on main: aaaa111 @ 2024-01-01"
    = Ok (Some "aaaa111")
  /\ update_repo_old_sha "Last commit" = Raise IndexError
  /\ extract_sha "Last commit" = Ok None
  /\ fallback_parse "Last commit" = Ok None
  /\ (forall fetched,
        _update_repo_worker [tracked "foo/bar" "Last commit"] 0 fetched
        = Raise IndexError)
  /\ (forall hashes,
        match
          _update_repo_worker
            [tracked "foo/bar" "Last commit on main: aaaa111 @ 2024-01-01"] 0
            (λ _, Ok (hashes, "Last commit on main: bbbb222 @ 2024-02-02"))
        with
        | Ok r => diff_requested r = None
        | Raise _ => False
        end).
Proof.
  repeat split; try reflexivity.
Qed.

End ReconcilerClaims.

(* ===================================================================== *)
(** * The streaming hasher *)
(* ===================================================================== *)

Section Sha256Facts.
Import Sha256 Aiohttp.

Example round_constants :
  length K = 64 /\ K !! 0 = Some 0x428a2f98%Z /\ K !! 63 = Some 0xc67178f2%Z.
Proof. repeat split. Qed.

Example initial_value :
  length H0 = 8 /\ H0 !! 0 = Some 0x6a09e667%Z /\ H0 !! 7 = Some 0x5be0cd19%Z.
Proof. repeat split. Qed.

(** Test vectors of FIPS 180-4. *)
Example sha256_abc :
  sha256_hex (list_byte_of_string "abc")
  = "ba7816bf8f01cfea414140de5dae2223b00361a396177a9cb410ff61f20015ad".
Proof. vm_compute. reflexivity. Qed.

Example sha256_two_blocks :
  sha256_hex (list_byte_of_string
    "abcdbcdecdefdefgefghfghighijhijkijkljklmklmnlmnomnopnopq")
  = "248d6a61d20638b8e5c026930c3e6039a33ce45964ff2167f6ecedd419db06c1".
Proof. vm_compute. reflexivity. Qed.

(** Taking [a] and then [b] is taking [a ++ b]. *)
Lemma absorb_app (a b : list byte) (h : list Z) (buf : list byte) :
  absorb h buf (a ++ b) = absorb (absorb h buf a).1 (absorb h buf a).2 b.
Proof.
  revert h buf. induction a as [|x a IH]; intros h buf; [reflexivity|].
  cbn [app absorb]. destruct (length (buf ++ [x]) =? 64); apply IH.
Qed.

Lemma update_app (m : Sha256.t) (a b : list byte) :
  update (update m a) b = update m (a ++ b).
Proof.
  unfold update. rewrite absorb_app.
  destruct (absorb (chain m) (pending m) a) as [h1 b1]. cbn [chain pending count fst snd].
  destruct (absorb h1 b1 b) as [h2 b2].
  f_equal. rewrite length_app. lia.
Qed.

Lemma update_nil (m : Sha256.t) : update m [] = m.
Proof.
  destruct m as [h buf n]. unfold update. cbn. f_equal. lia.
Qed.

(** The accumulator only depends on the bytes it was fed, not on how
    they were cut. *)
Lemma fold_update_concat (chunks : list (list byte)) (m : Sha256.t) :
  fold_left update chunks m = update m (concat chunks).
Proof.
  revert m. induction chunks as [|c chunks IH]; intros m.
  - cbn [fold_left concat]. now rewrite update_nil.
  - cbn [fold_left concat]. rewrite IH. apply update_app.
Qed.

Lemma hash_stream_concat (chunks : list (list byte)) :
  hash_stream chunks = sha256_hex (concat chunks).
Proof. unfold hash_stream, sha256_hex. now rewrite fold_update_concat. Qed.

Lemma iter_chunked_fuel_concat (n fuel : nat) (data : list byte) :
  0 < n -> length data <= fuel ->
  concat (iter_chunked_fuel fuel n data) = data.
Proof.
  intros Hn. revert data. induction fuel as [|fuel IH]; intros data Hlen.
  - destruct data; [reflexivity | cbn in Hlen; lia].
  - cbn [iter_chunked_fuel]. destruct data as [|x data]; [reflexivity|].
    cbn [concat]. rewrite IH.
    + apply take_drop.
    + rewrite length_drop. cbn [length] in *. lia.
Qed.

Lemma iter_chunked_concat (n : nat) (data : list byte) :
  0 < n -> concat (iter_chunked n data) = data.
Proof. intros Hn. now apply iter_chunked_fuel_concat. Qed.

(** Every chunk is at most [n] bytes long and none is empty. *)
Lemma iter_chunked_fuel_sizes (n fuel : nat) (data : list byte) :
  0 < n ->
  Forall (λ c, 0 < length c <= n) (iter_chunked_fuel fuel n data).
Proof.
  intros Hn. revert data. induction fuel as [|fuel IH]; intros data.
  - constructor.
  - cbn [iter_chunked_fuel]. destruct data as [|x data]; constructor.
    + rewrite length_take. cbn [length]. lia.
    + apply IH.
Qed.

Lemma hash_stream_chunk_size_irrelevant_any (n : nat) (data : list byte) :
  0 < n -> hash_stream (iter_chunked n data) = sha256_hex data.
Proof.
  intros Hn. rewrite hash_stream_concat. now rewrite iter_chunked_concat.
Qed.

(** C3. The streaming hasher gives, for every byte sequence and every
    positive constant chunk size, the digest of the whole sequence hashed
    at once; the digest of the empty stream is the SHA-256 of no input. *)
Theorem hash_stream_chunk_size_irrelevant (n : nat) (data : list byte) :
  0 < n ->
  hash_stream (iter_chunked n data) = sha256_hex data
  /\ hash_stream (iter_chunked n [])
     = "e3b0c44298fc1c149afbf4c8996fb92427ae41e4649b934ca495991b7852b855".
Proof.
  intros Hn. split.
  - now apply hash_stream_chunk_size_irrelevant_any.
  - unfold iter_chunked. cbn [length iter_chunked_fuel]. vm_compute. reflexivity.
Qed.

Lemma hash_stream_chunk_size_irrelevant_witness :
  hash_stream (iter_chunked 1024 (list_byte_of_string "abc"))
  = sha256_hex (list_byte_of_string "abc")
  /\ hash_stream (iter_chunked 2 (list_byte_of_string "abc"))
     = sha256_hex (list_byte_of_string "abc").
Proof.
  split.
  - apply (hash_stream_chunk_size_irrelevant 1024 (list_byte_of_string "abc")). lia.
  - apply (hash_stream_chunk_size_irrelevant 2 (list_byte_of_string "abc")). lia.
Defined.

Example chunks_of_two :
  iter_chunked 2 (list_byte_of_string "abcde")
  = [list_byte_of_string "ab"; list_byte_of_string "cd"; list_byte_of_string "e"].
Proof. reflexivity. Qed.

(** Both downloaders hash with that loop: a transfer that completes
    yields the digest of the bytes that arrived. *)
Lemma fetch_asset_hash_complete (url : string) (resp : response stream) :
  status resp = 200 -> broken (body resp) = None ->
  ConfigManager.fetch_asset_hash (Py.Ok resp) url
  = Py.Ok (sha256_hex (delivered (body resp))).
Proof.
  intros Hs Hb. unfold ConfigManager.fetch_asset_hash. cbn [Py.bind].
  rewrite Hs, Hb. cbn [Nat.eqb]. f_equal.
  apply hash_stream_chunk_size_irrelevant_any. lia.
Qed.

Lemma stream_hash_of_complete (url : string) (resp : response stream) :
  status resp = 200 -> broken (body resp) = None ->
  Generate2.stream_hash_of url (Py.Ok resp)
  = Py.Ok (sha256_hex (delivered (body resp))).
Proof.
  intros Hs Hb. unfold Generate2.stream_hash_of. cbn [Py.bind].
  rewrite Hs, Hb. cbn [Nat.eqb]. f_equal.
  apply hash_stream_chunk_size_irrelevant_any. lia.
Qed.

End Sha256Facts.

(* ===================================================================== *)
(** * The change summarizer *)
(* ===================================================================== *)

Section SummarizerFacts.
Import Py Aiohttp ConfigManager.

Variable http_compare : string -> result (response (result compare_doc)).
Variable http_commit : string -> result (response (result commit_doc)).

Lemma first_line_total (s : string) : exists v, first_line s = Ok v.
Proof. apply split_head_total. Qed.

(** A [try] whose handler returns cannot raise. *)
Lemma try_except_returns {A} (m : Summ A) (h : exn -> Summ A)
  (st : summarizer_state) :
  (forall e st1, exists a st2, h e st1 = (Ok a, st2)) ->
  exists a st', try_except m h st = (Ok a, st').
Proof.
  intros Hh. unfold try_except. destruct (m st) as [[a|e] st1]; eauto.
Qed.

Lemma alternative_returns (repo old_sha new_sha : string)
  (st : summarizer_state) :
  exists st',
    _show_repo_diff_alternative http_commit repo old_sha new_sha st
    = (Ok tt, st').
Proof.
  unfold _show_repo_diff_alternative.
  match goal with
  | |- context [try_except ?m ?h st] =>
      destruct (try_except_returns m h st) as ([] & st' & H)
  end.
  - intros e st1. now eexists _, _.
  - exists st'. exact H.
Qed.

Ltac run_summarizer :=
  unfold _show_repo_diff_alternative, _show_repo_diff, try_except,
    fetch_commit, describe_commit, mbind, Summ_bind, mret, Summ_ret,
    perform, lift, append_line, clear_text, read_text;
  cbn beta iota zeta delta [diff_text effects fst snd negb].

(** Closes a path of the fallback: the final state, the effects added and
    the lines after the two header lines are read off the goal. *)
Ltac close_path :=
  eexists _, _, _; split; [reflexivity|];
  cbn [effects diff_text]; rewrite <- ?app_assoc; cbn [app];
  split; [reflexivity|]; split; [reflexivity|];
  first [ right; split; reflexivity
        | left; split; [reflexivity|]; split; [reflexivity|];
          rewrite !elem_of_cons; auto 10 ].

(** Closes a path of the fallback that ends in an error: the effects are
    read off the goal, and the commit that was not served refutes the
    other end. *)
Ltac error_path :=
  eexists _, _; split; [reflexivity|];
  cbn [effects diff_text]; rewrite <- ?app_assoc; cbn [app];
  split; [reflexivity|]; right;
  split;
  [ intros (od & nd & (r1 & H1 & S1 & B1) & (r2 & H2 & S2 & B2)); congruence
  | split; reflexivity ].

(** Every path of the fallback ends in one of two ways: the report is on
    the screen, or an error was notified and nothing is shown.  In both
    cases it returns, with the text assembled up to that point. *)
Lemma alternative_outcome (repo old_sha new_sha : string)
  (st : summarizer_state) :
  exists st' evs more,
    _show_repo_diff_alternative http_commit repo old_sha new_sha st
    = (Ok tt, st')
    /\ effects st' = effects st ++ evs
    /\ diff_text st'
       = [ "Changes between " +:+ slice_to 8 old_sha +:+ " and "
           +:+ slice_to 8 new_sha;
           "Note: Direct comparison not available. "
           +:+ "Showing summary information." +:+ LF ] ++ more
    /\ (displayed evs = true /\ reported_error evs = false
        /\ PushScreen (join LF (diff_text st'))
             ("Diff " +:+ repo +:+ ": " +:+ slice_to 8 old_sha
              +:+ " → " +:+ slice_to 8 new_sha) ∈ evs
        \/ displayed evs = false /\ reported_error evs = true).
Proof.
  run_summarizer.
  destruct (http_commit _) as [resp|e]; [|close_path].
  destruct (status resp =? 200); cbn [negb]; [|close_path].
  destruct (body resp) as [old_doc|e]; [|close_path].
  destruct (first_line_total (default "" (cd_message old_doc))) as [msg ->].
  destruct (http_commit _) as [resp'|e]; [|close_path].
  destruct (status resp' =? 200); cbn [negb]; [|close_path].
  destruct (body resp') as [new_doc|e]; [|close_path].
  destruct (first_line_total (default "" (cd_message new_doc))) as [msg' ->].
  close_path.
Qed.

(** The two ends of the fallback, by what the network serves: with both
    commits served the complete reduced report goes to the screen; in
    every other case an error is notified and no screen is pushed. *)
Lemma alternative_report (repo old_sha new_sha : string)
  (st : summarizer_state) :
  exists st' evs,
    _show_repo_diff_alternative http_commit repo old_sha new_sha st
    = (Ok tt, st')
    /\ effects st' = effects st ++ evs
    /\ ((exists old_doc new_doc old_msg new_msg,
           served_commit http_commit (commit_url repo old_sha) old_doc
           /\ served_commit http_commit (commit_url repo new_sha) new_doc
           /\ first_line (default "" (cd_message old_doc)) = Ok old_msg
           /\ first_line (default "" (cd_message new_doc)) = Ok new_msg
           /\ evs
              = [ UpdateStatus
                    "Using alternative method to get changes between commits...";
                  Get (commit_url repo old_sha);
                  Get (commit_url repo new_sha);
                  PushScreen
                    (join LF (reduced_report repo old_sha new_sha
                                old_doc new_doc old_msg new_msg))
                    ("Diff " +:+ repo +:+ ": " +:+ slice_to 8 old_sha
                     +:+ " → " +:+ slice_to 8 new_sha);
                  UpdateStatus ("Displayed commit information for " +:+ repo) ])
        \/ (~ (exists old_doc new_doc,
                 served_commit http_commit (commit_url repo old_sha) old_doc
                 /\ served_commit http_commit (commit_url repo new_sha) new_doc)
            /\ displayed evs = false /\ reported_error evs = true)).
Proof.
  unfold served_commit, commit_url. run_summarizer.
  destruct (http_commit ("https://api.github.com/repos/" +:+ repo
                         +:+ "/commits/" +:+ old_sha))
    as [resp|e] eqn:Hold; [|error_path].
  destruct (status resp =? 200) eqn:Hs; cbn [negb];
    [apply Nat.eqb_eq in Hs | apply Nat.eqb_neq in Hs; error_path].
  destruct (body resp) as [old_doc|e] eqn:Hb; [|error_path].
  destruct (first_line_total (default "" (cd_message old_doc))) as [msg Hmsg].
  rewrite Hmsg.
  destruct (http_commit ("https://api.github.com/repos/" +:+ repo
                         +:+ "/commits/" +:+ new_sha))
    as [resp'|e] eqn:Hnew; [|error_path].
  destruct (status resp' =? 200) eqn:Hs'; cbn [negb];
    [apply Nat.eqb_eq in Hs' | apply Nat.eqb_neq in Hs'; error_path].
  destruct (body resp') as [new_doc|e] eqn:Hb'; [|error_path].
  destruct (first_line_total (default "" (cd_message new_doc))) as [msg' Hmsg'].
  rewrite Hmsg'.
  eexists _, _. split; [reflexivity|].
  cbn [effects diff_text]. rewrite <- ?app_assoc. cbn [app].
  split; [reflexivity|]. left.
  exists old_doc, new_doc, msg, msg'. split_and!; eauto.
Qed.

Lemma long_enough (s : string) :
  7 <= String.length s ->
  negb (nonempty s) || (String.length s <? 7) = false.
Proof.
  intros H. destruct s as [|c s]; [cbn in H; lia|].
  cbn [nonempty negb orb]. apply Nat.ltb_ge. exact H.
Qed.

End SummarizerFacts.

Section SummarizerClaims.
Import Py Aiohttp ConfigManager Samples.

(** C8 (as stated, refuted). With the old commit served and the request
    for the new one answered 500, the fallback has assembled five lines of
    the report when it stops.  The call returns, but what it leaves is a
    notification of severity [error] and no screen: the lines assembled
    until then are shown nowhere. *)
Lemma fallback_error_drops_the_assembled_text :
  _show_repo_diff no_comparison only_old_commit "foo/bar" "aaaa111" "bbbb222"
    {| diff_text := []; effects := [] |}
  = (Ok tt,
     {| diff_text :=
          [ "Changes between aaaa111 and bbbb222";
            "Note: Direct comparison not available. Showing summary information."
            +:+ LF;
            "OLD COMMIT: aaaa111 (2024-01-01)";
            "Message: init";
            "" ];
        effects :=
          [ UpdateStatus "Fetching diff for foo/bar from GitHub API...";
            Get "https://api.github.com/repos/foo/bar/compare/aaaa111...bbbb222";
            UpdateStatus
              "Cannot directly compare these commits. Trying alternative approach...";
            UpdateStatus
              "Using alternative method to get changes between commits...";
            Get "https://api.github.com/repos/foo/bar/commits/aaaa111";
            Get "https://api.github.com/repos/foo/bar/commits/bbbb222";
            Notify "Failed to fetch new commit: 500" "error" ] |})
  /\ displayed
       (effects (_show_repo_diff no_comparison only_old_commit "foo/bar"
                   "aaaa111" "bbbb222" {| diff_text := []; effects := [] |}).2)
     = false
  /\ reported_error
       (effects (_show_repo_diff no_comparison only_old_commit "foo/bar"
                   "aaaa111" "bbbb222" {| diff_text := []; effects := [] |}).2)
     = true.
Proof. split; [|split]; vm_compute; reflexivity. Qed.

(** C8 (amended). When the comparison of two commits answers 404, the
    summarizer goes through the fallback, and the fallback never raises:
    whatever the network answers next, the call returns.  It ends in one
    of two ways.  When both commits are served, the complete reduced
    report (the two commits with their date and the first line of their
    message, the address of the comparison and the hint for the command
    line) is pushed to a screen, and no error is notified.  In every
    other case an error is notified with severity [error] and no screen
    is pushed: nothing of the text assembled until then is shown. *)
Theorem not_found_falls_back_and_returns
  (http_compare : string -> result (response (result compare_doc)))
  (http_commit : string -> result (response (result commit_doc)))
  (repo old_sha new_sha : string) (st : summarizer_state)
  (resp : response (result compare_doc)) :
  7 <= String.length old_sha ->
  7 <= String.length new_sha ->
  http_compare (compare_url repo old_sha new_sha) = Ok resp ->
  status resp = 404 ->
  let st0 :=
    {| diff_text := diff_text st;
       effects := effects st ++
         [ UpdateStatus ("Fetching diff for " +:+ repo
                         +:+ " from GitHub API...");
           Get (compare_url repo old_sha new_sha);
           UpdateStatus
             "Cannot directly compare these commits. Trying alternative approach..." ] |} in
  exists st' evs,
    _show_repo_diff http_compare http_commit repo old_sha new_sha st
    = (Ok tt, st')
    /\ _show_repo_diff_alternative http_commit repo old_sha new_sha st0
       = (Ok tt, st')
    /\ effects st' = effects st0 ++ evs
    /\ ((exists old_doc new_doc old_msg new_msg,
           served_commit http_commit (commit_url repo old_sha) old_doc
           /\ served_commit http_commit (commit_url repo new_sha) new_doc
           /\ first_line (default "" (cd_message old_doc)) = Ok old_msg
           /\ first_line (default "" (cd_message new_doc)) = Ok new_msg
           /\ evs
              = [ UpdateStatus
                    "Using alternative method to get changes between commits...";
                  Get (commit_url repo old_sha);
                  Get (commit_url repo new_sha);
                  PushScreen
                    (join LF (reduced_report repo old_sha new_sha
                                old_doc new_doc old_msg new_msg))
                    ("Diff " +:+ repo +:+ ": " +:+ slice_to 8 old_sha
                     +:+ " → " +:+ slice_to 8 new_sha);
                  UpdateStatus ("Displayed commit information for " +:+ repo) ])
        \/ (~ (exists old_doc new_doc,
                 served_commit http_commit (commit_url repo old_sha) old_doc
                 /\ served_commit http_commit (commit_url repo new_sha) new_doc)
            /\ displayed evs = false /\ reported_error evs = true)).
Proof.
  intros Hold Hnew Hcmp H404. cbv zeta.
  match goal with
  | |- context [_show_repo_diff_alternative _ _ _ _ ?s0] =>
      destruct (alternative_report http_commit repo old_sha new_sha s0)
        as (st' & evs & Halt & Heff & Hout)
  end.
  exists st', evs. split_and!; try assumption.
  unfold _show_repo_diff, try_except, mbind, Summ_bind, perform, lift.
  cbn beta iota zeta.
  assert (Hlen : negb (nonempty old_sha) || (String.length old_sha <? 7)
                 || negb (nonempty new_sha) || (String.length new_sha <? 7)
                 = false).
  { rewrite (long_enough old_sha Hold). cbn [orb]. exact (long_enough new_sha Hnew). }
  rewrite Hlen. fold (compare_url repo old_sha new_sha). rewrite Hcmp, H404.
  cbn [Nat.eqb diff_text effects]. rewrite <- !app_assoc. cbn [app].
  now rewrite Halt.
Qed.

Lemma not_found_falls_back_and_returns_witness :
  exists st',
    _show_repo_diff no_comparison only_new_commit "foo/bar" "aaaa111" "bbbb222"
      {| diff_text := []; effects := [] |} = (Ok tt, st').
Proof.
  destruct (not_found_falls_back_and_returns no_comparison only_new_commit
              "foo/bar" "aaaa111" "bbbb222" {| diff_text := []; effects := [] |}
              {| status := 404; text := "Not Found";
                 body := Raise (Exception "not a comparison") |})
    as (st' & _ & H & _).
  - cbn. lia.
  - cbn. lia.
  - reflexivity.
  - reflexivity.
  - exists st'. exact H.
Defined.

(** With both commits served the screen holds the whole report. *)
Example both_commits_served :
  effects
    (_show_repo_diff no_comparison both_commits "foo/bar" "aaaa111" "bbbb222"
       {| diff_text := []; effects := [] |}).2
  = [ UpdateStatus "Fetching diff for foo/bar from GitHub API...";
      Get "https://api.github.com/repos/foo/bar/compare/aaaa111...bbbb222";
      UpdateStatus
        "Cannot directly compare these commits. Trying alternative approach...";
      UpdateStatus "Using alternative method to get changes between commits...";
      Get "https://api.github.com/repos/foo/bar/commits/aaaa111";
      Get "https://api.github.com/repos/foo/bar/commits/bbbb222";
      PushScreen
        (join LF
           [ "Changes between aaaa111 and bbbb222";
             "Note: Direct comparison not available. Showing summary information."
             +:+ LF;
             "OLD COMMIT: aaaa111 (2024-01-01)"; "Message: init"; "";
             "NEW COMMIT: bbbb222 (2024-02-02)"; "Message: fix"; "";
             "To see detailed changes, visit:";
             "https://github.com/foo/bar/compare/aaaa111...bbbb222"; "";
             "Or clone the mods and use:"; "git diff aaaa111 bbbb222" ])
        "Diff foo/bar: aaaa111 → bbbb222";
      UpdateStatus "Displayed commit information for foo/bar" ].
Proof. vm_compute. reflexivity. Qed.

(** On that upstream nothing is shown: the two header lines are all that
    was assembled, and the failure is notified. *)
Example old_commit_gone :
  _show_repo_diff no_comparison only_new_commit "foo/bar" "aaaa111" "bbbb222"
    {| diff_text := []; effects := [] |}
  = (Ok tt,
     {| diff_text :=
          [ "Changes between aaaa111 and bbbb222";
            "Note: Direct comparison not available. Showing summary information."
            +:+ LF ];
        effects :=
          [ UpdateStatus "Fetching diff for foo/bar from GitHub API...";
            Get "https://api.github.com/repos/foo/bar/compare/aaaa111...bbbb222";
            UpdateStatus
              "Cannot directly compare these commits. Trying alternative approach...";
            UpdateStatus
              "Using alternative method to get changes between commits...";
            Get "https://api.github.com/repos/foo/bar/commits/aaaa111";
            Notify "Failed to fetch old commit: 404" "error" ] |}).
Proof. vm_compute. reflexivity. Qed.

End SummarizerClaims.

(* ===================================================================== *)
(** * Batch verification *)
(* ===================================================================== *)

Section RunFacts.
Import Py Aiohttp Generate2.

Lemma quiet_nil : quiet [].
Proof. constructor. Qed.

Lemma quiet_app (t1 t2 : list event) : quiet t1 -> quiet t2 -> quiet (t1 ++ t2).
Proof. unfold quiet. intros. now apply Forall_app. Qed.

Lemma quiet_request (url : string) : quiet [Request url].
Proof. repeat constructor; discriminate. Qed.

Lemma quiet_print (line : string) : quiet [Print line].
Proof. repeat constructor; discriminate. Qed.

(** The events of [m ≫= k] are those of [m], then those of [k]. *)
Lemma bind_run {A B} (m : M A) (k : A -> M B) :
  m ≫= k =
  match m.1 with
  | Ok a => ((k a).1, m.2 ++ (k a).2)
  | Raise e => (Raise e, m.2)
  end.
Proof.
  destruct m as [[a|e] t]; cbn; [|reflexivity]. now destruct (k a).
Qed.

Lemma bind_fst {A B} (m : M A) (k : A -> M B) :
  (m ≫= k).1 = bind m.1 (λ a, (k a).1).
Proof. rewrite bind_run. now destruct m.1. Qed.

Lemma quiet_bind {A B} (m : M A) (k : A -> M B) :
  quiet m.2 -> (forall a, quiet (k a).2) -> quiet (m ≫= k).2.
Proof.
  intros Hm Hk. rewrite bind_run. destruct m.1; cbn; [|exact Hm].
  now apply quiet_app.
Qed.

Lemma quiet_try_except {A} (m : M A) (h : exn -> M A) :
  quiet m.2 -> (forall e, quiet (h e).2) -> quiet (try_except m h).2.
Proof.
  intros Hm Hh. destruct m as [[a|e] t]; cbn in *; [exact Hm|].
  specialize (Hh e). destruct (h e) as [r t']. cbn in *. now apply quiet_app.
Qed.

Lemma gather_run {A} (tasks : list (M A)) :
  (gather tasks).2 = concat (snd <$> tasks).
Proof.
  induction tasks as [|[r t] tasks IH]; [reflexivity|].
  cbn [gather]. destruct (gather tasks) as [rs ts]. cbn in *. now rewrite IH.
Qed.

(** A batch of tasks that all return gives one result per task, in the
    order of the tasks. *)
Lemma gather_all_ok {A B} (f : B -> M A) (g : B -> A) (l : list B) :
  (forall b, (f b).1 = Ok (g b)) ->
  (gather (f <$> l)).1 = Ok (g <$> l).
Proof.
  intros Hf. induction l as [|b l IH]; [reflexivity|].
  cbn [fmap list_fmap gather]. specialize (Hf b).
  destruct (f b) as [r t]. cbn in Hf. subst r.
  change (list_fmap B (M A) f l) with (f <$> l).
  destruct (gather (f <$> l)) as [rs ts]. cbn in IH. subst rs. reflexivity.
Qed.

Lemma gather2_run {A B} (m1 : M A) (m2 : M B) :
  (gather2 m1 m2).2 = m1.2 ++ m2.2.
Proof. now destruct m1, m2. Qed.

Lemma sema_after_app (t1 t2 : list event) (v : Z) :
  sema_after v (t1 ++ t2) = sema_after (sema_after v t1) t2.
Proof.
  revert v. induction t1 as [|[] t1 IH]; intros v; cbn; auto.
Qed.

Lemma sema_after_quiet (t : list event) (v : Z) :
  quiet t -> sema_after v t = v.
Proof.
  induction 1 as [|ev t [Ha Hr] _ IH]; [reflexivity|].
  destruct ev; cbn; congruence.
Qed.

End RunFacts.

Section RepoFacts.
Import Py Aiohttp ConfigManager Generate2.

Variable net : network.
Variable format_repo_name : string -> string.
Variable get_social_preview_url : string -> option string.

Lemma fetch_json_run {A} (http : string -> result (response (result A)))
  (url : string) :
  fetch_json http url = (json_of url (http url), [Request url]).
Proof. reflexivity. Qed.

Lemma fetch_stream_hash_run (url : string) :
  fetch_stream_hash net url
  = (stream_hash_of url (http_asset net url), [Request url]).
Proof. reflexivity. Qed.

Lemma get_repo_data_run (repo_name : string) :
  get_repo_data net repo_name
  = (repo_data_of net repo_name,
     [Request (GITHUB_API +:+ "/repos/" +:+ repo_name)]).
Proof. reflexivity. Qed.

Lemma get_releases_run (repo_name : string) :
  (get_releases net repo_name).1 = releases_of net repo_name
  /\ quiet (get_releases net repo_name).2.
Proof.
  unfold get_releases, releases_of. rewrite !fetch_json_run.
  destruct (json_of _ (http_release net _)) as [latest|e]; cbn.
  - split; [reflexivity | apply quiet_request].
  - split; [reflexivity|]. repeat constructor; discriminate.
Qed.

Lemma get_contributors_run (repo_name : string) :
  (get_contributors net repo_name).1
  = bind (contributors_of net repo_name)
      (λ users, Ok (login <$> filter (λ u, type_ u = Some "User") users))
  /\ quiet (get_contributors net repo_name).2.
Proof.
  unfold get_contributors, contributors_of. rewrite fetch_json_run.
  destruct (json_of _ (http_contributors net _)) as [users|e]; cbn;
    (split; [reflexivity | apply quiet_request]).
Qed.

Lemma get_social_preview_run (repo_name : string) :
  (get_social_preview net get_social_preview_url repo_name).1
  = bind (page_of net repo_name)
      (λ html, Ok (if truthy html
                   then get_social_preview_url (default "" html) else None))
  /\ quiet (get_social_preview net get_social_preview_url repo_name).2.
Proof.
  unfold get_social_preview, page_of, fetch_html.
  destruct (html_of (http_page net _)) as [html|e]; cbn;
    (split; [reflexivity | apply quiet_request]).
Qed.

(** One asset: the failure of its download is turned into a result. *)
Lemma download_asset_and_hash_run (a : asset) (expected_hash : option string) :
  download_asset_and_hash net a expected_hash
  = (Ok (verification net a expected_hash),
     [Request (browser_download_url a)]).
Proof.
  unfold download_asset_and_hash, verification. rewrite fetch_stream_hash_run.
  now destruct (stream_hash_of _ _) as [h|e].
Qed.

(** The batch: one result per asset, in the order of the assets, each the
    verification of its own asset. *)
Lemma download_assets_run (repo_data_spec : TrackedItem) (l : list asset) :
  download_assets net repo_data_spec l
  = (Ok ((λ a, verification net a
                 (expected_hash_of repo_data_spec (name a))) <$> l),
     (λ a, Request (browser_download_url a)) <$> l).
Proof.
  unfold download_assets. induction l as [|a l IH]; [reflexivity|].
  cbn [fmap list_fmap gather]. rewrite download_asset_and_hash_run.
  change (list_fmap asset (M AssetVerification)
            (λ a, download_asset_and_hash net a
                    (expected_hash_of repo_data_spec (name a))) l)
    with ((λ a, download_asset_and_hash net a
                  (expected_hash_of repo_data_spec (name a))) <$> l).
  now rewrite IH.
Qed.

Lemma quiet_requests {A} (f : A -> string) (l : list A) :
  quiet ((λ a, Request (f a)) <$> l).
Proof.
  induction l as [|a l IH]; [constructor|].
  constructor; [split; discriminate | exact IH].
Qed.

Lemma validate_run (repo_name : string) (repo_data_spec : TrackedItem)
  (l : list AssetVerification) :
  exists ds names t,
    validate repo_name repo_data_spec l
    = (Ok (ds, names, existsb (mismatches repo_data_spec) l), t)
    /\ quiet t
    /\ currentHash <$> ds = currentHash <$> l
    /\ av_name <$> ds = av_name <$> l.
Proof.
  induction l as [|d l (ds & names & t & IH & Hq & Hcur & Hname)].
  - exists [], [], []. repeat split; constructor.
  - cbn [validate existsb]. unfold mismatches at 1.
    destruct (truthy (expected_hash_of repo_data_spec (av_name d))) eqn:He;
      cbn [andb].
    + destruct (bool_decide
                  (currentHash d = expected_hash_of repo_data_spec (av_name d)))
        eqn:Hm; cbn [negb].
      * rewrite IH. cbn. rewrite app_nil_r. eexists _, _, _.
        split; [reflexivity|].
        repeat split; [exact Hq | cbn; now f_equal | cbn; now f_equal].
      * rewrite IH. cbn. rewrite app_nil_r. eexists _, _, _.
        split; [reflexivity|].
        repeat split.
        -- repeat (constructor; [split; discriminate|]). exact Hq.
        -- cbn. now f_equal.
        -- cbn. now f_equal.
    + rewrite IH. cbn. rewrite app_nil_r. eexists _, _, _.
      split; [reflexivity|].
      repeat split; [exact Hq | cbn; now f_equal | cbn; now f_equal].
Qed.

Lemma mismatches_verification (repo_data_spec : TrackedItem) (a : asset) :
  mismatches repo_data_spec
    (verification net a (expected_hash_of repo_data_spec (name a)))
  = asset_mismatch net repo_data_spec a.
Proof.
  unfold mismatches, asset_mismatch, verification, observed_digest.
  now destruct (stream_hash_of _ _).
Qed.

Lemma existsb_mismatches (repo_data_spec : TrackedItem) (l : list asset) :
  existsb (mismatches repo_data_spec)
    ((λ a, verification net a (expected_hash_of repo_data_spec (name a))) <$> l)
  = existsb (asset_mismatch net repo_data_spec) l.
Proof.
  induction l as [|a l IH]; [reflexivity|].
  cbn [fmap list_fmap existsb]. rewrite mismatches_verification. f_equal. exact IH.
Qed.

Lemma download_latest_run (repo_data_spec : TrackedItem)
  (releases : list release) :
  (exists total,
     (download_latest net repo_data_spec releases).1
     = Ok ((λ a, verification net a
                   (expected_hash_of repo_data_spec (name a)))
           <$> match releases with
               | latest :: _ => default [] (rel_assets latest)
               | [] => []
               end, total))
  /\ quiet (download_latest net repo_data_spec releases).2.
Proof.
  destruct releases as [|latest others].
  - split; [now eexists | apply quiet_nil].
  - cbn [download_latest]. split.
    + rewrite bind_fst, download_assets_run. cbn. now eexists.
    + apply quiet_bind; [|intros ?; apply quiet_nil].
      rewrite download_assets_run. apply quiet_requests.
Qed.

(** The events of the body, the admission apart. *)
Lemma process_repo_body_quiet (repo_name : string) (repo_data_spec : TrackedItem) :
  quiet (process_repo_body net format_repo_name get_social_preview_url
           repo_name repo_data_spec false).2.
Proof.
  unfold process_repo_body.
  apply quiet_bind; [apply quiet_nil | intros _].
  apply quiet_bind; [rewrite get_repo_data_run; apply quiet_request | intros repo_json].
  apply quiet_bind; [apply get_releases_run | intros releases].
  apply quiet_bind; [apply download_latest_run|].
  intros [downloads total_downloads].
  apply quiet_bind.
  { rewrite gather2_run. apply quiet_app;
      [apply get_contributors_run | apply get_social_preview_run]. }
  intros [contributors icon].
  apply quiet_bind.
  { destruct (validate_run repo_name repo_data_spec downloads)
      as (ds & names & t & -> & Hq & _). exact Hq. }
  intros [[ds names] err]. apply quiet_nil.
Qed.

(** The result of the body: it raises exactly when the item fails to
    process, and otherwise returns the result mapping with the flag of
    the loop that validates the digests. *)
Lemma process_repo_body_result (repo_name : string)
  (repo_data_spec : TrackedItem) :
  let r := (process_repo_body net format_repo_name get_social_preview_url
              repo_name repo_data_spec false).1 in
  if item_failed net repo_name then exists e, r = Raise e
  else exists res,
    r = Ok (Some res, digest_mismatch net (repo_name, repo_data_spec))
    /\ currentHash <$> downloads res
       = observed_digest net <$> latest_assets net repo_name.
Proof.
  cbv zeta. unfold process_repo_body, item_failed, digest_mismatch, latest_assets.
  cbn [coordinate fst snd].
  rewrite bind_fst. cbn [mret M_ret fst bind].
  rewrite bind_fst, get_repo_data_run. cbn [fst].
  destruct (repo_data_of net repo_name) as [repo_json|e]; cbn [bind is_ok andb negb];
    [|eauto].
  rewrite bind_fst. destruct (get_releases_run repo_name) as [-> _].
  destruct (releases_of net repo_name) as [releases|e]; cbn [bind is_ok andb negb];
    [|eauto].
  rewrite bind_fst.
  destruct (download_latest_run repo_data_spec releases) as ((total & ->) & _).
  cbn [bind].
  rewrite bind_fst.
  assert (Hg : (gather2 (get_contributors net repo_name)
                  (get_social_preview net get_social_preview_url repo_name)).1
    = match (get_contributors net repo_name).1,
            (get_social_preview net get_social_preview_url repo_name).1 with
      | Ok a, Ok b => Ok (a, b)
      | Raise e, _ => Raise e
      | Ok _, Raise e => Raise e
      end).
  { now destruct (get_contributors _ _), (get_social_preview _ _ _). }
  rewrite Hg. destruct (get_contributors_run repo_name) as [-> _].
  destruct (get_social_preview_run repo_name) as [-> _].
  destruct (contributors_of net repo_name) as [users|e];
    cbn [bind is_ok andb negb].
  2:{ destruct (page_of net repo_name); cbn; eauto. }
  destruct (page_of net repo_name) as [html|e]; cbn [bind is_ok andb negb];
    [|eauto].
  rewrite bind_fst.
  match goal with
  | |- context [validate repo_name repo_data_spec ?d] =>
      destruct (validate_run repo_name repo_data_spec d)
        as (ds & names & t & -> & _ & Hcur & _)
  end.
  cbn [fst bind mret M_ret]. eexists. split.
  - rewrite existsb_mismatches. reflexivity.
  - cbn [downloads]. rewrite Hcur. rewrite <- list_fmap_compose.
    apply list_fmap_ext. intros _ a _. unfold compose, verification, observed_digest.
    now destruct (stream_hash_of _ _).
Qed.

(** With the semaphore, the body first takes a unit and then runs as it
    does without. *)
Lemma process_repo_body_sema (repo_name : string) (repo_data_spec : TrackedItem) :
  process_repo_body net format_repo_name get_social_preview_url
    repo_name repo_data_spec true
  = ((process_repo_body net format_repo_name get_social_preview_url
        repo_name repo_data_spec false).1,
     Acquire ::
     (process_repo_body net format_repo_name get_social_preview_url
        repo_name repo_data_spec false).2).
Proof.
  unfold process_repo_body. rewrite (bind_run (emit Acquire)), (bind_run (mret tt)).
  cbn [fst snd emit mret M_ret app]. reflexivity.
Qed.

End RepoFacts.

Section BatchClaims.
Import Py Aiohttp ConfigManager Generate2 Samples.

(** [process_repo] always returns: a failure of the item is turned into
    [(None, True)].  Its events are those of the body, bracketed by the
    admission when there is a semaphore. *)
Lemma process_repo_run (net : network) (format_repo_name : string -> string)
  (get_social_preview_url : string -> option string) (mod_ : entry)
  (sema : bool) :
  exists r mid,
    process_repo net format_repo_name get_social_preview_url mod_ sema
    = (Ok r, (if sema then [Acquire] else []) ++ mid
             ++ (if sema then [Release] else []))
    /\ quiet mid
    /\ (if item_failed net (coordinate mod_) then r = (None, true)
        else exists res,
          r = (Some res, digest_mismatch net mod_)
          /\ currentHash <$> downloads res
             = observed_digest net <$> latest_assets net (coordinate mod_)).
Proof.
  destruct mod_ as [repo_name repo_data_spec]. cbn [coordinate fst].
  pose proof (process_repo_body_quiet net format_repo_name
                get_social_preview_url repo_name repo_data_spec) as Hq.
  pose proof (process_repo_body_result net format_repo_name
                get_social_preview_url repo_name repo_data_spec) as Hr.
  cbv zeta in Hr.
  assert (Hbody :
    process_repo_body net format_repo_name get_social_preview_url
      repo_name repo_data_spec sema
    = ((process_repo_body net format_repo_name get_social_preview_url
          repo_name repo_data_spec false).1,
       (if sema then [Acquire] else [])
       ++ (process_repo_body net format_repo_name get_social_preview_url
             repo_name repo_data_spec false).2)).
  { destruct sema; [apply process_repo_body_sema|].
    now destruct (process_repo_body _ _ _ _ _ false). }
  unfold process_repo. cbn [coordinate fst snd]. rewrite Hbody.
  destruct (process_repo_body _ _ _ _ _ false) as [r t]. cbn [fst snd] in *.
  destruct (item_failed net repo_name).
  - destruct Hr as [e ->]. unfold try_except, try_finally.
    exists (None, true). eexists (t ++ [_]).
    split; [|split; [|reflexivity]].
    + destruct sema; cbn; rewrite <- ?app_assoc; cbn; now rewrite ?app_nil_r.
    + apply quiet_app; [exact Hq | apply quiet_print].
  - destruct Hr as (res & -> & Hd). unfold try_except, try_finally.
    eexists _, t. split; [|split; [exact Hq | eauto]].
    destruct sema; cbn; now rewrite ?app_nil_r.
Qed.

(** C9. An execution of [process_repo] under the limiter takes one unit
    before anything else, gives one unit back as its last step, and
    touches the semaphore nowhere in between: whether the item is
    processed or fails, the semaphore ends with the value it started
    with. *)
Theorem process_repo_releases_what_it_acquired
  (net : network) (format_repo_name : string -> string)
  (get_social_preview_url : string -> option string) (mod_ : entry) :
  exists r mid,
    process_repo net format_repo_name get_social_preview_url mod_ true
    = (Ok r, Acquire :: mid ++ [Release])
    /\ quiet mid
    /\ count_occ event_eq_dec (Acquire :: mid ++ [Release]) Acquire = 1
    /\ count_occ event_eq_dec (Acquire :: mid ++ [Release]) Release = 1
    /\ forall v, sema_after v (Acquire :: mid ++ [Release]) = v.
Proof.
  destruct (process_repo_run net format_repo_name get_social_preview_url
              mod_ true) as (r & mid & Hrun & Hq & _).
  exists r, mid. split; [exact Hrun|]. split; [exact Hq|].
  assert (Hcount : forall ev, ev = Acquire \/ ev = Release ->
            count_occ event_eq_dec mid ev = 0).
  { intros ev Hev. apply count_occ_not_In. intros Hin.
    unfold quiet in Hq. rewrite Forall_forall in Hq.
    apply list_elem_of_In in Hin.
    destruct (Hq _ Hin) as [Ha Hr]. destruct Hev; congruence. }
  repeat split.
  - cbn [count_occ]. destruct (event_eq_dec Acquire Acquire); [|congruence].
    rewrite count_occ_app, Hcount by auto. reflexivity.
  - cbn [count_occ]. destruct (event_eq_dec Acquire Release); [discriminate|].
    rewrite count_occ_app, Hcount by auto. reflexivity.
  - intros v. cbn [sema_after]. rewrite sema_after_app.
    rewrite (sema_after_quiet mid) by exact Hq. cbn. lia.
Qed.

(** Without a semaphore nothing is taken and nothing is given back. *)
Lemma process_repo_without_limiter
  (net : network) (format_repo_name : string -> string)
  (get_social_preview_url : string -> option string) (mod_ : entry) :
  quiet (process_repo net format_repo_name get_social_preview_url mod_ false).2.
Proof.
  destruct (process_repo_run net format_repo_name get_social_preview_url
              mod_ false) as (r & mid & -> & Hq & _).
  cbn. now rewrite app_nil_r.
Qed.

Lemma run_tasks_run (net : network) (format_repo_name : string -> string)
  (get_social_preview_url : string -> option string)
  (config : list entry) (acc : summary) :
  exists acc' t,
    run_tasks net format_repo_name get_social_preview_url acc config
    = (Ok acc', t)
    /\ error_found acc' = error_found acc || existsb (item_error net) config
    /\ processed_count acc'
       = processed_count acc
         + length (filter (λ m, item_failed net (coordinate m) = false) config).
Proof.
  revert acc. induction config as [|mod_ config IH]; intros acc.
  - exists acc, []. cbn. rewrite orb_false_r. repeat split. lia.
  - cbn [run_tasks existsb]. rewrite bind_run.
    destruct (process_repo_run net format_repo_name get_social_preview_url
                mod_ true) as (r & mid & -> & _ & Hr).
    cbn [fst snd].
    destruct (IH (collect acc r)) as (acc' & t & -> & Herr & Hcount).
    cbn [fst snd]. eexists _, _. split; [reflexivity|].
    rewrite Herr, Hcount, filter_cons. unfold item_error at 2.
    destruct (item_failed net (coordinate mod_)).
    + subst r. cbn. destruct (decide (true = false)); [discriminate|].
      split; [|reflexivity]. now rewrite orb_true_r.
    + destruct Hr as (res & -> & _). cbn.
      destruct (decide (false = false)); [|congruence].
      split; [now rewrite orb_assoc | cbn; lia].
Qed.

(** C7. The entry point returns a non-zero status exactly when an item
    failed to process or an asset of a verified release has a digest on
    record that the observed one does not match; when every item is
    processed and every compared digest matches, the status is zero. *)
Theorem main_exit_status
  (net : network) (format_repo_name : string -> string)
  (get_social_preview_url : string -> option string) (config : list entry) :
  exists acc code t,
    main net format_repo_name get_social_preview_url config
    = (Ok (acc, code), t)
    /\ (code <> 0 <->
        exists mod_, mod_ ∈ config
          /\ (item_failed net (coordinate mod_) = true
              \/ digest_mismatch net mod_ = true))
    /\ (code = 0 <->
        forall mod_, mod_ ∈ config ->
          item_failed net (coordinate mod_) = false
          /\ digest_mismatch net mod_ = false)
    /\ processed_count acc
       = length (filter (λ m, item_failed net (coordinate m) = false) config).
Proof.
  unfold main. rewrite bind_run.
  destruct (run_tasks_run net format_repo_name get_social_preview_url
              config summary_start) as (acc & t & -> & Herr & Hcount).
  cbn [fst snd error_found processed_count summary_start orb] in *.
  assert (Hex : existsb (item_error net) config = true <->
    exists mod_, mod_ ∈ config
      /\ (item_failed net (coordinate mod_) = true
          \/ digest_mismatch net mod_ = true)).
  { rewrite existsb_exists. unfold item_error.
    split; intros (m & Hin & Hm); exists m.
    - apply list_elem_of_In in Hin. now rewrite orb_true_iff in Hm.
    - apply list_elem_of_In in Hin. now rewrite orb_true_iff. }
  assert (Hall : existsb (item_error net) config = false <->
    forall mod_, mod_ ∈ config ->
      item_failed net (coordinate mod_) = false
      /\ digest_mismatch net mod_ = false).
  { rewrite <- not_true_iff_false, Hex. split.
    - intros Hno m Hin. apply orb_false_iff.
      apply not_true_iff_false. intros Hm. apply Hno. exists m.
      now rewrite orb_true_iff in Hm.
    - intros Hall (m & Hin & Hm). destruct (Hall m Hin) as [H1 H2].
      destruct Hm; congruence. }
  destruct (error_found acc) eqn:Hfound; cbn; eexists _, _, _;
    (split; [reflexivity|]).
  - assert (He : existsb (item_error net) config = true) by congruence.
    split; [split; [intros _; now apply Hex | intros _; discriminate]|].
    split; [split; [discriminate|]|lia].
    intros Hno. apply Hall in Hno. congruence.
  - assert (He : existsb (item_error net) config = false) by congruence.
    split; [split; [congruence|]|].
    + intros Hsome. apply Hex in Hsome. congruence.
    + split; [split; [intros _; now apply Hall | reflexivity]|lia].
Qed.

(** A transfer that breaks after the status line makes the hashing
    raise the exception of the break. *)
Lemma broken_stream_raises (url : string) (resp : response stream) (e : exn) :
  status resp = 200 -> broken (body resp) = Some e ->
  stream_hash_of url (Ok resp) = Raise e.
Proof. intros Hs Hb. unfold stream_hash_of. cbn [bind]. now rewrite Hs, Hb. Qed.

(** C6. A batch over [M] assets in which the stream of one asset breaks
    in mid-transfer returns [M] results: the exception stays inside the
    asset, whose result has no digest, [hashMatch = False] and the error
    text; every other result is what it is when that stream does not
    break. *)
Theorem failed_asset_is_isolated
  (net net' : network) (repo_data_spec : TrackedItem) (l : list asset)
  (i : nat) (a : asset) (resp : response stream) (e : exn) :
  l !! i = Some a ->
  http_asset net' (browser_download_url a) = Ok resp ->
  status resp = 200 ->
  broken (body resp) = Some e ->
  (forall u, u <> browser_download_url a -> http_asset net' u = http_asset net u) ->
  exists results results0 t t0,
    download_assets net' repo_data_spec l = (Ok results, t)
    /\ download_assets net repo_data_spec l = (Ok results0, t0)
    /\ length results = length l
    /\ results !! i
       = Some {| av_name := name a; av_url := browser_download_url a;
                 currentHash := None;
                 validHash := expected_hash_of repo_data_spec (name a);
                 hashMatch := Some false; error := Some (str e) |}
    /\ (forall j b, l !! j = Some b ->
          browser_download_url b <> browser_download_url a ->
          results !! j = results0 !! j
          /\ currentHash <$> results !! j = Some (observed_digest net b)).
Proof.
  intros Hi Hresp Hstatus Hbroken Hsame.
  rewrite !download_assets_run. eexists _, _, _, _.
  split; [reflexivity|]. split; [reflexivity|].
  split; [apply length_fmap|]. split.
  - rewrite list_lookup_fmap, Hi. cbn [fmap option_fmap option_map].
    unfold verification. rewrite Hresp.
    now rewrite (broken_stream_raises _ _ _ Hstatus Hbroken).
  - intros j b Hj Hne. rewrite !list_lookup_fmap, Hj.
    cbn [fmap option_fmap option_map].
    assert (Hv : forall x, verification net' b x = verification net b x).
    { intros x. unfold verification. now rewrite (Hsame _ Hne). }
    rewrite Hv. split; [reflexivity|].
    f_equal. unfold verification, observed_digest.
    now destruct (stream_hash_of _ _).
Qed.

Lemma failed_asset_is_isolated_witness :
  exists results results0 t t0,
    download_assets
      (sample_network (served "ab" (Some (ClientError "connection lost"))))
      sample_spec sample_assets = (Ok results, t)
    /\ download_assets (sample_network (served "abc" None))
         sample_spec sample_assets = (Ok results0, t0)
    /\ length results = 2
    /\ (hashMatch <$> results !! 0) = Some (Some false)
    /\ results !! 1 = results0 !! 1.
Proof.
  destruct (failed_asset_is_isolated
    (sample_network (served "abc" None))
    (sample_network (served "ab" (Some (ClientError "connection lost"))))
    sample_spec sample_assets 0
    {| name := "mod.dll"; browser_download_url := "https://dl/mod.dll";
       download_count := Some 3 |}
    {| status := 200; text := "";
       body := {| delivered := list_byte_of_string "ab";
                  broken := Some (ClientError "connection lost") |} |}
    (ClientError "connection lost"))
    as (results & results0 & t & t0 & H1 & H2 & Hlen & Hi & Hothers).
  - reflexivity.
  - reflexivity.
  - reflexivity.
  - reflexivity.
  - intros u Hu. cbn [sample_network http_asset browser_download_url] in *.
    destruct (String.eqb_spec u "https://dl/mod.dll"); [contradiction | reflexivity].
  - exists results, results0, t, t0.
    split; [exact H1|]. split; [exact H2|]. split; [exact Hlen|].
    split; [now rewrite Hi|].
    apply (Hothers 1 {| name := "readme.txt";
                        browser_download_url := "https://dl/readme.txt";
                        download_count := None |}); [reflexivity | discriminate].
Defined.

(** The scenario of the specification: the digest on record for
    [mod.dll] is that of its content, or is not. *)
Example mod_dll_matches :
  hashMatch (verification (sample_network (served "abc" None))
               {| name := "mod.dll"; browser_download_url := "https://dl/mod.dll";
                  download_count := Some 3 |}
               (expected_hash_of sample_spec "mod.dll"))
  = Some true
  /\ hashMatch (verification (sample_network (served "abd" None))
               {| name := "mod.dll"; browser_download_url := "https://dl/mod.dll";
                  download_count := Some 3 |}
               (expected_hash_of sample_spec "mod.dll"))
  = Some false
  /\ hashMatch (verification (sample_network (served "abc" None))
               {| name := "readme.txt";
                  browser_download_url := "https://dl/readme.txt";
                  download_count := None |}
               (expected_hash_of sample_spec "readme.txt"))
  = None.
Proof. vm_compute. repeat split. Qed.

(** A run of the entry point on one repository: status 0 when the
    digest on record is the observed one, 1 when the content differs, 1
    when the upstream cannot be reached. *)
Example exit_status_samples :
  exit_code (main (online_network (served "abc" None)) id (λ _, None)
               sample_config) = Some 0
  /\ exit_code (main (online_network (served "abd" None)) id (λ _, None)
                  sample_config) = Some 1
  /\ exit_code (main (sample_network (served "abc" None)) id (λ _, None)
                  sample_config) = Some 1.
Proof. vm_compute. repeat split. Qed.

Example process_repo_trace :
  (process_repo (online_network (served "abc" None)) id (λ _, None)
     ("foo/bar", sample_spec) true).2
  = [ Acquire;
      Request "https://api.github.com/repos/foo/bar";
      Request "https://api.github.com/repos/foo/bar/releases/latest";
      Request "https://dl/mod.dll";
      Request "https://dl/readme.txt";
      Request "https://api.github.com/repos/foo/bar/contributors?per_page=30";
      Request "https://github.com/foo/bar";
      Release ].
Proof. vm_compute. reflexivity. Qed.

End BatchClaims.

(* ===================================================================== *)
(** * Reading a coordinate typed by the user *)
(* ===================================================================== *)

Section ParseFacts.
Import Py ConfigManager.

Example parse_samples :
  parse_repo_input "ScrappySM/SM-KeyAPI" = Some "ScrappySM/SM-KeyAPI"
  /\ parse_repo_input "https://github.com/ScrappySM/CarbonRepo"
     = Some "ScrappySM/CarbonRepo"
  /\ parse_repo_input "https://github.com/ScrappySM/CarbonRepo/tree/main"
     = Some "ScrappySM/CarbonRepo"
  /\ parse_repo_input "http://github.com/a/b" = Some "a/b"
  /\ parse_repo_input "https://gitlab.com/a/b" = None
  /\ parse_repo_input "https://github.com/a" = None
  /\ parse_repo_input "httpie/cli" = None
  /\ parse_repo_input "a/b/c" = None
  /\ parse_repo_input "a b/c" = None
  /\ parse_repo_input "" = None.
Proof. repeat split. Qed.

Lemma span_unfold (p : ascii -> bool) (c : ascii) (s : string) :
  span p (String c s) =
  if p c then (String c (span p s).1, (span p s).2) else ("", String c s).
Proof. cbn [span]. destruct (p c); [|reflexivity]. now destruct (span p s). Qed.

(** [span] cuts its argument in two; the first part satisfies [p] and the
    second does not begin with a character that does. *)
Lemma span_spec (p : ascii -> bool) (s : string) :
  s = (span p s).1 +:+ (span p s).2
  /\ all_chars p (span p s).1 = true
  /\ match (span p s).2 with
     | EmptyString => True
     | String c _ => p c = false
     end.
Proof.
  induction s as [|c s (IH1 & IH2 & IH3)]; [now cbn|].
  rewrite span_unfold. destruct (p c) eqn:Hc; cbn [fst snd].
  - rewrite append_cons, <- IH1. cbn [all_chars]. now rewrite Hc, IH2.
  - now rewrite append_nil.
Qed.

Lemma span_app (p : ascii -> bool) (a b : string) :
  all_chars p a = true ->
  match b with EmptyString => True | String c _ => p c = false end ->
  span p (a +:+ b) = (a, b).
Proof.
  intros Ha Hb. induction a as [|x a IH].
  - rewrite append_nil. destruct b as [|c b]; [reflexivity|].
    rewrite span_unfold. now rewrite Hb.
  - cbn [all_chars] in Ha. apply andb_prop in Ha as [Hx Ha].
    rewrite append_cons, span_unfold, Hx, (IH Ha). reflexivity.
Qed.

Lemma nonempty_app (a b : string) : nonempty a = true -> nonempty (a +:+ b) = true.
Proof. now destruct a. Qed.

Lemma all_chars_app (p : ascii -> bool) (a b : string) :
  all_chars p (a +:+ b) = all_chars p a && all_chars p b.
Proof.
  induction a as [|x a IH]; [reflexivity|].
  rewrite append_cons. cbn [all_chars]. now rewrite IH, andb_assoc.
Qed.

Lemma owner_and_repo_spec (owner repo rest : string) :
  nonempty owner = true -> all_chars not_slash owner = true ->
  nonempty repo = true -> all_chars not_slash repo = true ->
  rest = "" \/ startswith rest "/" = true ->
  owner_and_repo (owner +:+ "/" +:+ repo +:+ rest)
  = Some (owner +:+ "/" +:+ repo).
Proof.
  intros Ho Hos Hr Hrs Hrest. unfold owner_and_repo.
  rewrite (span_app not_slash owner ("/" +:+ repo +:+ rest)); [|exact Hos|reflexivity].
  change ("/" +:+ repo +:+ rest) with (String "/" (repo +:+ rest)).
  cbv beta iota.
  rewrite (span_app not_slash repo rest); [|exact Hrs|].
  - now rewrite Ho, Hr.
  - destruct Hrest as [->|Hs]; [exact I|].
    apply startswith_spec in Hs as [t ->]. reflexivity.
Qed.

Lemma coordinate_char_not_slash (c : ascii) :
  is_coordinate_char c = true -> not_slash c = true.
Proof.
  intros H. unfold not_slash. destruct (Ascii.eqb_spec c "/") as [->|]; [|reflexivity].
  discriminate H.
Qed.

(** A text that begins with one of the two prefixes of GitHub is no
    coordinate: the colon ends its first part. *)
Lemma after_github_not_coordinate (text rest : string) :
  after_github text = Some rest -> is_coordinate text = false.
Proof.
  unfold after_github.
  destruct (startswith text "https://github.com/") eqn:Hs.
  - intros _. apply startswith_spec in Hs as [t ->]. reflexivity.
  - destruct (startswith text "http://github.com/") eqn:Hp; [|discriminate].
    intros _. apply startswith_spec in Hp as [t ->]. reflexivity.
Qed.

(** What is accepted is not the empty text. *)
Lemma parse_accepted_nonempty (text r : string) :
  parse_repo_input text = Some r -> nonempty r = true.
Proof.
  unfold parse_repo_input. destruct (startswith text "http").
  - destruct (after_github text) as [rest|]; [|discriminate].
    cbn [mbind option_bind]. unfold owner_and_repo.
    destruct (span not_slash rest) as [owner rest1].
    destruct rest1 as [|c rest2]; [discriminate|].
    destruct (span not_slash rest2) as [repo rest3].
    destruct (nonempty owner) eqn:Hno; [|discriminate].
    destruct (nonempty repo); [|discriminate].
    intros [= <-]. now apply nonempty_app.
  - destruct (is_coordinate text) eqn:Hc; [|discriminate].
    intros [= <-]. destruct text; [discriminate Hc | reflexivity].
Qed.

End ParseFacts.

Section ParseProperties.
Import Py ConfigManager.

(** X1. The address of a repository on GitHub, with or without a path
    after the name, is read as its coordinate. *)
Theorem parse_github_url (owner repo rest : string) :
  nonempty owner = true -> all_chars not_slash owner = true ->
  nonempty repo = true -> all_chars not_slash repo = true ->
  rest = "" \/ startswith rest "/" = true ->
  parse_repo_input ("https://github.com/" +:+ owner +:+ "/" +:+ repo +:+ rest)
  = Some (owner +:+ "/" +:+ repo)
  /\ parse_repo_input ("http://github.com/" +:+ owner +:+ "/" +:+ repo +:+ rest)
     = Some (owner +:+ "/" +:+ repo).
Proof.
  intros Ho Hos Hr Hrs Hrest.
  pose proof (owner_and_repo_spec owner repo rest Ho Hos Hr Hrs Hrest) as H.
  split; unfold parse_repo_input, after_github.
  - change (startswith ("https://github.com/" +:+ owner +:+ "/" +:+ repo +:+ rest)
              "http") with true.
    assert (Hs : startswith
              ("https://github.com/" +:+ owner +:+ "/" +:+ repo +:+ rest)
              "https://github.com/" = true).
    { apply startswith_spec. now eexists. }
    rewrite Hs.
    change 19 with (String.length "https://github.com/").
    rewrite skip_length_app. exact H.
  - change (startswith ("http://github.com/" +:+ owner +:+ "/" +:+ repo +:+ rest)
              "http") with true.
    change (startswith ("http://github.com/" +:+ owner +:+ "/" +:+ repo +:+ rest)
              "https://github.com/") with false.
    assert (Hs : startswith
              ("http://github.com/" +:+ owner +:+ "/" +:+ repo +:+ rest)
              "http://github.com/" = true).
    { apply startswith_spec. now eexists. }
    rewrite Hs.
    change 18 with (String.length "http://github.com/").
    rewrite skip_length_app. exact H.
Qed.

Lemma parse_github_url_witness :
  parse_repo_input ("https://github.com/" +:+ "ScrappySM" +:+ "/"
                    +:+ "CarbonRepo" +:+ "/issues/3")
  = Some ("ScrappySM" +:+ "/" +:+ "CarbonRepo").
Proof.
  apply (parse_github_url "ScrappySM" "CarbonRepo" "/issues/3");
    first [reflexivity | now right].
Defined.

(** X2. A text made of an owner and a name, both non-empty and written
    with letters, digits, [_], [.] and [-], is its own coordinate, unless
    it begins with [http]. *)
Theorem parse_coordinate (owner repo : string) :
  nonempty owner = true -> all_chars is_coordinate_char owner = true ->
  nonempty repo = true -> all_chars is_coordinate_char repo = true ->
  startswith (owner +:+ "/" +:+ repo) "http" = false ->
  parse_repo_input (owner +:+ "/" +:+ repo) = Some (owner +:+ "/" +:+ repo).
Proof.
  intros Ho Hos Hr Hrs Hhttp. unfold parse_repo_input. rewrite Hhttp.
  assert (Hc : is_coordinate (owner +:+ "/" +:+ repo) = true).
  { unfold is_coordinate.
    rewrite (span_app is_coordinate_char owner ("/" +:+ repo));
      [|exact Hos|reflexivity].
    change ("/" +:+ repo) with (String "/" repo). cbv beta iota.
    rewrite <- (append_empty_r repo) at 1.
    rewrite (span_app is_coordinate_char repo ""); [|exact Hrs|exact I].
    now rewrite Ho, Hr. }
  now rewrite Hc.
Qed.

Lemma parse_coordinate_witness :
  parse_repo_input ("ScrappySM" +:+ "/" +:+ "SM-KeyAPI")
  = Some ("ScrappySM" +:+ "/" +:+ "SM-KeyAPI").
Proof. apply (parse_coordinate "ScrappySM" "SM-KeyAPI"); reflexivity. Defined.

(** X3. Whatever is accepted has the form [owner/name] with both parts
    non-empty and free of slashes, so that it is a truthy key with exactly
    one slash. *)
Theorem parse_result_shape (text r : string) :
  parse_repo_input text = Some r ->
  exists owner repo,
    r = owner +:+ "/" +:+ repo
    /\ nonempty owner = true /\ all_chars not_slash owner = true
    /\ nonempty repo = true /\ all_chars not_slash repo = true.
Proof.
  unfold parse_repo_input. destruct (startswith text "http").
  - destruct (after_github text) as [rest|]; [|discriminate].
    cbn [mbind option_bind]. unfold owner_and_repo.
    destruct (span_spec not_slash rest) as (_ & Ho & _).
    destruct (span not_slash rest) as [owner rest1]. cbn [fst snd] in *.
    destruct rest1 as [|c rest2]; [discriminate|].
    destruct (span_spec not_slash rest2) as (_ & Hr & _).
    destruct (span not_slash rest2) as [repo rest3]. cbn [fst snd] in *.
    destruct (nonempty owner) eqn:Hno; [|discriminate].
    destruct (nonempty repo) eqn:Hnr; [|discriminate].
    cbn [andb]. intros [= <-]. now exists owner, repo.
  - destruct (is_coordinate text) eqn:Hc; [|discriminate].
    intros [= <-]. unfold is_coordinate in Hc.
    destruct (span_spec is_coordinate_char text) as (Htext & Ho & _).
    destruct (span is_coordinate_char text) as [owner rest1]. cbn [fst snd] in *.
    destruct rest1 as [|c rest2]; [discriminate|].
    destruct (span_spec is_coordinate_char rest2) as (Hrest & Hr & _).
    destruct (span is_coordinate_char rest2) as [repo rest3]. cbn [fst snd] in *.
    apply andb_prop in Hc as [Hc Hend]. apply andb_prop in Hc as [Hc Hnr].
    apply andb_prop in Hc as [Hslash Hno].
    apply Ascii.eqb_eq in Hslash. subst c.
    exists owner, (repo +:+ rest3). repeat split.
    + rewrite Htext at 1. now rewrite Hrest.
    + exact Hno.
    + eapply all_chars_weaken; [apply coordinate_char_not_slash | exact Ho].
    + now apply nonempty_app.
    + rewrite all_chars_app.
      rewrite (all_chars_weaken _ _ _ coordinate_char_not_slash Hr).
      apply orb_prop in Hend as [H|H]; apply String.eqb_eq in H; now subst.
Qed.

Lemma parse_result_shape_witness :
  exists owner repo,
    "a/b" = owner +:+ "/" +:+ repo
    /\ nonempty owner = true /\ all_chars not_slash owner = true
    /\ nonempty repo = true /\ all_chars not_slash repo = true.
Proof.
  apply (parse_result_shape "https://github.com/a/b/c" "a/b"). reflexivity.
Defined.

(** X4. A text that begins with [http] is only read as an address: a
    coordinate whose owner begins with these four letters is refused. *)
Theorem parse_rejects_http_coordinates (text : string) :
  startswith text "http" = true ->
  is_coordinate text = true ->
  parse_repo_input text = None.
Proof.
  intros Hhttp Hc. unfold parse_repo_input. rewrite Hhttp.
  destruct (after_github text) as [rest|] eqn:Hg; [|reflexivity].
  rewrite (after_github_not_coordinate text rest Hg) in Hc. discriminate.
Qed.

Lemma parse_rejects_http_coordinates_witness :
  parse_repo_input "httpie/cli" = None.
Proof. apply parse_rejects_http_coordinates; reflexivity. Defined.

End ParseProperties.

(* ===================================================================== *)
(** * Fetching the state of a repository *)
(* ===================================================================== *)

Section FetchFacts.
Import Py Aiohttp ConfigManager.

Variable up : upstream.

Lemma hash_assets_lookup_notin (l : list asset_doc)
  (acc : gmap string (option string)) (k : string) :
  k ∉ ad_name <$> l -> hash_assets up l acc !! k = acc !! k.
Proof.
  revert acc. induction l as [|a l IH]; intros acc Hk; [reflexivity|].
  rewrite fmap_cons, not_elem_of_cons in Hk. destruct Hk as [Hne Hk].
  cbn [hash_assets]. rewrite IH by exact Hk. now rewrite lookup_insert_ne.
Qed.

Lemma hash_assets_lookup_in (l : list asset_doc)
  (acc : gmap string (option string)) (a : asset_doc) :
  NoDup (ad_name <$> l) -> a ∈ l ->
  hash_assets up l acc !! ad_name a = Some (asset_digest up a).
Proof.
  revert acc. induction l as [|b l IH]; intros acc Hnd Hin.
  - now apply elem_of_nil in Hin.
  - rewrite fmap_cons in Hnd. apply NoDup_cons in Hnd as [Hb Hnd].
    cbn [hash_assets]. apply elem_of_cons in Hin as [->|Hin].
    + rewrite hash_assets_lookup_notin by exact Hb.
      now rewrite lookup_insert_eq.
    + now apply IH.
Qed.

Lemma hash_assets_keys (l : list asset_doc)
  (acc : gmap string (option string)) (k : string) :
  is_Some (hash_assets up l acc !! k) <-> is_Some (acc !! k) \/ k ∈ ad_name <$> l.
Proof.
  revert acc. induction l as [|a l IH]; intros acc.
  - cbn [hash_assets]. rewrite fmap_nil, elem_of_nil. tauto.
  - cbn [hash_assets]. rewrite IH, fmap_cons, elem_of_cons, lookup_insert_is_Some.
    destruct (decide (ad_name a = k)) as [->|Hne];
      intuition (auto; congruence).
Qed.

(** What a successful fetch has read: the two documents, the keys of the
    branch document, and the annotation written from them. *)
Lemma fetch_latest_release_assets_returns (repo_name comment : string)
  (hashes : gmap string (option string)) :
  fetch_latest_release_assets up repo_name = Ok (hashes, comment) ->
  exists data br node sha inner author date resp3,
    up_repo up (repo_url repo_name) = Ok data
    /\ up_branch up (branch_url repo_name (default "main" (default_branch data)))
       = Ok br
    /\ bd_commit br = Some node /\ cn_sha node = Some sha
    /\ cn_commit node = Some inner /\ ci_author inner = Some author
    /\ au_date author = Some date
    /\ up_release up (release_url repo_name) = Ok resp3
    /\ comment = format_comment (default "main" (default_branch data)) sha date
    /\ (status resp3 <> 200 -> hashes = ∅)
    /\ (status resp3 = 200 ->
        exists rel, body resp3 = Ok rel
          /\ hashes = hash_assets up (default [] (rd_assets rel)) ∅).
Proof.
  unfold fetch_latest_release_assets, branch_url, repo_url, release_url.
  destruct (up_repo up _) as [data|e] eqn:H1; cbn [bind]; [|discriminate].
  destruct (up_branch up _) as [br|e] eqn:H2; cbn [bind]; [|discriminate].
  destruct (bd_commit br) as [node|] eqn:H3; cbn [bind subscript]; [|discriminate].
  destruct (cn_sha node) as [sha|] eqn:H4; cbn [bind subscript]; [|discriminate].
  destruct (cn_commit node) as [inner|] eqn:H5; cbn [bind subscript]; [|discriminate].
  destruct (ci_author inner) as [author|] eqn:H6; cbn [bind subscript]; [|discriminate].
  destruct (au_date author) as [date|] eqn:H7; cbn [bind subscript]; [|discriminate].
  destruct (up_release up _) as [resp3|e] eqn:H8; cbn [bind]; [|discriminate].
  destruct (Nat.eqb_spec (status resp3) 200) as [Hs|Hs]; cbn [negb].
  - destruct (body resp3) as [rel|e] eqn:H9; cbn [bind]; [|discriminate].
    intros [= <- <-]. exists data, br, node, sha, inner, author, date, resp3.
    split_and!; try assumption; try reflexivity;
      [intros Hn; contradiction | intros _; now exists rel].
  - intros [= <- <-]. exists data, br, node, sha, inner, author, date, resp3.
    split_and!; try assumption; try reflexivity. intros Hn. contradiction.
Qed.

(** The look at the latest commit reads the same keys with defaults. *)
Lemma fetch_latest_commit_info_returns (repo_name : string)
  (data : repo_doc) (br : branch_doc) :
  up_repo up (repo_url repo_name) = Ok data ->
  up_branch up (branch_url repo_name (default "main" (default_branch data)))
    = Ok br ->
  exists info,
    _fetch_latest_commit_info up repo_name = Ok info
    /\ sha info = Some (default "" (bd_commit br ≫= cn_sha)).
Proof.
  unfold _fetch_latest_commit_info, branch_url, repo_url. intros -> .
  cbn [bind]. intros ->. cbn [bind]. now eexists.
Qed.

End FetchFacts.

Section FetchProperties.
Import Py Aiohttp ConfigManager Samples.

(** X5. The digests kept for the assets of a release with distinct
    names: one entry per asset and no other; a download that fails leaves
    [None] under its name and changes no other entry. *)
Theorem hash_assets_one_entry_per_asset (up : upstream) (l : list asset_doc) :
  NoDup (ad_name <$> l) ->
  (forall k, is_Some (hash_assets up l ∅ !! k) <-> k ∈ ad_name <$> l)
  /\ (forall a, a ∈ l -> hash_assets up l ∅ !! ad_name a = Some (asset_digest up a))
  /\ (forall a resp, a ∈ l ->
        up_asset up (ad_url a) = Ok resp -> status resp = 200 ->
        hash_assets up l ∅ !! ad_name a
        = Some (match broken (body resp) with
                | Some _ => None
                | None => Some (Sha256.sha256_hex (delivered (body resp)))
                end)).
Proof.
  intros Hnd. split_and!.
  - intros k. rewrite hash_assets_keys, lookup_empty.
    split; [intros [[? [=]]|H]; exact H | now right].
  - intros a Ha. now apply hash_assets_lookup_in.
  - intros a resp Ha Hresp Hs. rewrite (hash_assets_lookup_in up l ∅ a Hnd Ha).
    unfold asset_digest. rewrite Hresp.
    destruct (broken (body resp)) as [e|] eqn:Hb.
    + unfold fetch_asset_hash. cbn [bind]. now rewrite Hs, Hb.
    + now rewrite (fetch_asset_hash_complete _ _ Hs Hb).
Qed.

(** X6. When the request for the latest release answers anything but
    200, the fetch still returns: the item is tracked with no assets. *)
Theorem no_release_gives_no_assets (up : upstream) (repo_name comment : string)
  (hashes : gmap string (option string)) (resp3 : response (result release_doc)) :
  fetch_latest_release_assets up repo_name = Ok (hashes, comment) ->
  up_release up (release_url repo_name) = Ok resp3 ->
  status resp3 <> 200 ->
  hashes = ∅.
Proof.
  intros Hf Hrel Hs.
  destruct (fetch_latest_release_assets_returns up _ _ _ Hf)
    as (data & br & node & sha & inner & author & date & resp & _ & _ & _ & _
        & _ & _ & _ & Hrel' & _ & Hno & _).
  rewrite Hrel in Hrel'. injection Hrel' as <-. now apply Hno.
Qed.

(** X7. A branch document without a commit makes the fetch of an
    addition raise [KeyError('commit')]: nothing is added to the store. *)
Theorem add_raises_on_document_without_commit
  (up : upstream) (config : list entry) (text repo_name : string)
  (data : repo_doc) (br : branch_doc) :
  parse_repo_input text = Some repo_name ->
  up_repo up (repo_url repo_name) = Ok data ->
  up_branch up (branch_url repo_name (default "main" (default_branch data)))
    = Ok br ->
  bd_commit br = None ->
  on_submit_add up config text = Raise (KeyError "commit").
Proof.
  intros Hp Hrepo Hbr Hc. unfold on_submit_add, submit_add. rewrite Hp.
  assert (Ht : truthy (Some repo_name) = true).
  { cbn [truthy]. exact (parse_accepted_nonempty text repo_name Hp). }
  rewrite Ht. cbn [default from_option id].
  unfold fetch_latest_release_assets. unfold branch_url, repo_url in *.
  rewrite Hrepo. cbn [bind]. rewrite Hbr. cbn [bind]. now rewrite Hc.
Qed.

Lemma hash_assets_one_entry_per_asset_witness :
  hash_assets (sample_up (Some commit_bbbb222) 200) sample_release_assets ∅
    !! "notes.txt" = Some None
  /\ hash_assets (sample_up (Some commit_bbbb222) 200) sample_release_assets ∅
       !! "mod.dll"
     = Some (Some (Sha256.sha256_hex (list_byte_of_string "abc"))).
Proof.
  assert (Hnd : NoDup (ad_name <$> sample_release_assets)).
  { apply (bool_decide_unpack _). vm_compute. exact I. }
  destruct (hash_assets_one_entry_per_asset
              (sample_up (Some commit_bbbb222) 200) sample_release_assets Hnd)
    as (_ & _ & H).
  split.
  - apply (H {| ad_name := "notes.txt"; ad_url := "https://dl/notes.txt" |}
             {| status := 200; text := "";
                body := {| delivered := list_byte_of_string "no";
                           broken := Some (ClientError "connection lost") |} |});
      [|reflexivity|reflexivity].
    apply elem_of_cons. right. apply elem_of_cons. now left.
  - apply (H {| ad_name := "mod.dll"; ad_url := "https://dl/mod.dll" |}
             {| status := 200; text := "";
                body := {| delivered := list_byte_of_string "abc";
                           broken := None |} |});
      [|reflexivity|reflexivity].
    apply elem_of_cons. now left.
Defined.

Lemma no_release_gives_no_assets_witness :
  exists hashes comment,
    fetch_latest_release_assets (sample_up (Some commit_bbbb222) 404) "foo/bar"
    = Ok (hashes, comment)
    /\ hashes = ∅.
Proof.
  eexists _, _. split; [reflexivity|].
  apply (no_release_gives_no_assets (sample_up (Some commit_bbbb222) 404)
           "foo/bar" "Last commit on main: bbbb222 @ 2024-02-02" _
           {| status := 404; text := "";
              body := Ok {| rd_assets := Some sample_release_assets |} |});
    [reflexivity | reflexivity | discriminate].
Defined.

Lemma add_raises_on_document_without_commit_witness :
  on_submit_add (sample_up None 200) sample_store "foo/bar"
  = Raise (KeyError "commit").
Proof.
  apply (add_raises_on_document_without_commit (sample_up None 200)
           sample_store "foo/bar" "foo/bar"
           {| default_branch := Some "main" |} (sample_branch None));
    reflexivity.
Defined.

(** X8. An item that has just been added is not outdated at the next
    pass over the unchanged upstream: the annotation written by the fetch
    is read back to the identifier that the look at the latest commit
    returns.  The branch name is free of colons, the identifier non-empty
    and free of blanks. *)
Theorem added_item_is_up_to_date
  (up : upstream) (config : list entry) (repo_name comment : string)
  (hashes : gmap string (option string)) (data : repo_doc) (br : branch_doc)
  (s : string) :
  fetch_latest_release_assets up repo_name = Ok (hashes, comment) ->
  up_repo up (repo_url repo_name) = Ok data ->
  up_branch up (branch_url repo_name (default "main" (default_branch data)))
    = Ok br ->
  bd_commit br ≫= cn_sha = Some s ->
  all_chars not_colon (default "main" (default_branch data)) = true ->
  nonempty s = true ->
  all_chars not_space s = true ->
  extract_sha comment = Ok (Some s)
  /\ outdated_repos
       (_check_updates_worker (_fetch_latest_commit_info up)
          (add_repo config repo_name comment hashes))
     !! repo_name = None.
Proof.
  intros Hf Hrepo Hbr Hsha Hbranch Hne Hs.
  destruct (fetch_latest_release_assets_returns up _ _ _ Hf)
    as (data' & br' & node & sha' & inner & author & date & resp & Hrepo' & Hbr'
        & Hnode & Hsha' & _ & _ & _ & _ & Hcomment & _).
  rewrite Hrepo in Hrepo'. injection Hrepo' as <-.
  rewrite Hbr in Hbr'. injection Hbr' as <-.
  rewrite Hnode in Hsha. cbn [mbind option_bind] in Hsha.
  rewrite Hsha' in Hsha. injection Hsha as ->.
  assert (Hex : extract_sha comment = Ok (Some s)).
  { rewrite Hcomment. now apply extract_sha_canonical. }
  split; [exact Hex|].
  apply eq_None_not_Some. unfold _check_updates_worker.
  rewrite check_from_records. intros [H|(e & Hin & Hcoord & Hd)].
  - cbn in H. rewrite lookup_empty in H. now destruct H.
  - unfold add_repo in Hin. apply elem_of_app in Hin as [Hin|Hin].
    + apply list_elem_of_filter in Hin as [Hneq _]. contradiction.
    + apply list_elem_of_singleton in Hin. subst e.
      unfold drifted in Hd. cbn [coordinate fst snd _comment default from_option id] in Hd.
      rewrite Hex in Hd.
      destruct (fetch_latest_commit_info_returns up repo_name data br Hrepo Hbr)
        as (info & Hinfo & Hsinfo).
      rewrite Hinfo, Hsinfo, Hnode in Hd. cbn [mbind option_bind] in Hd.
      rewrite Hsha' in Hd. cbn [default from_option id] in Hd.
      rewrite is_same_commit_refl in Hd. cbn in Hd.
      rewrite andb_false_r in Hd. discriminate.
Qed.

Lemma added_item_is_up_to_date_witness :
  extract_sha "Last commit on main: bbbb222 @ 2024-02-02" = Ok (Some "bbbb222")
  /\ outdated_repos
       (_check_updates_worker
          (_fetch_latest_commit_info (sample_up (Some commit_bbbb222) 404))
          (add_repo sample_store "foo/bar"
             "Last commit on main: bbbb222 @ 2024-02-02" ∅))
     !! "foo/bar" = None.
Proof.
  apply (added_item_is_up_to_date (sample_up (Some commit_bbbb222) 404)
           sample_store "foo/bar" "Last commit on main: bbbb222 @ 2024-02-02" ∅
           {| default_branch := Some "main" |}
           (sample_branch (Some commit_bbbb222)) "bbbb222");
    reflexivity.
Defined.

(** X9. When the branch document holds no commit identifier (an error
    document of the API, for one), the look at the latest commit returns
    an empty identifier, and the pass counts the item as up to date
    whatever its annotation. *)
Theorem document_without_commit_counts_as_up_to_date
  (up : upstream) (repo_name : string) (item : TrackedItem)
  (data : repo_doc) (br : branch_doc) (i : nat) (st : pass_state) :
  up_repo up (repo_url repo_name) = Ok data ->
  up_branch up (branch_url repo_name (default "main" (default_branch data)))
    = Ok br ->
  bd_commit br ≫= cn_sha = None ->
  item_outcome (_fetch_latest_commit_info up) i (repo_name, item) = UpToDate
  /\ update_count
       (check_entry (_fetch_latest_commit_info up) st i (repo_name, item))
     = S (update_count st)
  /\ error_count
       (check_entry (_fetch_latest_commit_info up) st i (repo_name, item))
     = error_count st.
Proof.
  intros Hrepo Hbr Hsha.
  destruct (fetch_latest_commit_info_returns up repo_name data br Hrepo Hbr)
    as (info & Hinfo & Hsinfo).
  rewrite Hsha in Hsinfo. cbn [default from_option id] in Hsinfo.
  assert (Hm : sha_missing (_fetch_latest_commit_info up) (repo_name, item) = true).
  { unfold sha_missing. cbn [coordinate fst snd].
    destruct (extract_sha_total (default "" (_comment item))) as [old ->].
    rewrite Hinfo, Hsinfo. cbn [truthy nonempty]. now rewrite andb_false_r. }
  pose proof (item_outcome_up_to_date_missing _ i _ Hm) as Ho.
  pose proof (check_entry_outcome (_fetch_latest_commit_info up) st i
                (repo_name, item)) as Hstep.
  rewrite Ho in Hstep. destruct Hstep as (_ & _ & Hup & Herr). auto.
Qed.

Lemma document_without_commit_counts_as_up_to_date_witness :
  item_outcome (_fetch_latest_commit_info (sample_up None 200)) 0
    (tracked "foo/bar" "Last commit on main: aaaa111 @ 2024-01-01") = UpToDate.
Proof.
  apply (document_without_commit_counts_as_up_to_date (sample_up None 200)
           "foo/bar" _ {| default_branch := Some "main" |} (sample_branch None)
           0 pass_start); reflexivity.
Defined.

End FetchProperties.

(* ===================================================================== *)
(** * Operations on the store *)
(* ===================================================================== *)

Section StoreOperations.
Import Py ConfigManager Samples.

Lemma coordinates_filter_sublist (P : entry -> Prop) `{!∀ e, Decision (P e)}
  (config : list entry) :
  (coordinate <$> filter P config) `sublist_of` (coordinate <$> config).
Proof.
  induction config as [|e config IH]; [constructor|].
  rewrite filter_cons. destruct (decide (P e)).
  - rewrite !fmap_cons. now constructor.
  - rewrite fmap_cons. now constructor.
Qed.

Lemma nth_error_lookup {A} (l : list A) (i : nat) : nth_error l i = l !! i.
Proof. revert i. induction l as [|x l IH]; intros [|i]; cbn; auto. Qed.

Lemma coordinates_add_repo (config : list entry) (repo_name comment : string)
  (hashes : gmap string (option string)) :
  coordinate <$> add_repo config repo_name comment hashes
  = (coordinate <$> filter (λ e, coordinate e ≠ repo_name) config) ++ [repo_name].
Proof. unfold add_repo. now rewrite fmap_app. Qed.

(** X10. Adding keeps the coordinates of the store distinct. *)
Theorem add_keeps_coordinates_distinct (config : list entry)
  (repo_name comment : string) (hashes : gmap string (option string)) :
  NoDup (coordinate <$> config) ->
  NoDup (coordinate <$> add_repo config repo_name comment hashes).
Proof.
  intros Hnd. rewrite coordinates_add_repo. apply NoDup_app. split_and!.
  - eapply sublist_NoDup; [exact Hnd | apply coordinates_filter_sublist].
  - intros k Hk Hin. apply list_elem_of_singleton in Hin. subst k.
    apply list_elem_of_fmap in Hk as (e & He & Hin).
    apply list_elem_of_filter in Hin as [Hne _]. congruence.
  - apply NoDup_singleton.
Qed.

Lemma add_keeps_coordinates_distinct_witness :
  NoDup (coordinate <$> add_repo sample_store "same/repo"
           "Last commit on main: cccc3334444 @ 2024-03-03" ∅).
Proof.
  apply add_keeps_coordinates_distinct.
  apply (bool_decide_unpack _). vm_compute. exact I.
Defined.

(** X11. Removing the entry at a valid position takes one entry away;
    in a store with distinct coordinates the coordinate of that entry is
    then not tracked any more, every other coordinate still is, and the
    coordinates stay distinct. *)
Theorem remove_untracks_the_entry (config : list entry) (idx : nat) (e : entry) :
  NoDup (coordinate <$> config) ->
  config !! idx = Some e ->
  let config' := action_remove_repo config (Some idx) in
  length config' = length config - 1
  /\ (coordinate e ∉ coordinate <$> config')
  /\ NoDup (coordinate <$> config')
  /\ (forall k, k ≠ coordinate e ->
        k ∈ (coordinate <$> config) -> k ∈ (coordinate <$> config')).
Proof.
  intros Hnd He. cbv zeta. unfold action_remove_repo. cbn [default from_option id].
  pose proof (lookup_lt_Some _ _ _ He) as Hlt.
  apply Nat.ltb_lt in Hlt as Hltb. rewrite Hltb.
  rewrite delete_take_drop.
  pose proof (take_drop_middle config idx e He) as Hmid.
  rewrite <- Hmid in Hnd at 1. rewrite fmap_app, fmap_cons in Hnd.
  apply NoDup_app in Hnd as (Hnd1 & Hdisj & Hnd2).
  apply NoDup_cons in Hnd2 as [Hnotin Hnd2].
  split_and!.
  - rewrite length_app, length_take, length_drop. lia.
  - rewrite fmap_app, elem_of_app. intros [Hin|Hin]; [|contradiction].
    apply (Hdisj _ Hin). apply elem_of_cons. now left.
  - rewrite fmap_app. apply NoDup_app. split_and!; [exact Hnd1| |exact Hnd2].
    intros k Hk Hin. apply (Hdisj _ Hk). apply elem_of_cons. now right.
  - intros k Hne. rewrite <- Hmid at 1.
    rewrite !fmap_app, fmap_cons, !elem_of_app, elem_of_cons. tauto.
Qed.

Lemma remove_untracks_the_entry_witness :
  "same/repo" ∉ (coordinate <$> action_remove_repo sample_store (Some 1)).
Proof.
  assert (Hnd : NoDup (coordinate <$> sample_store)).
  { apply (bool_decide_unpack _). vm_compute. exact I. }
  destruct (remove_untracks_the_entry sample_store 1
              (tracked "same/repo" "Last commit on main: cccc333 @ 2024-03-03")
              Hnd eq_refl) as (_ & H & _).
  exact H.
Defined.

(** With nothing highlighted the first entry goes; a position past the
    end changes nothing. *)
Example remove_edge_cases :
  coordinate <$> action_remove_repo sample_store None
    = ["same/repo"; "gone/repo"; "baz/qux"]
  /\ action_remove_repo sample_store (Some 4) = sample_store
  /\ action_remove_repo [] None = [].
Proof. repeat split. Qed.

(** X12. Updating all the items keeps their coordinates and their order;
    every item is counted once, as updated or as an error; an item whose
    fetch raises keeps its entry, an item whose fetch returns gets the
    fetched annotation and digests. *)
Theorem update_all_keeps_coordinates
  (fetched : string -> result (gmap string (option string) * string))
  (config : list entry) :
  let '(config', update_count, error_count) := _update_all_worker fetched config in
  coordinate <$> config' = coordinate <$> config
  /\ update_count + error_count = length config
  /\ error_count
     = length (filter (λ e, is_ok (fetched (coordinate e)) = false) config)
  /\ (forall i e, config !! i = Some e ->
        config' !! i
        = Some (match fetched (coordinate e) with
                | Ok (hashes, comment) =>
                    (coordinate e,
                     {| _comment := Some comment; assets := hashes |})
                | Raise _ => e
                end)).
Proof.
  induction config as [|e config IH].
  - cbn. split_and!; try reflexivity. intros i e H. discriminate.
  - cbn [_update_all_worker].
    destruct (_update_all_worker fetched config) as [[config' u] er].
    destruct IH as (Hc & Hsum & Herr & Hlook).
    rewrite filter_cons.
    destruct (fetched (coordinate e)) as [[hashes comment]|ex] eqn:Hf;
      cbn [is_ok].
    + destruct (decide (true = false)); [discriminate|].
      split_and!.
      * rewrite !fmap_cons. now f_equal.
      * cbn [length]. lia.
      * exact Herr.
      * intros [|i] e' He'; cbn in *.
        -- injection He' as <-. now rewrite Hf.
        -- now apply Hlook.
    + destruct (decide (false = false)); [|congruence].
      split_and!.
      * rewrite !fmap_cons. now f_equal.
      * cbn [length]. lia.
      * cbn [length]. now f_equal.
      * intros [|i] e' He'; cbn in *.
        -- injection He' as <-. now rewrite Hf.
        -- now apply Hlook.
Qed.

(** X13. When the update of one item returns, the coordinates of the
    store are what they were; when its fetch raised, so is the whole
    store, and no diff is asked for. *)
Theorem update_one_keeps_coordinates (config : list entry) (idx : nat)
  (fetched : string -> result (gmap string (option string) * string))
  (r : update_result) :
  _update_repo_worker config idx fetched = Ok r ->
  coordinate <$> new_config r = coordinate <$> config
  /\ (forall e, config !! idx = Some e ->
        is_ok (fetched (coordinate e)) = false ->
        new_config r = config /\ diff_requested r = None).
Proof.
  unfold _update_repo_worker, Py.index. rewrite nth_error_lookup.
  destruct (config !! idx) as [e|] eqn:He; cbn [bind]; [|discriminate].
  destruct (update_repo_old_sha (default "" (_comment e.2))) as [old|ex];
    cbn [bind]; [|discriminate].
  destruct (fetched (coordinate e)) as [[hashes comment]|ex] eqn:Hf; cbn [bind].
  - destruct (nth_error (split_ws comment) 3) as [new|]; cbn [bind].
    + intros [= <-]. cbn [new_config diff_requested]. split.
      * rewrite list_fmap_insert. cbn [coordinate fst].
        apply list_insert_id. rewrite list_lookup_fmap, He. reflexivity.
      * intros e' [= <-]. rewrite Hf. discriminate.
    + intros [= <-]. cbn. split; [reflexivity|]. intros e' [= <-].
      rewrite Hf. discriminate.
  - intros [= <-]. cbn. split; [reflexivity|]. auto.
Qed.

Lemma update_one_keeps_coordinates_witness :
  coordinate <$>
    <[0 := ("foo/bar",
            {| _comment := Some "Last commit on main: bbbb222 @ 2024-02-02";
               assets := ∅ |})]> sample_store
  = coordinate <$> sample_store.
Proof.
  apply (update_one_keeps_coordinates sample_store 0
           (λ _, Ok (∅, "Last commit on main: bbbb222 @ 2024-02-02"))
           {| new_config :=
                <[0 := ("foo/bar",
                        {| _comment :=
                             Some "Last commit on main: bbbb222 @ 2024-02-02";
                           assets := ∅ |})]> sample_store;
              diff_requested := None |}).
  reflexivity.
Defined.

(** X14. The entry that was just added is the last one: removing the
    last position gives back the other entries, in their order. *)
Theorem remove_after_add (config : list entry) (repo_name comment : string)
  (hashes : gmap string (option string)) :
  let config' := add_repo config repo_name comment hashes in
  action_remove_repo config' (Some (length config' - 1))
  = filter (λ e, coordinate e ≠ repo_name) config.
Proof.
  cbv zeta. unfold action_remove_repo, add_repo. cbn [default from_option id].
  rewrite length_app. cbn [length].
  replace (length (filter (λ e, coordinate e ≠ repo_name) config) + 1 - 1)
    with (length (filter (λ e, coordinate e ≠ repo_name) config)) by lia.
  assert (H : (length (filter (λ e, coordinate e ≠ repo_name) config)
               <? length (filter (λ e, coordinate e ≠ repo_name) config) + 1)
              = true) by (apply Nat.ltb_lt; lia).
  rewrite H, delete_middle. apply app_nil_r.
Qed.

End StoreOperations.

(* ===================================================================== *)
(** * Looking at the changes *)
(* ===================================================================== *)

Section ViewDiffProperties.
Import Py Aiohttp ConfigManager Samples.

(** X15. The fresh look of the diff view sees every drift that the pass
    sees: for an item that the pass classifies [Outdated], it shows the
    diff of the same two identifiers.  (It compares by plain inequality,
    so it also shows a diff between an abbreviated and a full identifier
    of one commit, which the pass takes for up to date.) *)
Theorem view_diff_sees_every_drift
  (fetch : string -> result commit_info) (i : nat) (e : entry) :
  item_outcome fetch i e = Outdated ->
  exists old new info,
    view_diff_unchecked (default "" (_comment e.2)) (fetch (coordinate e))
    = ShowDiff old new
    /\ extract_sha (default "" (_comment e.2)) = Ok (Some old)
    /\ fetch (coordinate e) = Ok info /\ sha info = Some new
    /\ is_same_commit old new = false.
Proof.
  intros Hout. apply item_outcome_outdated in Hout. unfold drifted in Hout.
  destruct (extract_sha (default "" (_comment e.2))) as [old|] eqn:Hex;
    [|discriminate].
  destruct (fetch (coordinate e)) as [info|] eqn:Hf; [|discriminate].
  apply andb_prop in Hout as [Hout Hsame]. apply andb_prop in Hout as [Ho Hn].
  apply negb_true_iff in Hsame.
  destruct old as [o|]; [|discriminate]. destruct (sha info) as [n|] eqn:Hn'; [|discriminate].
  cbn [default from_option id] in Hsame.
  exists o, n, info. split_and!; try reflexivity; try assumption.
  unfold view_diff_unchecked.
  rewrite extract_sha_primary in Hex.
  assert (Hold : (if contains ":" (default "" (_comment e.2))
                  then match primary_parse (default "" (_comment e.2)) with
                       | Ok v => v
                       | Raise _ => None
                       end
                  else None) = Some o).
  { destruct (contains ":" (default "" (_comment e.2))) eqn:Hc.
    - now rewrite Hex.
    - unfold primary_parse in Hex. rewrite Hc in Hex. discriminate. }
  rewrite Hold, Ho, Hn', Hn. cbn [andb].
  destruct (bool_decide (Some n = Some o)) eqn:Heq.
  - apply bool_decide_eq_true in Heq. injection Heq as ->.
    rewrite is_same_commit_refl in Hsame. discriminate.
  - reflexivity.
Qed.

Lemma view_diff_sees_every_drift_witness :
  exists old new,
    view_diff_unchecked "Last commit on main: aaaa111 @ 2024-01-01"
      (sample_upstream "foo/bar") = ShowDiff old new.
Proof.
  destruct (view_diff_sees_every_drift sample_upstream 0
              (tracked "foo/bar" "Last commit on main: aaaa111 @ 2024-01-01")
              eq_refl) as (old & new & info & H & _).
  exists old, new. exact H.
Defined.

(** The converse fails: an abbreviated identifier is a change for the
    diff view and the same commit for the pass. *)
Example abbreviated_sha_differs_between_views :
  view_diff_unchecked "Last commit on main: cccc333 @ 2024-03-03"
    (sample_upstream "same/repo") = ShowDiff "cccc333" "cccc3334444"
  /\ item_outcome sample_upstream 0
       (tracked "same/repo" "Last commit on main: cccc333 @ 2024-03-03")
     = UpToDate.
Proof. vm_compute. split; reflexivity. Qed.

End ViewDiffProperties.

Section ShowDiffFacts.
Import Py Aiohttp ConfigManager Samples.

Variable http_compare : string -> result (response (result compare_doc)).
Variable http_commit : string -> result (response (result commit_doc)).

Ltac step_summarizer :=
  unfold _show_repo_diff, try_except, mbind, Summ_bind, mret, Summ_ret,
    perform, lift, append_line, clear_text, read_text;
  cbn beta iota zeta delta [diff_text effects fst snd negb].

Lemma append_all_run (lines : list string) (st : summarizer_state) :
  append_all lines st
  = (Ok tt, {| diff_text := diff_text st ++ lines; effects := effects st |}).
Proof.
  revert st. induction lines as [|line lines IH]; intros st.
  - cbn. rewrite app_nil_r. now destruct st.
  - cbn [append_all]. unfold mbind, Summ_bind, append_line. cbn beta iota.
    rewrite IH. cbn [diff_text effects]. now rewrite <- app_assoc.
Qed.

Lemma commit_line_total (c : commit_doc) : exists line, commit_line c = Ok line.
Proof.
  unfold commit_line.
  destruct (first_line_total (default "" (cd_message c))) as [m ->].
  cbn [bind]. now eexists.
Qed.

Lemma append_commits_run (l : list commit_doc) :
  exists lines, forall st,
    append_commits l st
    = (Ok tt, {| diff_text := diff_text st ++ lines; effects := effects st |}).
Proof.
  induction l as [|c l (lines & IH)].
  - exists []. intros st. cbn. rewrite app_nil_r. now destruct st.
  - destruct (commit_line_total c) as [line Hline].
    exists (line :: lines). intros st. cbn [append_commits].
    unfold mbind, Summ_bind, lift, append_line. rewrite Hline. cbn beta iota.
    rewrite IH. cbn [diff_text effects]. now rewrite <- app_assoc.
Qed.

Lemma displayed_app (a b : list effect) :
  displayed (a ++ b) = displayed a || displayed b.
Proof. apply existsb_app. Qed.

Lemma reported_error_app (a b : list effect) :
  reported_error (a ++ b) = reported_error a || reported_error b.
Proof. apply existsb_app. Qed.

(** On a comparison that is served and decoded the report is assembled
    and put on the screen. *)
Lemma served_comparison_is_displayed (repo old_sha new_sha : string)
  (st : summarizer_state) (resp : response (result compare_doc))
  (compare_data : compare_doc) :
  7 <= String.length old_sha -> 7 <= String.length new_sha ->
  http_compare (compare_url repo old_sha new_sha) = Ok resp ->
  status resp = 200 -> body resp = Ok compare_data ->
  exists st' more,
    _show_repo_diff http_compare http_commit repo old_sha new_sha st
    = (Ok tt, st')
    /\ diff_text st'
       = [ "Comparing " +:+ slice_to 8 old_sha +:+ " to "
           +:+ slice_to 8 new_sha +:+ " - "
           +:+ default "" (cmp_status compare_data);
           "Total changes: "
           +:+ pretty (default 0 (cmp_total_commits compare_data))
           +:+ " commit(s)";
           "Files changed: "
           +:+ pretty (length (default [] (cmp_files compare_data)));
           "" ] ++ more
    /\ effects st'
       = effects st ++
         [ UpdateStatus ("Fetching diff for " +:+ repo
                         +:+ " from GitHub API...");
           Get (compare_url repo old_sha new_sha);
           PushScreen (join LF (diff_text st'))
             ("Diff " +:+ repo +:+ ": " +:+ slice_to 8 old_sha
              +:+ " → " +:+ slice_to 8 new_sha);
           UpdateStatus ("Displayed diff for " +:+ repo) ].
Proof.
  intros Hold Hnew Hcmp Hs Hbody. step_summarizer.
  assert (Hlen : negb (nonempty old_sha) || (String.length old_sha <? 7)
                 || negb (nonempty new_sha) || (String.length new_sha <? 7)
                 = false).
  { rewrite (long_enough old_sha Hold). cbn [orb]. exact (long_enough new_sha Hnew). }
  rewrite Hlen. fold (compare_url repo old_sha new_sha).
  rewrite Hcmp, Hs, Hbody. cbn [Nat.eqb negb].
  destruct (cmp_commits compare_data) as [commits|];
    destruct (cmp_files compare_data) as [files|];
    cbn [default from_option id];
    try (destruct (append_commits_run commits) as (lines & ->));
    rewrite ?append_all_run; cbn [diff_text effects];
    rewrite ?append_all_run; cbn [diff_text effects];
    rewrite <- ?app_assoc; cbn [app];
    eexists _, _; (split; [reflexivity|]); cbn [diff_text effects];
    (split; [reflexivity|]); now rewrite <- ?app_assoc.
Qed.

Lemma guard_false (old_sha new_sha : string) :
  negb (nonempty old_sha) || (String.length old_sha <? 7)
  || negb (nonempty new_sha) || (String.length new_sha <? 7) = false ->
  7 <= String.length old_sha /\ 7 <= String.length new_sha.
Proof.
  intros H. apply orb_false_iff in H as [H Hn]. apply orb_false_iff in H as [H _].
  apply orb_false_iff in H as [_ Ho].
  apply Nat.ltb_ge in Hn, Ho. auto.
Qed.

Lemma guard_true (old_sha new_sha : string) :
  String.length old_sha < 7 \/ String.length new_sha < 7 ->
  negb (nonempty old_sha) || (String.length old_sha <? 7)
  || negb (nonempty new_sha) || (String.length new_sha <? 7) = true.
Proof.
  intros [H|H]; apply Nat.ltb_lt in H; rewrite H;
    rewrite ?orb_true_r; reflexivity.
Qed.

(** A comparison that is not found hands over to the fallback. *)
Lemma not_found_hands_over (repo old_sha new_sha : string)
  (st : summarizer_state) (resp : response (result compare_doc)) :
  7 <= String.length old_sha -> 7 <= String.length new_sha ->
  http_compare (compare_url repo old_sha new_sha) = Ok resp ->
  status resp = 404 ->
  exists st' evs,
    _show_repo_diff http_compare http_commit repo old_sha new_sha st
    = (Ok tt, st')
    /\ effects st' = effects st ++ evs
    /\ (displayed evs = true /\ reported_error evs = false
        \/ displayed evs = false /\ reported_error evs = true).
Proof.
  intros Hold Hnew Hcmp H404.
  destruct (alternative_outcome http_commit repo old_sha new_sha
    {| diff_text := diff_text st;
       effects := effects st ++
         [ UpdateStatus ("Fetching diff for " +:+ repo
                         +:+ " from GitHub API...");
           Get (compare_url repo old_sha new_sha);
           UpdateStatus
             "Cannot directly compare these commits. Trying alternative approach..." ] |})
    as (st' & evs & more & Halt & Heff & _ & Hout).
  exists st'.
  exists ([ UpdateStatus ("Fetching diff for " +:+ repo
                          +:+ " from GitHub API...");
            Get (compare_url repo old_sha new_sha);
            UpdateStatus
              "Cannot directly compare these commits. Trying alternative approach..." ]
          ++ evs).
  split_and!.
  - unfold _show_repo_diff, try_except, mbind, Summ_bind, perform, lift.
    cbn beta iota zeta.
    assert (Hlen : negb (nonempty old_sha) || (String.length old_sha <? 7)
                   || negb (nonempty new_sha) || (String.length new_sha <? 7)
                   = false).
    { rewrite (long_enough old_sha Hold). cbn [orb].
      exact (long_enough new_sha Hnew). }
    rewrite Hlen. fold (compare_url repo old_sha new_sha). rewrite Hcmp, H404.
    cbn [Nat.eqb diff_text effects]. rewrite <- !app_assoc. cbn [app].
    now rewrite Halt.
  - rewrite Heff. cbn [effects]. now rewrite <- app_assoc.
  - rewrite displayed_app, reported_error_app.
    match goal with
    | |- context [displayed ?p || displayed evs] =>
        change (displayed p) with false; change (reported_error p) with false
    end.
    cbn [orb]. tauto.
Qed.

Lemma other_status_reported_run (repo old_sha new_sha : string)
  (st : summarizer_state) (resp : response (result compare_doc)) :
  7 <= String.length old_sha -> 7 <= String.length new_sha ->
  http_compare (compare_url repo old_sha new_sha) = Ok resp ->
  status resp <> 404 -> status resp <> 200 ->
  _show_repo_diff http_compare http_commit repo old_sha new_sha st
  = (Ok tt,
     {| diff_text := diff_text st;
        effects := effects st ++
          [ UpdateStatus ("Fetching diff for " +:+ repo
                          +:+ " from GitHub API...");
            Get (compare_url repo old_sha new_sha);
            Notify ("Failed to fetch diff: " +:+ pretty (status resp)
                    +:+ " - " +:+ text resp) "error" ] |}).
Proof.
  intros Hold Hnew Hcmp H404 H200.
  unfold _show_repo_diff, try_except, mbind, Summ_bind, perform, lift.
  cbn beta iota zeta.
  assert (Hlen : negb (nonempty old_sha) || (String.length old_sha <? 7)
                 || negb (nonempty new_sha) || (String.length new_sha <? 7)
                 = false).
  { rewrite (long_enough old_sha Hold). cbn [orb]. exact (long_enough new_sha Hnew). }
  rewrite Hlen. fold (compare_url repo old_sha new_sha). rewrite Hcmp.
  apply Nat.eqb_neq in H404, H200. rewrite H404, H200.
  cbn [negb diff_text effects]. now rewrite <- !app_assoc.
Qed.

End ShowDiffFacts.

Section ShowDiffProperties.
Import Py Aiohttp ConfigManager Samples.

(** X16. With an identifier of fewer than seven characters no request is
    made: the call notifies that the identifiers are invalid and
    returns. *)
Theorem short_sha_asks_nothing
  (http_compare : string -> result (response (result compare_doc)))
  (http_commit : string -> result (response (result commit_doc)))
  (repo old_sha new_sha : string) (st : summarizer_state) :
  String.length old_sha < 7 \/ String.length new_sha < 7 ->
  _show_repo_diff http_compare http_commit repo old_sha new_sha st
  = (Ok tt,
     {| diff_text := diff_text st;
        effects := effects st ++
          [ UpdateStatus ("Fetching diff for " +:+ repo
                          +:+ " from GitHub API...");
            Notify "Invalid commit SHAs for comparison" "error" ] |}).
Proof.
  intros H. unfold _show_repo_diff, try_except, mbind, Summ_bind, perform.
  cbn beta iota zeta. rewrite (guard_true old_sha new_sha H).
  cbn [diff_text effects]. now rewrite <- app_assoc.
Qed.

Lemma short_sha_asks_nothing_witness :
  effects (_show_repo_diff no_comparison only_new_commit "foo/bar" "main:"
             "bbbb222" {| diff_text := []; effects := [] |}).2
  = [ UpdateStatus "Fetching diff for foo/bar from GitHub API...";
      Notify "Invalid commit SHAs for comparison" "error" ].
Proof.
  rewrite (short_sha_asks_nothing no_comparison only_new_commit "foo/bar"
             "main:" "bbbb222" {| diff_text := []; effects := [] |}).
  - reflexivity.
  - left. cbn. lia.
Defined.

(** X17. A comparison that answers neither 200 nor 404 is a failure of
    the call: the status and the body are notified, the fallback is not
    tried and nothing is shown. *)
Theorem other_status_is_reported
  (http_compare : string -> result (response (result compare_doc)))
  (http_commit : string -> result (response (result commit_doc)))
  (repo old_sha new_sha : string) (st : summarizer_state)
  (resp : response (result compare_doc)) :
  7 <= String.length old_sha -> 7 <= String.length new_sha ->
  http_compare (compare_url repo old_sha new_sha) = Ok resp ->
  status resp <> 404 -> status resp <> 200 ->
  _show_repo_diff http_compare http_commit repo old_sha new_sha st
  = (Ok tt,
     {| diff_text := diff_text st;
        effects := effects st ++
          [ UpdateStatus ("Fetching diff for " +:+ repo
                          +:+ " from GitHub API...");
            Get (compare_url repo old_sha new_sha);
            Notify ("Failed to fetch diff: " +:+ pretty (status resp)
                    +:+ " - " +:+ text resp) "error" ] |}).
Proof.
  intros Hold Hnew Hcmp H404 H200.
  now apply other_status_reported_run.
Qed.

Lemma other_status_is_reported_witness :
  effects (_show_repo_diff rate_limited only_new_commit "foo/bar" "aaaa111"
             "bbbb222" {| diff_text := []; effects := [] |}).2
  = [ UpdateStatus "Fetching diff for foo/bar from GitHub API...";
      Get "https://api.github.com/repos/foo/bar/compare/aaaa111...bbbb222";
      Notify "Failed to fetch diff: 403 - API rate limit exceeded" "error" ].
Proof.
  rewrite (other_status_is_reported rate_limited only_new_commit "foo/bar"
             "aaaa111" "bbbb222" {| diff_text := []; effects := [] |}
             {| status := 403; text := "API rate limit exceeded";
                body := Raise (Exception "not a comparison") |}).
  - reflexivity.
  - cbn. lia.
  - cbn. lia.
  - reflexivity.
  - discriminate.
  - discriminate.
Defined.

(** X18. A call for the changes between two commits returns on every
    input and every answer of the network, and never in silence: it ends
    either with the report on the screen and no error notified, or with
    an error notified and nothing on the screen. *)
Theorem show_repo_diff_shows_or_reports
  (http_compare : string -> result (response (result compare_doc)))
  (http_commit : string -> result (response (result commit_doc)))
  (repo old_sha new_sha : string) (st : summarizer_state) :
  exists st' evs,
    _show_repo_diff http_compare http_commit repo old_sha new_sha st
    = (Ok tt, st')
    /\ effects st' = effects st ++ evs
    /\ (displayed evs = true /\ reported_error evs = false
        \/ displayed evs = false /\ reported_error evs = true).
Proof.
  destruct (negb (nonempty old_sha) || (String.length old_sha <? 7)
            || negb (nonempty new_sha) || (String.length new_sha <? 7))
    eqn:Hguard.
  - eexists _, _. split; [|split].
    + unfold _show_repo_diff, try_except, mbind, Summ_bind, perform.
      cbn beta iota zeta. rewrite Hguard. reflexivity.
    + cbn [effects]. rewrite <- !app_assoc. reflexivity.
    + right. split; reflexivity.
  - destruct (guard_false _ _ Hguard) as [Hold Hnew].
    destruct (http_compare (compare_url repo old_sha new_sha)) as [resp|e] eqn:Hcmp.
    + destruct (Nat.eq_dec (status resp) 404) as [H404|H404].
      { now apply (not_found_hands_over http_compare http_commit repo old_sha
                     new_sha st resp). }
      destruct (Nat.eq_dec (status resp) 200) as [H200|H200].
      * destruct (body resp) as [compare_data|e] eqn:Hbody.
        -- destruct (served_comparison_is_displayed http_compare http_commit
                       repo old_sha new_sha st resp compare_data
                       Hold Hnew Hcmp H200 Hbody)
             as (st' & more & Hrun & _ & Heff).
           exists st'. eexists. split; [exact Hrun|].
           split; [exact Heff|]. left. split; reflexivity.
        -- eexists _, _. split; [|split].
           ++ unfold _show_repo_diff, try_except, mbind, Summ_bind, perform, lift.
              cbn beta iota zeta. rewrite Hguard.
              fold (compare_url repo old_sha new_sha).
              rewrite Hcmp, H200, Hbody. cbn [Nat.eqb negb]. reflexivity.
           ++ cbn [effects]. rewrite <- !app_assoc. reflexivity.
           ++ right. split; reflexivity.
      * eexists _, _. split; [|split].
        -- apply (other_status_reported_run http_compare http_commit repo
                    old_sha new_sha st resp Hold Hnew Hcmp H404 H200).
        -- reflexivity.
        -- right. split; reflexivity.
    + eexists _, _. split; [|split].
      * unfold _show_repo_diff, try_except, mbind, Summ_bind, perform, lift.
        cbn beta iota zeta. rewrite Hguard.
        fold (compare_url repo old_sha new_sha). rewrite Hcmp. reflexivity.
      * cbn [effects]. rewrite <- !app_assoc. reflexivity.
      * right. split; reflexivity.
Qed.

End ShowDiffProperties.


(* ===================================================================== *)
(** * The list of the manager after a pass and after an update *)
(* ===================================================================== *)

Section ListFacts.
Import Py ConfigManager.

Lemma NoDup_fmap_elem_inj {A B} (f : A -> B) (l : list A) (x y : A) :
  NoDup (f <$> l) -> x ∈ l -> y ∈ l -> f x = f y -> x = y.
Proof.
  intros Hnd Hx Hy Hf.
  apply list_elem_of_lookup in Hx as [i Hi].
  apply list_elem_of_lookup in Hy as [j Hj].
  assert (Hi' : (f <$> l) !! i = Some (f x)) by now rewrite list_lookup_fmap, Hi.
  assert (Hj' : (f <$> l) !! j = Some (f x)).
  { rewrite list_lookup_fmap, Hj. cbn. now rewrite Hf. }
  assert (i = j) by exact (NoDup_lookup _ _ _ _ Hnd Hi' Hj'). subst j.
  congruence.
Qed.

(** The list shows the coordinates of the store and nothing else of it. *)
Lemma refresh_list_coordinates (config config' : list entry)
  (outdated : gmap string DriftRecord) :
  coordinate <$> config = coordinate <$> config' ->
  refresh_list config outdated = refresh_list config' outdated.
Proof.
  intros Hc. unfold refresh_list.
  change (λ e : entry,
            {| repo_name := coordinate e; is_updated := false;
               is_outdated := bool_decide (is_Some (outdated !! coordinate e));
               is_loading := false |})
    with ((λ k : string,
             {| repo_name := k; is_updated := false;
                is_outdated := bool_decide (is_Some (outdated !! k));
                is_loading := false |}) ∘ coordinate).
  now rewrite !list_fmap_compose, Hc.
Qed.

Lemma update_all_coordinates
  (fetched : string -> result (gmap string (option string) * string))
  (config : list entry) :
  coordinate <$> (_update_all_worker fetched config).1.1 = coordinate <$> config.
Proof.
  induction config as [|e config IH]; [reflexivity|].
  cbn [_update_all_worker].
  destruct (_update_all_worker fetched config) as [[config' u] er].
  cbn [fst] in IH.
  destruct (fetched (coordinate e)) as [[hashes comment]|ex]; cbn [fst];
    rewrite !fmap_cons; now f_equal.
Qed.

(** After a pass over a store with distinct coordinates, a coordinate is
    in the drift set exactly when its item drifted. *)
Lemma pass_records_the_drifted (fetch : string -> result commit_info)
  (config : list entry) (e : entry) :
  NoDup (coordinate <$> config) -> e ∈ config ->
  is_Some (outdated_repos (_check_updates_worker fetch config) !! coordinate e)
  <-> drifted fetch e = true.
Proof.
  intros Hnd He. unfold _check_updates_worker.
  rewrite check_from_records. cbn [pass_start outdated_repos].
  rewrite lookup_empty. split.
  - intros [[x Hx]|(e' & He' & Hk & Hd)]; [discriminate|].
    now rewrite <- (NoDup_fmap_elem_inj coordinate config e' e Hnd He' He Hk).
  - intros Hd. right. now exists e.
Qed.

End ListFacts.

Section ListProperties.
Import Py ConfigManager Samples.

(** X19. After a pass over a store with distinct coordinates, the list is
    rebuilt with one row per entry, in the order of the store; the row of
    an entry carries the yellow mark exactly when the pass classified the
    entry [Outdated], and no row carries the green mark or a loading
    indicator. *)
Theorem refreshed_list_marks_the_outdated
  (fetch : string -> result commit_info) (config : list entry)
  (i : nat) (e : entry) :
  NoDup (coordinate <$> config) ->
  config !! i = Some e ->
  RepoItem_compose
    <$> (refresh_list config
           (outdated_repos (_check_updates_worker fetch config)) !! i)
  = Some [ Static match item_outcome fetch i e with
                  | Outdated =>
                      ljust 30 (coordinate e) +:+ " " +:+ "[yellow](!)[/yellow]"
                  | _ => ljust 30 (coordinate e)
                  end ]
  /\ length (refresh_list config
               (outdated_repos (_check_updates_worker fetch config)))
     = length config.
Proof.
  intros Hnd Hi. split.
  - unfold refresh_list. rewrite list_lookup_fmap, Hi. cbn [fmap option_fmap option_map].
    unfold RepoItem_compose. cbn [is_loading is_outdated is_updated repo_name].
    assert (He : e ∈ config) by (apply list_elem_of_lookup; eauto).
    pose proof (pass_records_the_drifted fetch config e Hnd He) as Hrec.
    pose proof (item_outcome_outdated fetch i e) as Hout.
    destruct (bool_decide (is_Some _)) eqn:Hb.
    + apply bool_decide_eq_true in Hb. apply Hrec in Hb. apply Hout in Hb.
      now rewrite Hb.
    + apply bool_decide_eq_false in Hb.
      destruct (item_outcome fetch i e); try reflexivity.
      exfalso. apply Hb, Hrec, Hout. reflexivity.
  - unfold refresh_list. now rewrite length_fmap.
Qed.

Lemma refreshed_list_marks_the_outdated_witness :
  RepoItem_compose
    <$> (refresh_list sample_store
           (outdated_repos (_check_updates_worker sample_upstream sample_store))
         !! 0)
  = Some [ Static "foo/bar                        [yellow](!)[/yellow]" ].
Proof.
  assert (Hnd : NoDup (coordinate <$> sample_store)).
  { apply (bool_decide_unpack _). vm_compute. exact I. }
  exact (proj1 (refreshed_list_marks_the_outdated sample_upstream sample_store 0
                  (tracked "foo/bar" "Last commit on main: aaaa111 @ 2024-01-01")
                  Hnd eq_refl)).
Defined.

(** X20. Updating all the items changes no mark of the list: the list is
    rebuilt from the same coordinates and from a drift set that the update
    does not touch, so an item shown as outdated before the update is
    shown as outdated after it, also when its entry was just replaced by
    the fetched state. *)
Theorem update_all_keeps_the_marks
  (fetched : string -> result (gmap string (option string) * string))
  (config : list entry) (outdated : gmap string DriftRecord) :
  refresh_list (_update_all_worker fetched config).1.1 outdated
  = refresh_list config outdated.
Proof.
  apply refresh_list_coordinates, update_all_coordinates.
Qed.

(** X21. When no item drifted, the pass announces that all the mods are up
    to date, however many of them could not be fetched: the status line
    counts the items that were compared, and neither it nor the
    notification mentions the failed ones. *)
Theorem failed_items_are_not_announced
  (fetch : string -> result commit_info) (config : list entry) :
  count_drifted fetch config = 0 ->
  pass_summary (_check_updates_worker fetch config)
  = [ UpdateStatus ("All " +:+ pretty (length config - count_failed fetch config)
                    +:+ " mods are up-to-date");
      Notify "All mods are up-to-date" "information" ].
Proof.
  intros Hd. unfold pass_summary, _check_updates_worker.
  destruct (check_from_counts fetch config pass_start 0) as [Ho Hs].
  pose proof (check_from_errors fetch config pass_start 0) as He.
  cbn [pass_start outdated_count update_count error_count] in Ho, Hs, He.
  rewrite Ho, Hd. cbn [Nat.add Nat.ltb Nat.leb].
  replace (update_count (check_from fetch pass_start 0 config))
    with (length config - count_failed fetch config) by lia.
  reflexivity.
Qed.

Lemma failed_items_are_not_announced_witness :
  pass_summary
    (_check_updates_worker sample_upstream
       [tracked "gone/repo" "Last commit on main: dddd444 @ 2024-01-01"])
  = [ UpdateStatus "All 0 mods are up-to-date";
      Notify "All mods are up-to-date" "information" ].
Proof.
  exact (failed_items_are_not_announced sample_upstream
           [tracked "gone/repo" "Last commit on main: dddd444 @ 2024-01-01"]
           eq_refl).
Defined.

End ListProperties.

(* ===================================================================== *)
(** * The colours of a diff *)
(* ===================================================================== *)

Section MarkupFacts.
Import Py ConfigManager.

(** Replacing a character by a text does not change whether the text
    starts with a prefix that holds neither the character nor the first
    character of its replacement. *)
Lemma startswith_replace_char (old n : ascii) (new' p s : string) :
  all_chars (λ a, negb (Ascii.eqb a old) && negb (Ascii.eqb a n)) p = true ->
  startswith (replace_char old (String n new') s) p = startswith s p.
Proof.
  revert s. induction p as [|a p IH]; intros s Hp; [reflexivity|].
  cbn [all_chars] in Hp. apply andb_prop in Hp as [Ha Hp].
  apply andb_prop in Ha as [Hold Hn].
  apply negb_true_iff in Hold, Hn.
  destruct s as [|c s]; [reflexivity|].
  cbn [replace_char]. destruct (Ascii.eqb_spec c old) as [->|Hc].
  - rewrite append_cons. cbn [startswith]. now rewrite Hn, Hold.
  - cbn [startswith]. destruct (Ascii.eqb a c); [now apply IH | reflexivity].
Qed.

Lemma startswith_escape_markup (p line : string) :
  all_chars (λ a, negb (Ascii.eqb a "[") && negb (Ascii.eqb a "]")
                  && negb (Ascii.eqb a "\")) p = true ->
  startswith (escape_markup line) p = startswith line p.
Proof.
  intros Hp. unfold escape_markup.
  change "\]" with (String "\" "]"). change "\[" with (String "\" "[").
  rewrite !startswith_replace_char; [reflexivity| |].
  - revert Hp. apply all_chars_weaken. intros c Hc.
    apply andb_prop in Hc as [Hc H3]. apply andb_prop in Hc as [H1 H2].
    now rewrite H1, H3.
  - revert Hp. apply all_chars_weaken. intros c Hc.
    apply andb_prop in Hc as [Hc H3]. apply andb_prop in Hc as [H1 H2].
    now rewrite H2, H3.
Qed.

Lemma line_colour_escape_markup (line : string) :
  line_colour (escape_markup line) = line_colour line.
Proof.
  unfold line_colour. now rewrite !startswith_escape_markup by reflexivity.
Qed.

Lemma startswith_shorter (s p q : string) :
  startswith s (p +:+ q) = true -> startswith s p = true.
Proof.
  intros H. apply startswith_spec in H as [t ->]. apply startswith_spec.
  exists (q +:+ t). apply append_assoc.
Qed.

End MarkupFacts.

Section MarkupProperties.
Import Py ConfigManager.

(** X22. The colour of a line of a diff is that of its first characters
    before the escaping of the brackets.  The yellow of the metadata goes
    to the [diff --git] and [index ] lines only: a file header [--- ] or
    [+++ ] meets the test of the removed or of the added lines first, and
    comes out red or green. *)
Theorem diff_line_colours (line : string) :
  process_line line
  = match line_colour line with
    | Some c => "[" +:+ colour_name c +:+ "]" +:+ escape_markup line
                +:+ "[/" +:+ colour_name c +:+ "]"
    | None => escape_markup line
    end
  /\ (line_colour line = Some Yellow
      <-> startswith line "diff --git" = true \/ startswith line "index " = true)
  /\ (startswith line "--- " = true -> line_colour line = Some Red)
  /\ (startswith line "+++ " = true -> line_colour line = Some Green).
Proof.
  split_and!.
  - unfold process_line. cbv zeta. now rewrite line_colour_escape_markup.
  - unfold line_colour.
    destruct (startswith line "+") eqn:Hplus.
    { split; [discriminate|]. intros [H|H]; exfalso.
      - apply startswith_spec in H as [t ->]. discriminate.
      - apply startswith_spec in H as [t ->]. discriminate. }
    destruct (startswith line "-") eqn:Hminus.
    { split; [discriminate|]. intros [H|H]; exfalso.
      - apply startswith_spec in H as [t ->]. discriminate.
      - apply startswith_spec in H as [t ->]. discriminate. }
    destruct (startswith line "@@") eqn:Hat.
    { split; [discriminate|]. intros [H|H]; exfalso.
      - apply startswith_spec in H as [t ->]. discriminate.
      - apply startswith_spec in H as [t ->]. discriminate. }
    assert (H3 : startswith line "--- " = false).
    { destruct (startswith line "--- ") eqn:H; [|reflexivity].
      apply (startswith_shorter line "-" "-- ") in H. congruence. }
    assert (H4 : startswith line "+++ " = false).
    { destruct (startswith line "+++ ") eqn:H; [|reflexivity].
      apply (startswith_shorter line "+" "++ ") in H. congruence. }
    rewrite H3, H4, !orb_false_r.
    destruct (startswith line "diff --git"), (startswith line "index ");
      cbn [orb]; split; try tauto; try discriminate.
    intros [H|H]; discriminate.
  - intros H. apply (startswith_shorter line "-" "-- ") in H.
    unfold line_colour. rewrite H.
    destruct (startswith line "+") eqn:Hplus; [|reflexivity].
    apply startswith_spec in H as [t ->]. discriminate.
  - intros H. apply (startswith_shorter line "+" "++ ") in H.
    unfold line_colour. now rewrite H.
Qed.

End MarkupProperties.

(* ===================================================================== *)
(** * The display name of a repository *)
(* ===================================================================== *)

Section FormatFacts.
Import Py Generate2.

(** *** Single blanks *)

Lemma blanks_single_collapse (b : bool) (s : string) :
  blanks_single b (collapse_spaces_go b s) = true.
Proof.
  revert b. induction s as [|c s IH]; intros b; [reflexivity|].
  cbn [collapse_spaces_go]. destruct (isspace c) eqn:Hc.
  - destruct b; [apply IH|].
    cbn [blanks_single]. change (isspace " ") with true. cbv iota.
    now rewrite IH.
  - cbn [blanks_single]. rewrite Hc. apply IH.
Qed.

Lemma blanks_single_lstrip (b : bool) (s : string) :
  blanks_single b s = true -> blanks_single true (lstrip s) = true.
Proof.
  revert b. induction s as [|c s IH]; intros b H; [reflexivity|].
  cbn [lstrip]. cbn [blanks_single] in H. destruct (isspace c) eqn:Hc.
  - apply andb_prop in H as [_ H]. now apply (IH true).
  - cbn [blanks_single]. now rewrite Hc.
Qed.

Lemma blanks_single_rstrip (b : bool) (s : string) :
  blanks_single b s = true -> blanks_single b (rstrip s) = true.
Proof.
  revert b. induction s as [|c s IH]; intros b H; [reflexivity|].
  cbn [rstrip]. cbn [blanks_single] in H. destruct (isspace c) eqn:Hc.
  - apply andb_prop in H as [H1 H]. apply IH in H.
    destruct (rstrip s) as [|d r]; [reflexivity|].
    cbn [blanks_single] in *. now rewrite Hc, H1, H.
  - apply IH in H.
    destruct (rstrip s) as [|d r]; cbn [blanks_single] in *; now rewrite Hc.
Qed.

Lemma rstrip_idem (s : string) : rstrip (rstrip s) = rstrip s.
Proof.
  induction s as [|c s IH]; [reflexivity|].
  cbn [rstrip]. destruct (rstrip s) as [|d r] eqn:Hr.
  - destruct (isspace c) eqn:Hc; [reflexivity|].
    cbn [rstrip]. now rewrite Hc.
  - cbn [rstrip] in *. now rewrite IH.
Qed.

Lemma rstrip_fixed_tail (c : ascii) (s : string) :
  rstrip (String c s) = String c s ->
  rstrip s = s /\ (s = "" -> isspace c = false).
Proof.
  cbn [rstrip]. destruct (rstrip s) as [|d r] eqn:Hr.
  - destruct (isspace c); [discriminate|].
    intros H. injection H as <-. now split.
  - intros H. injection H as <-. split; [reflexivity | discriminate].
Qed.

Lemma join_cons (sep x : string) (l : list string) :
  l <> [] -> join sep (x :: l) = x +:+ sep +:+ join sep l.
Proof. destruct l; [congruence | reflexivity]. Qed.

Lemma string_of_rev_cons (c : ascii) (cur : list ascii) (s : string) :
  string_of_list_ascii (rev (c :: cur)) +:+ s
  = string_of_list_ascii (rev cur) +:+ String c s.
Proof.
  cbn [rev]. generalize (rev cur). intros l.
  induction l as [|x l IH]; [reflexivity|].
  cbn [app string_of_list_ascii]. rewrite !append_cons. now rewrite IH.
Qed.

(** A text with single blanks and none at its ends is the join of its
    words. *)
Lemma join_split_ws_go (cur : list ascii) (s : string) :
  blanks_single (bool_decide (cur = [])) s = true ->
  rstrip s = s ->
  join " " (split_ws_go cur s) = string_of_list_ascii (rev cur) +:+ s.
Proof.
  revert cur. induction s as [|c s IH]; intros cur Hb Hr.
  - cbn [split_ws_go]. rewrite append_empty_r.
    destruct cur; reflexivity.
  - apply rstrip_fixed_tail in Hr as [Hr Hlast].
    cbn [split_ws_go]. cbn [blanks_single] in Hb.
    destruct (isspace c) eqn:Hc.
    + apply andb_prop in Hb as [Hb Hs]. apply andb_prop in Hb as [Hsp Hcur].
      apply Ascii.eqb_eq in Hsp. subst c.
      apply negb_true_iff, bool_decide_eq_false in Hcur.
      destruct s as [|d s]; [now specialize (Hlast eq_refl)|].
      pose proof (IH [] Hs Hr) as Hjoin.
      change (string_of_list_ascii (rev [])) with "" in Hjoin.
      rewrite append_nil in Hjoin.
      destruct cur as [|x cur]; [congruence|].
      cbn [app]. rewrite join_cons.
      * now rewrite Hjoin.
      * intros Hnil. rewrite Hnil in Hjoin. discriminate.
    + rewrite IH; [apply string_of_rev_cons | | exact Hr].
      rewrite bool_decide_eq_false_2 by discriminate. exact Hb.
Qed.

(** *** Characters that a substitution cannot bring in *)

Lemma all_chars_skip (q : ascii -> bool) (n : nat) (s : string) :
  all_chars q s = true -> all_chars q (skip n s) = true.
Proof.
  revert s. induction n as [|n IH]; intros s H; [exact H|].
  destruct s as [|c s]; [reflexivity|].
  cbn [skip]. cbn [all_chars] in H. apply andb_prop in H as [_ H]. now apply IH.
Qed.

Lemma all_chars_replace_char (q : ascii -> bool) (old : ascii)
  (new s : string) :
  all_chars q new = true ->
  all_chars (λ c, Ascii.eqb c old || q c) s = true ->
  all_chars q (replace_char old new s) = true.
Proof.
  intros Hnew. induction s as [|c s IH]; intros H; [reflexivity|].
  cbn [all_chars] in H. apply andb_prop in H as [Hc H].
  cbn [replace_char]. destruct (Ascii.eqb c old).
  - rewrite all_chars_app, Hnew. now apply IH.
  - cbn [all_chars]. cbn [orb] in Hc. rewrite Hc. now apply IH.
Qed.

Lemma all_chars_space_capitals (q : ascii -> bool) (b : bool) (s : string) :
  q " "%char = true -> all_chars q s = true ->
  all_chars q (space_capitals_go b s) = true.
Proof.
  intros Hsp. revert b. induction s as [|c s IH]; intros b H; [reflexivity|].
  cbn [all_chars] in H. apply andb_prop in H as [Hc H].
  cbn [space_capitals_go].
  destruct (negb b && is_upper c); cbn [all_chars];
    now rewrite ?Hsp, Hc, (IH false H).
Qed.

Lemma all_chars_title (q : ascii -> bool) (b : bool) (s : string) :
  (forall c, q c = true -> q (upper_char c) = true /\ q (lower_char c) = true) ->
  all_chars q s = true -> all_chars q (title_go b s) = true.
Proof.
  intros Hq. revert b. induction s as [|c s IH]; intros b H; [reflexivity|].
  cbn [all_chars] in H. apply andb_prop in H as [Hc H].
  cbn [title_go all_chars]. destruct (Hq c Hc) as [Hu Hl].
  rewrite (IH _ H). now destruct b; rewrite ?Hu, ?Hl.
Qed.

Lemma all_chars_sub_word (q : ascii -> bool) (word new : string)
  (b : bool) (pending : nat) (s : string) :
  all_chars q new = true -> all_chars q s = true ->
  all_chars q (sub_word_go word new b pending s) = true.
Proof.
  intros Hnew. revert b pending.
  induction s as [|c s IH]; intros b pending H; [reflexivity|].
  cbn [all_chars] in H. apply andb_prop in H as [Hc H].
  cbn [sub_word_go]. destruct pending as [|pending]; [|now apply IH].
  match goal with |- context [if ?t then _ else _] => destruct t end.
  - rewrite all_chars_app, Hnew. now apply IH.
  - cbn [all_chars]. rewrite Hc. now apply IH.
Qed.

Lemma all_chars_collapse (q : ascii -> bool) (b : bool) (s : string) :
  q " "%char = true -> all_chars q s = true ->
  all_chars q (collapse_spaces_go b s) = true.
Proof.
  intros Hsp. revert b. induction s as [|c s IH]; intros b H; [reflexivity|].
  cbn [all_chars] in H. apply andb_prop in H as [Hc H].
  cbn [collapse_spaces_go].
  destruct (isspace c); [destruct b|]; cbn [all_chars];
    now rewrite ?Hsp, ?Hc, ?(IH _ H).
Qed.

Lemma all_chars_lstrip (q : ascii -> bool) (s : string) :
  all_chars q s = true -> all_chars q (lstrip s) = true.
Proof.
  induction s as [|c s IH]; intros H; [reflexivity|].
  cbn [lstrip]. destruct (isspace c); [|exact H].
  cbn [all_chars] in H. apply andb_prop in H as [_ H]. now apply IH.
Qed.

Lemma all_chars_rstrip (q : ascii -> bool) (s : string) :
  all_chars q s = true -> all_chars q (rstrip s) = true.
Proof.
  induction s as [|c s IH]; intros H; [reflexivity|].
  cbn [all_chars] in H. apply andb_prop in H as [Hc H].
  cbn [rstrip]. specialize (IH H).
  destruct (rstrip s) as [|d r]; [destruct (isspace c)|]; cbn [all_chars] in *;
    now rewrite ?Hc, ?IH.
Qed.

Lemma all_chars_true (s : string) : all_chars (λ _, true) s = true.
Proof. induction s; [reflexivity | assumption]. Qed.

End FormatFacts.

Section FormatProperties.
Import Py Generate2.

(** X23. A display name is made of words separated by single spaces: it
    is the join of its own words, so it has no blank at either end, no
    blank other than the space and no two spaces in a row; and it holds
    neither a dash nor an underscore. *)
Theorem formatted_name_is_single_spaced (name : string) :
  join " " (split_ws (format_repo_name name)) = format_repo_name name
  /\ all_chars (λ c, negb (Ascii.eqb c "-") && negb (Ascii.eqb c "_"))
       (format_repo_name name) = true.
Proof.
  split.
  - unfold format_repo_name, split_ws. cbv zeta.
    rewrite join_split_ws_go; [apply append_nil | |].
    + unfold strip. apply blanks_single_rstrip.
      apply (blanks_single_lstrip false). apply blanks_single_collapse.
    + unfold strip. apply rstrip_idem.
  - unfold format_repo_name, strip, collapse_spaces, sub_word, title,
      space_capitals. cbv zeta.
    apply all_chars_rstrip, all_chars_lstrip.
    apply all_chars_collapse; [reflexivity|].
    apply all_chars_sub_word; [reflexivity|].
    apply all_chars_title.
    { intros c Hc.
      destruct c as [[] [] [] [] [] [] [] []];
        try discriminate Hc; split; reflexivity. }
    apply all_chars_space_capitals; [reflexivity|].
    apply all_chars_replace_char; [reflexivity|].
    apply all_chars_replace_char; [reflexivity|].
    eapply all_chars_weaken; [|apply all_chars_true].
    intros c _.
    destruct (Ascii.eqb c "-"), (Ascii.eqb c "_"); reflexivity.
Qed.

(** X24. The prefix [SM-] does not show in the display name: a name and
    the same name behind [SM-] are displayed alike, unless the name
    itself begins with [SM-]. *)
Theorem prefix_is_dropped (name : string) :
  startswith name "SM-" = false ->
  format_repo_name ("SM-" +:+ name) = format_repo_name name.
Proof.
  intros H. unfold format_repo_name. cbv zeta.
  assert (H1 : remove_prefix "SM-" ("SM-" +:+ name) = name).
  { unfold remove_prefix.
    now rewrite (proj2 (startswith_spec _ _) (ex_intro _ name eq_refl)),
      skip_length_app. }
  assert (H2 : remove_prefix "SM-" name = name).
  { unfold remove_prefix. now rewrite H. }
  now rewrite H1, H2.
Qed.

Lemma prefix_is_dropped_witness :
  format_repo_name "SM-CustomGame" = format_repo_name "CustomGame".
Proof.
  exact (prefix_is_dropped "CustomGame" eq_refl).
Defined.

Example display_names :
  format_repo_name <$> ["SM-KeyAPI"; "SM-CustomGame"; "SMart_Tools";
                        "sm-dll-injector"; "myAPI2"]
  = ["Key API"; "Custom Game"; "Art Tools"; "Sm Dll Injector"; "My A P I2"].
Proof. reflexivity. Qed.

End FormatProperties.

(* ===================================================================== *)
(** * What the batch verification records *)
(* ===================================================================== *)

Section BatchFacts.
Import Py Aiohttp ConfigManager Generate2.

Variable net : network.
Variable format_repo_name : string -> string.
Variable get_social_preview_url : string -> option string.

(** The loop that validates the digests: the names it collects and the
    flag it raises. *)
Lemma validate_value (repo_name : string) (repo_data_spec : TrackedItem)
  (l : list AssetVerification) :
  exists ds,
    (validate repo_name repo_data_spec l).1
    = Ok (ds,
          av_name <$> filter (λ d, mismatches repo_data_spec d = true) l,
          existsb (mismatches repo_data_spec) l)
    /\ av_name <$> ds = av_name <$> l
    /\ av_url <$> ds = av_url <$> l.
Proof.
  induction l as [|d l (ds & IH & Hname & Hurl)].
  - exists []. repeat split.
  - cbn [validate existsb]. rewrite filter_cons.
    assert (Hmis : mismatches repo_data_spec d
      = truthy (expected_hash_of repo_data_spec (av_name d))
        && negb (bool_decide
                   (currentHash d = expected_hash_of repo_data_spec (av_name d))))
      by reflexivity.
    destruct (truthy (expected_hash_of repo_data_spec (av_name d))) eqn:He.
    + destruct (bool_decide
                  (currentHash d = expected_hash_of repo_data_spec (av_name d)))
        eqn:Hm; cbn [andb negb] in Hmis; rewrite Hmis.
      * destruct (decide (false = true)); [discriminate|].
        rewrite bind_fst, IH. cbn. eexists. split; [reflexivity|].
        cbn. split; now f_equal.
      * destruct (decide (true = true)); [|congruence].
        rewrite !bind_fst. cbn [emit fst bind]. rewrite IH. cbn.
        eexists. split; [reflexivity|]. cbn. split; now f_equal.
    + cbn [andb] in Hmis. rewrite Hmis.
      destruct (decide (false = true)); [discriminate|].
      rewrite bind_fst, IH. cbn. eexists. split; [reflexivity|].
      cbn. split; now f_equal.
Qed.

Lemma filter_mismatches (repo_data_spec : TrackedItem) (l : list asset) :
  av_name <$> filter (λ d, mismatches repo_data_spec d = true)
                ((λ a, verification net a
                         (expected_hash_of repo_data_spec (name a))) <$> l)
  = name <$> filter (λ a, asset_mismatch net repo_data_spec a = true) l.
Proof.
  induction l as [|a l IH]; [reflexivity|].
  rewrite fmap_cons, !filter_cons, mismatches_verification.
  destruct (decide (asset_mismatch net repo_data_spec a = true)).
  - rewrite !fmap_cons, IH. f_equal.
    unfold verification. now destruct (stream_hash_of _ _).
  - exact IH.
Qed.

(** The tally of the download counters of a list of releases. *)
Lemma download_latest_total (repo_data_spec : TrackedItem)
  (releases : list release) :
  exists ds,
    (download_latest net repo_data_spec releases).1
    = Ok (ds,
          foldr (λ rel n, sum_download_count (default [] (rel_assets rel)) + n)
            0 releases)
    /\ ds = (λ a, verification net a
                    (expected_hash_of repo_data_spec (name a)))
            <$> match releases with
                | latest :: _ => default [] (rel_assets latest)
                | [] => []
                end.
Proof.
  destruct releases as [|latest others].
  - now eexists.
  - cbn [download_latest]. rewrite bind_fst, download_assets_run. cbn.
    now eexists.
Qed.

(** The result of the body for an item that does not fail. *)
Lemma process_repo_body_fields (repo_name : string)
  (repo_data_spec : TrackedItem) :
  item_failed net repo_name = false ->
  exists res releases,
    (process_repo_body net format_repo_name get_social_preview_url
       repo_name repo_data_spec false).1
    = Ok (Some res, digest_mismatch net (repo_name, repo_data_spec))
    /\ releases_of net repo_name = Ok releases
    /\ mismatched_hashes res
       = name <$> filter (λ a, asset_mismatch net repo_data_spec a = true)
                    (latest_assets net repo_name)
    /\ av_name <$> downloads res = name <$> latest_assets net repo_name
    /\ av_url <$> downloads res
       = browser_download_url <$> latest_assets net repo_name
    /\ total_downloads res
       = foldr (λ rel n, sum_download_count (default [] (rel_assets rel)) + n)
           0 releases.
Proof.
  unfold process_repo_body, item_failed, digest_mismatch, latest_assets.
  cbn [coordinate fst snd]. intros Hok. apply negb_false_iff in Hok.
  apply andb_prop in Hok as [Hok Hpage]. apply andb_prop in Hok as [Hok Hcon].
  apply andb_prop in Hok as [Hdata Hrel].
  rewrite bind_fst. cbn [mret M_ret fst bind].
  rewrite bind_fst, get_repo_data_run. cbn [fst].
  destruct (repo_data_of net repo_name) as [repo_json|e]; [|discriminate].
  cbn [bind]. rewrite bind_fst.
  destruct (get_releases_run net repo_name) as [-> _].
  destruct (releases_of net repo_name) as [releases|e]; [|discriminate].
  cbn [bind]. rewrite bind_fst.
  destruct (download_latest_total repo_data_spec releases) as (ds0 & -> & Hds0).
  cbn [bind]. rewrite bind_fst.
  assert (Hg : (gather2 (get_contributors net repo_name)
                  (get_social_preview net get_social_preview_url repo_name)).1
    = match (get_contributors net repo_name).1,
            (get_social_preview net get_social_preview_url repo_name).1 with
      | Ok a, Ok b => Ok (a, b)
      | Raise e, _ => Raise e
      | Ok _, Raise e => Raise e
      end).
  { now destruct (get_contributors _ _), (get_social_preview _ _ _). }
  rewrite Hg. destruct (get_contributors_run net repo_name) as [-> _].
  destruct (get_social_preview_run net get_social_preview_url repo_name)
    as [-> _].
  destruct (contributors_of net repo_name) as [users|e]; [|discriminate].
  destruct (page_of net repo_name) as [html|e]; [|discriminate].
  cbn [bind]. rewrite bind_fst.
  destruct (validate_value repo_name repo_data_spec ds0)
    as (ds & -> & Hname & Hurl).
  cbn [fst bind mret M_ret]. eexists _, releases.
  split; [|split; [reflexivity|]].
  - subst ds0. now rewrite existsb_mismatches.
  - cbn [mismatched_hashes downloads total_downloads].
    rewrite Hname, Hurl. subst ds0. rewrite filter_mismatches.
    rewrite <- !list_fmap_compose.
    split_and!; try reflexivity.
    + apply list_fmap_ext. intros _ a _. unfold verification. cbn.
      now destruct (stream_hash_of _ _).
    + apply list_fmap_ext. intros _ a _. unfold verification. cbn.
      now destruct (stream_hash_of _ _).
Qed.

(** With or without the semaphore, what [process_repo] returns is what
    its body returns. *)
Lemma process_repo_returns_body (mod_ : entry) (sema : bool)
  (r : option repo_result * bool) :
  (process_repo_body net format_repo_name get_social_preview_url
     (coordinate mod_) mod_.2 false).1 = Ok r ->
  (process_repo net format_repo_name get_social_preview_url mod_ sema).1 = Ok r.
Proof.
  intros Hbody. unfold process_repo.
  assert (Hs : (process_repo_body net format_repo_name get_social_preview_url
                  (coordinate mod_) mod_.2 sema).1 = Ok r).
  { destruct sema; [now rewrite process_repo_body_sema | exact Hbody]. }
  destruct (process_repo_body _ _ _ _ _ sema) as [r' t]. cbn [fst] in Hs.
  subst r'. now destruct sema.
Qed.

Lemma existsb_nonempty_filter {A} (f : A -> bool) (l : list A) :
  existsb f l = negb (bool_decide (filter (λ a, f a = true) l = [])).
Proof.
  induction l as [|a l IH]; [reflexivity|].
  cbn [existsb]. rewrite filter_cons.
  destruct (decide (f a = true)) as [->|Hn]; [reflexivity|].
  apply not_true_is_false in Hn. now rewrite Hn.
Qed.

(** The counters after the loop of [main]. *)
Lemma run_tasks_counts (config : list entry) (acc : summary) :
  exists acc' t,
    run_tasks net format_repo_name get_social_preview_url acc config
    = (Ok acc', t)
    /\ error_found acc' = error_found acc || existsb (item_error net) config
    /\ processed_count acc'
       = processed_count acc
         + sum_list_with
             (λ m, if item_failed net (coordinate m) then 0 else 1) config
    /\ mismatch_count acc'
       = mismatch_count acc
         + sum_list_with
             (λ m, if item_failed net (coordinate m) then 0
                   else length (filter (λ a, asset_mismatch net m.2 a = true)
                                  (latest_assets net (coordinate m))))
             config
    /\ length (jsons acc') = length (jsons acc)
         + sum_list_with
             (λ m, if item_failed net (coordinate m) then 0 else 1) config.
Proof.
  revert acc. induction config as [|mod_ config IH]; intros acc.
  - exists acc, []. cbn. rewrite orb_false_r. repeat split; lia.
  - cbn [run_tasks existsb sum_list_with]. rewrite bind_run.
    destruct (process_repo_run net format_repo_name get_social_preview_url
                mod_ true) as (r & mid & Hrun & _ & Hr).
    rewrite Hrun. cbn [fst snd].
    destruct (IH (collect acc r)) as (acc' & t & -> & Herr & Hcount & Hmis & Hlen).
    cbn [fst snd]. eexists _, _. split; [reflexivity|].
    rewrite Herr, Hcount, Hmis, Hlen. unfold item_error at 2.
    destruct (item_failed net (coordinate mod_)) eqn:Hfail.
    + subst r. cbn. split_and!; try lia; try now rewrite orb_true_r.
    + destruct Hr as (res & -> & _).
      destruct mod_ as [repo_name repo_data_spec]. cbn [coordinate fst snd] in *.
      destruct (process_repo_body_fields repo_name repo_data_spec Hfail)
        as (res' & releases & Hbody & _ & Hnames & _).
      apply (process_repo_returns_body (repo_name, repo_data_spec) true)
        in Hbody.
      rewrite Hrun in Hbody. cbn [fst] in Hbody.
      assert (res' = res) by congruence. subst res'.
      cbn. rewrite Hnames, length_fmap, length_app. cbn.
      split_and!; try lia; try now rewrite orb_assoc.
Qed.

Lemma existsb_Permutation {A} (f : A -> bool) (l l' : list A) :
  l ≡ₚ l' -> existsb f l = existsb f l'.
Proof.
  induction 1 as [|x l l' _ IH|x y l|l l' l'' _ IH1 _ IH2]; cbn.
  - reflexivity.
  - now rewrite IH.
  - now destruct (f x), (f y).
  - congruence.
Qed.

End BatchFacts.

Section BatchProperties.
Import Py Aiohttp ConfigManager Generate2 Samples.

(** X25. For an item that is processed, the list [mismatched_hashes] of
    the result names the assets of the verified release whose observed
    digest is not the one on record, in the order of the release; the
    error flag that comes with the result is raised exactly when this
    list is not empty; and the downloads are those of the assets of that
    release, one each, in their order. *)
Theorem processed_item_names_its_mismatches
  (net : network) (format_repo_name : string -> string)
  (get_social_preview_url : string -> option string)
  (mod_ : entry) (sema : bool) :
  item_failed net (coordinate mod_) = false ->
  exists res,
    (process_repo net format_repo_name get_social_preview_url mod_ sema).1
    = Ok (Some res, negb (bool_decide (mismatched_hashes res = [])))
    /\ mismatched_hashes res
       = name <$> filter (λ a, asset_mismatch net mod_.2 a = true)
                    (latest_assets net (coordinate mod_))
    /\ av_name <$> downloads res = name <$> latest_assets net (coordinate mod_)
    /\ av_url <$> downloads res
       = browser_download_url <$> latest_assets net (coordinate mod_).
Proof.
  intros Hfail. destruct mod_ as [repo_name repo_data_spec].
  cbn [coordinate fst snd] in *.
  destruct (process_repo_body_fields net format_repo_name
              get_social_preview_url repo_name repo_data_spec Hfail)
    as (res & releases & Hbody & _ & Hnames & Hdl & Hurl & _).
  exists res. split_and!; try assumption.
  rewrite (process_repo_returns_body net format_repo_name
             get_social_preview_url (repo_name, repo_data_spec) sema _ Hbody).
  do 2 f_equal. unfold digest_mismatch. cbn [coordinate fst snd].
  rewrite existsb_nonempty_filter, Hnames. f_equal.
  apply bool_decide_ext. split.
  - now intros ->.
  - intros H. now apply fmap_nil_inv in H.
Qed.

Lemma processed_item_names_its_mismatches_witness :
  exists res,
    (process_repo (online_network (served "abd" None)) (λ s, s) (λ _, None)
       ("foo/bar", sample_spec) true).1
    = Ok (Some res, true)
    /\ mismatched_hashes res = ["mod.dll"].
Proof.
  destruct (processed_item_names_its_mismatches
              (online_network (served "abd" None)) (λ s, s) (λ _, None)
              ("foo/bar", sample_spec) true eq_refl)
    as (res & Hrun & Hnames & _).
  exists res. split.
  - rewrite Hrun, Hnames. reflexivity.
  - rewrite Hnames. reflexivity.
Defined.

(** X26. When the request for the latest release is served, the download
    counters of that release alone make [total_downloads]: the list of
    releases then holds this one release, and the loop that tallies the
    other releases runs over nothing. *)
Theorem latest_release_alone_is_tallied
  (net : network) (format_repo_name : string -> string)
  (get_social_preview_url : string -> option string)
  (mod_ : entry) (sema : bool)
  (resp : response (result release)) (latest : release) :
  item_failed net (coordinate mod_) = false ->
  http_release net (GITHUB_API +:+ "/repos/" +:+ coordinate mod_
                    +:+ "/releases/latest") = Ok resp ->
  status resp = 200 -> body resp = Ok latest ->
  exists res error,
    (process_repo net format_repo_name get_social_preview_url mod_ sema).1
    = Ok (Some res, error)
    /\ total_downloads res
       = sum_download_count (default [] (rel_assets latest)).
Proof.
  intros Hfail Hhttp Hstatus Hbody. destruct mod_ as [repo_name repo_data_spec].
  cbn [coordinate fst snd] in *.
  destruct (process_repo_body_fields net format_repo_name
              get_social_preview_url repo_name repo_data_spec Hfail)
    as (res & releases & Hrun & Hrel & _ & _ & _ & Htotal).
  exists res, (digest_mismatch net (repo_name, repo_data_spec)).
  split.
  - exact (process_repo_returns_body net format_repo_name
             get_social_preview_url (repo_name, repo_data_spec) sema _ Hrun).
  - rewrite Htotal. unfold releases_of, json_of in Hrel.
    rewrite Hhttp in Hrel. cbn [bind] in Hrel.
    rewrite Hstatus, Hbody in Hrel. cbn in Hrel. injection Hrel as <-.
    cbn [foldr]. lia.
Qed.

Lemma latest_release_alone_is_tallied_witness :
  exists res error,
    (process_repo (online_network (served "abc" None)) (λ s, s) (λ _, None)
       ("foo/bar", sample_spec) true).1
    = Ok (Some res, error)
    /\ total_downloads res = 3.
Proof.
  exact (latest_release_alone_is_tallied
           (online_network (served "abc" None)) (λ s, s) (λ _, None)
           ("foo/bar", sample_spec) true
           {| status := 200; text := "";
              body := Ok {| rel_assets := Some sample_assets |} |}
           {| rel_assets := Some sample_assets |}
           eq_refl eq_refl eq_refl eq_refl).
Defined.

(** X27. The exit status and the counters of the summary do not depend
    on the order in which the items are completed: a run over the items
    in any other order ends with the same status, the same number of
    processed items, of results and of mismatches. *)
Theorem summary_is_order_independent
  (net : network) (format_repo_name : string -> string)
  (get_social_preview_url : string -> option string)
  (config config' : list entry) :
  config ≡ₚ config' ->
  exists acc acc' code t t',
    main net format_repo_name get_social_preview_url config
    = (Ok (acc, code), t)
    /\ main net format_repo_name get_social_preview_url config'
       = (Ok (acc', code), t')
    /\ processed_count acc = processed_count acc'
    /\ mismatch_count acc = mismatch_count acc'
    /\ length (jsons acc) = length (jsons acc').
Proof.
  intros Hperm. unfold main. rewrite !bind_run.
  destruct (run_tasks_counts net format_repo_name get_social_preview_url
              config summary_start)
    as (acc & t & -> & Herr & Hcount & Hmis & Hlen).
  destruct (run_tasks_counts net format_repo_name get_social_preview_url
              config' summary_start)
    as (acc' & t' & -> & Herr' & Hcount' & Hmis' & Hlen').
  cbn [fst snd] in *.
  assert (He : error_found acc = error_found acc').
  { rewrite Herr, Herr'. f_equal. now apply existsb_Permutation. }
  rewrite <- Hperm in Hcount', Hmis', Hlen'.
  rewrite <- He. destruct (error_found acc); cbn;
    eexists acc, acc', _, _, _; split_and!; try reflexivity; congruence.
Qed.

Lemma summary_is_order_independent_witness :
  exists acc acc' code t t',
    main (online_network (served "abc" None)) (λ s, s) (λ _, None)
      [("foo/bar", sample_spec); ("baz/qux", sample_spec)]
    = (Ok (acc, code), t)
    /\ main (online_network (served "abc" None)) (λ s, s) (λ _, None)
         [("baz/qux", sample_spec); ("foo/bar", sample_spec)]
       = (Ok (acc', code), t')
    /\ processed_count acc = processed_count acc'
    /\ mismatch_count acc = mismatch_count acc'
    /\ length (jsons acc) = length (jsons acc').
Proof.
  apply summary_is_order_independent. apply perm_swap.
Defined.

End BatchProperties.

(* ===================================================================== *)
(** * From the manager to the batch verification *)
(* ===================================================================== *)

Section RoundTripFacts.
Import Py Aiohttp ConfigManager Generate2.

(** The two downloaders hash alike: on one answer of the network both
    fail, or both return the same digest. *)
Lemma hashers_agree (answer : result (response stream)) (url : string) :
  match fetch_asset_hash answer url, stream_hash_of url answer with
  | Ok h, Ok h' => h = h'
  | Raise _, Raise _ => True
  | _, _ => False
  end.
Proof.
  unfold fetch_asset_hash, stream_hash_of.
  destruct answer as [resp|e]; cbn [bind]; [|exact I].
  destruct (status resp =? 200); [|exact I].
  now destruct (broken (body resp)).
Qed.

Lemma observed_is_recorded (up : upstream) (net : network) (a : asset_doc)
  (count : option nat) :
  http_asset net (ad_url a) = up_asset up (ad_url a) ->
  observed_digest net {| name := ad_name a; browser_download_url := ad_url a;
                         download_count := count |}
  = asset_digest up a.
Proof.
  intros Hnet. unfold observed_digest, asset_digest.
  cbn [browser_download_url]. rewrite Hnet.
  pose proof (hashers_agree (up_asset up (ad_url a)) (ad_url a)) as H.
  destruct (fetch_asset_hash _ _), (stream_hash_of _ _);
    try contradiction; congruence.
Qed.

Lemma existsb_false_fmap {A B} (f : B -> bool) (g : A -> B) (l : list A) :
  (forall a, a ∈ l -> f (g a) = false) -> existsb f (g <$> l) = false.
Proof.
  induction l as [|a l IH]; intros H; [reflexivity|].
  cbn [fmap list_fmap existsb]. rewrite H by (apply elem_of_cons; now left).
  apply IH. intros b Hb. apply H, elem_of_cons. now right.
Qed.

Lemma existsb_all_false {A} (f : A -> bool) (l : list A) :
  (forall a, a ∈ l -> f a = false) -> existsb f l = false.
Proof.
  intros H. rewrite <- (list_fmap_id l). now apply existsb_false_fmap.
Qed.

Lemma filter_none {A} (f : A -> bool) (l : list A) :
  (forall a, a ∈ l -> f a = false) -> filter (λ a, f a = true) l = [].
Proof.
  induction l as [|a l IH]; intros H; [reflexivity|].
  rewrite filter_cons.
  destruct (decide (f a = true)) as [Ha|_].
  - rewrite H in Ha by (apply elem_of_cons; now left). discriminate.
  - apply IH. intros b Hb. apply H, elem_of_cons. now right.
Qed.

End RoundTripFacts.

Section RoundTripProperties.
Import Py Aiohttp ConfigManager Generate2 Samples.

(** X28. The digests that the manager records for the assets of a
    release pass the batch verification of the same release on an
    unchanged upstream: no asset mismatches, also not one whose download
    failed when it was recorded (it has [None] on record, and is not
    compared).  The names of the assets are distinct. *)
Theorem recorded_digests_pass_verification
  (up : upstream) (net : network) (l : list asset_doc)
  (repo_name : string) (comment : option string) :
  NoDup (ad_name <$> l) ->
  (forall url, http_asset net url = up_asset up url) ->
  (λ a, (name a, browser_download_url a)) <$> latest_assets net repo_name
  = (λ a, (ad_name a, ad_url a)) <$> l ->
  digest_mismatch net
    (repo_name, {| _comment := comment; assets := hash_assets up l ∅ |})
  = false.
Proof.
  intros Hnd Hnet Hsame. unfold digest_mismatch. cbn [coordinate fst snd].
  apply existsb_all_false. intros a Ha.
  apply list_elem_of_lookup in Ha as [i Hi].
  assert (Hl : ((λ a, (ad_name a, ad_url a)) <$> l) !! i
               = Some (name a, browser_download_url a)).
  { rewrite <- Hsame, list_lookup_fmap, Hi. reflexivity. }
  rewrite list_lookup_fmap in Hl.
  destruct (l !! i) as [d|] eqn:Hd; [|discriminate].
  cbn in Hl. injection Hl as Hname Hurl.
  assert (Hin : d ∈ l) by (apply list_elem_of_lookup; eauto).
  unfold asset_mismatch, expected_hash_of. cbn [assets].
  rewrite <- Hname, (hash_assets_lookup_in up l ∅ d Hnd Hin).
  cbn [mbind option_bind id].
  assert (Hobs : observed_digest net a = asset_digest up d).
  { destruct a as [n u c]. cbn [name browser_download_url] in *. subst n u.
    apply observed_is_recorded, Hnet. }
  rewrite Hobs, bool_decide_eq_true_2 by reflexivity.
  apply andb_false_r.
Qed.

Lemma recorded_digests_pass_verification_witness :
  digest_mismatch (mirror_network (sample_up (Some commit_bbbb222) 200))
    ("foo/bar",
     {| _comment := None;
        assets := hash_assets (sample_up (Some commit_bbbb222) 200)
                    sample_release_assets ∅ |})
  = false.
Proof.
  apply recorded_digests_pass_verification.
  - apply (bool_decide_unpack _). vm_compute. exact I.
  - reflexivity.
  - reflexivity.
Defined.

(** X29. Verification compares nothing for an item with no digest on
    record: whatever its downloads come to, such an item that is
    processed has no mismatch, and does not make the run fail. *)
Theorem nothing_on_record_nothing_to_fail
  (net : network) (format_repo_name : string -> string)
  (get_social_preview_url : string -> option string)
  (repo_name : string) (comment : option string) (sema : bool) :
  item_failed net repo_name = false ->
  exists res,
    (process_repo net format_repo_name get_social_preview_url
       (repo_name, {| _comment := comment; assets := ∅ |}) sema).1
    = Ok (Some res, false)
    /\ mismatched_hashes res = []
    /\ item_error net (repo_name, {| _comment := comment; assets := ∅ |})
       = false.
Proof.
  intros Hfail.
  destruct (process_repo_body_fields net format_repo_name
              get_social_preview_url repo_name
              {| _comment := comment; assets := ∅ |} Hfail)
    as (res & releases & Hbody & _ & Hnames & _).
  assert (Hnone : digest_mismatch net
                    (repo_name, {| _comment := comment; assets := ∅ |})
                  = false).
  { unfold digest_mismatch. apply existsb_all_false. intros a _.
    unfold asset_mismatch, expected_hash_of. cbn [snd assets].
    now rewrite lookup_empty. }
  exists res. split_and!.
  - rewrite <- Hnone.
    exact (process_repo_returns_body net format_repo_name
             get_social_preview_url
             (repo_name, {| _comment := comment; assets := ∅ |}) sema _ Hbody).
  - rewrite Hnames. cbn [snd].
    rewrite filter_none; [reflexivity|]. intros a _.
    unfold asset_mismatch, expected_hash_of. cbn [assets].
    now rewrite lookup_empty.
  - unfold item_error. cbn [coordinate fst]. now rewrite Hfail, Hnone.
Qed.

Lemma nothing_on_record_nothing_to_fail_witness :
  exists res,
    (process_repo
       (online_network (served "x" (Some (ClientError "connection lost"))))
       (λ s, s) (λ _, None)
       ("foo/bar", {| _comment := None; assets := ∅ |}) true).1
    = Ok (Some res, false)
    /\ mismatched_hashes res = []
    /\ item_error
         (online_network (served "x" (Some (ClientError "connection lost"))))
         ("foo/bar", {| _comment := None; assets := ∅ |})
       = false.
Proof.
  exact (nothing_on_record_nothing_to_fail
           (online_network (served "x" (Some (ClientError "connection lost"))))
           (λ s, s) (λ _, None) "foo/bar" None true eq_refl).
Defined.

(** X30. The digest of a stream does not depend on where the transfer
    cuts it: two sequences of chunks, of any sizes, that carry the same
    bytes have the same digest. *)
Theorem digest_ignores_chunk_boundaries (chunks chunks' : list (list byte)) :
  concat chunks = concat chunks' ->
  hash_stream chunks = hash_stream chunks'.
Proof.
  intros H. now rewrite !hash_stream_concat, H.
Qed.

Lemma digest_ignores_chunk_boundaries_witness :
  hash_stream [list_byte_of_string "ab"; []; list_byte_of_string "c"]
  = hash_stream [list_byte_of_string "a"; list_byte_of_string "bc"].
Proof.
  exact (digest_ignores_chunk_boundaries
           [list_byte_of_string "ab"; []; list_byte_of_string "c"]
           [list_byte_of_string "a"; list_byte_of_string "bc"] eq_refl).
Defined.

End RoundTripProperties.
